(** * RetailAnalytics: the forecasting and KPI engine of [src/RetailAnalytics.tsx]

    A shallow embedding of the numeric core of the component: the mock
    generator [generateMockData] (historical series and forecast), the
    [kpis] reduction and the three scenario amounts of [renderForecast].

    JavaScript numbers are IEEE 754 binary64 values; they are modelled by
    Rocq's primitive [float], whose operations are the same binary64
    operations with round-to-nearest-even.  Concrete values are obtained by
    evaluation; properties of every number (order, bounds) are proved from
    the specification of the primitive operations in [FloatAxioms].
    [Math.random] is modelled by an explicit source of draws threaded
    through the generator. *)

From Stdlib Require Import ZArith List Bool Lia String Floats.
Import ListNotations.

Set Warnings "-inexact-float".

Local Open Scope Z_scope.

(** ** JavaScript numbers *)

Module JS.

Definition number := float.

(** An array index or length used as a number. *)
Definition of_nat (n : nat) : number :=
  PrimFloat.of_uint63 (Uint63.of_Z (Z.of_nat n)).

(** An integer that fits the 53-bit mantissa, as a number. *)
Definition of_Z (q : Z) : number :=
  SF2Prim (binary_normalize prec emax q 0 false).

(** [Math.round(x)]: the integer closest to [x], ties going towards
    +infinity; NaN, the infinities and both zeros are returned unchanged,
    and a result of zero keeps the sign of [x]
    (so [Math.round(-0.2)] is [-0]).  On a finite [x = n * 2^e] with
    [e < 0] the integer is [floor (x + 1/2)], computed exactly. *)
Definition Math_round (x : number) : number :=
  match Prim2SF x with
  | S754_finite s m e =>
      if 0 <=? e then x
      else
        let n := if s then Z.neg m else Z.pos m in
        let q := (2 * n + 2 ^ (- e)) / 2 ^ (1 - e) in
        if q =? 0 then (if s then neg_zero else zero) else of_Z q
  | _ => x
  end.

(** [Math.max(a, b)]: NaN if either is NaN, and [+0] is larger than [-0]. *)
Definition Math_max (a b : number) : number :=
  if is_nan a || is_nan b then nan
  else if (a <? b)%float then b
  else if (b <? a)%float then a
  else if get_sign a then b else a.

End JS.

Import JS.

(** ** The random source

    Every call of [Math.random()] takes the next draw of the source; the
    state is the number of draws taken so far. *)

Definition RandomSource := nat -> number.

Definition Rand (A : Type) : Type := RandomSource -> nat -> A * nat.

Definition ret {A} (a : A) : Rand A := fun _ n => (a, n).

Definition bind {A B} (c : Rand A) (k : A -> Rand B) : Rand B :=
  fun src n => let (a, n') := c src n in k a src n'.

Notation "x <- c ;; k" := (bind c (fun x => k))
  (at level 61, c at next level, right associativity).

Definition Math_random : Rand number := fun src n => (src n, S n).

(** [array.map((x, index) => f x index)] with an effectful callback, the
    elements visited in order. *)
Fixpoint map_indexed {A B} (f : A -> nat -> Rand B) (l : list A) (index : nat)
  : Rand (list B) :=
  match l with
  | [] => ret []
  | x :: l' =>
      y <- f x index ;;
      ys <- map_indexed f l' (S index) ;;
      ret (y :: ys)
  end.

(** The same for a callback that may throw ([None]). *)
Fixpoint map_indexed_exn {A B} (f : A -> nat -> option B) (l : list A)
  (index : nat) : option (list B) :=
  match l with
  | [] => Some []
  | x :: l' =>
      match f x index with
      | None => None
      | Some y =>
          match map_indexed_exn f l' (S index) with
          | None => None
          | Some ys => Some (y :: ys)
          end
      end
  end.

(** ** Type definitions *)

Record TrafficSources := {
  organic : number;
  paid : number;
  social : number;
  email : number;
  direct : number
}.

Record MonthData := {
  month : string;
  revenue : number;
  units : number;
  grossMargin : number;
  conversionRate : number;
  avgOrderValue : number;
  trafficSources : TrafficSources
}.

(** The [month] and [revenue] fields of the interface [ForecastPoint] are
    prefixed, the names being taken by [MonthData]. *)
Record ForecastPoint := {
  fp_month : string;
  fp_revenue : number;
  forecastHigh : number;
  forecastLow : number;
  confidence : number
}.

Record KPIs := {
  totalRevenue : number;
  avgGrossMargin : number;
  avgConversionRate : number;
  kpi_avgOrderValue : number;
  monthlyGrowth : number
}.

(** ** generateMockData *)

Local Open Scope float_scope.

Definition months : list string :=
  ["Jan"; "Feb"; "Mar"; "Apr"; "May"; "Jun";
   "Jul"; "Aug"; "Sep"; "Oct"; "Nov"; "Dec"]%string.

Definition seasonality (index : nat) : number :=
  if (index <? 6)%nat then 0.8 + of_nat index * 0.05
  else 1.2 - (of_nat index - 6) * 0.03.

Definition holidayBoost (index : nat) : number :=
  if existsb (Nat.eqb index) [10; 11]%nat then 1.4 else 1.0.

(** The callback of [months.map] that builds one historical record; the
    ten draws are taken in the order of the object literal. *)
Definition historicalRecord (month : string) (index : nat) : Rand MonthData :=
  let seasonality := seasonality index in
  let holidayBoost := holidayBoost index in
  r_revenue <- Math_random ;;
  r_units <- Math_random ;;
  r_margin <- Math_random ;;
  r_conversion <- Math_random ;;
  r_aov <- Math_random ;;
  r_organic <- Math_random ;;
  r_paid <- Math_random ;;
  r_social <- Math_random ;;
  r_email <- Math_random ;;
  r_direct <- Math_random ;;
  ret {|
    month := month;
    revenue := Math_round ((850000 + r_revenue * 150000) * seasonality * holidayBoost);
    units := Math_round ((2800 + r_units * 500) * seasonality * holidayBoost);
    grossMargin := 0.68 + (r_margin * 0.08 - 0.04);
    conversionRate := 0.034 + (r_conversion * 0.008 - 0.004);
    avgOrderValue := Math_round (280 + r_aov * 40);
    trafficSources := {|
      organic := Math_round (15000 + r_organic * 3000);
      paid := Math_round (8000 + r_paid * 2000);
      social := Math_round (5000 + r_social * 1500);
      email := Math_round (4000 + r_email * 1000);
      direct := Math_round (12000 + r_direct * 2500)
    |}
  |}.

Definition historicalData : Rand (list MonthData) :=
  map_indexed historicalRecord months 0.

Definition growthTrend : number := 1.08.
Definition uncertainty : number := 0.10.

(** [Math.max(0, 0.85 - idx * 0.02)]. *)
Definition forecastConfidence (idx : nat) : number :=
  Math_max 0 (0.85 - of_nat idx * 0.02).

(** The callback of the second [months.map]. [historicalData[idx]] is
    [undefined] past the end of the array, and reading [.revenue] from it
    throws a TypeError, which is [None] here. *)
Definition forecastPoint (historicalData : list MonthData)
  (month : string) (idx : nat) : option ForecastPoint :=
  match nth_error historicalData idx with
  | None => None
  | Some h =>
      let baseRevenue := revenue h * growthTrend in
      Some {|
        fp_month := (month ++ " (F)")%string;
        fp_revenue := Math_round baseRevenue;
        forecastHigh := Math_round (baseRevenue * (1 + uncertainty));
        forecastLow := Math_round (baseRevenue * (1 - uncertainty));
        confidence := forecastConfidence idx
      |}
  end.

Definition forecastData (historicalData : list MonthData)
  : option (list ForecastPoint) :=
  map_indexed_exn (forecastPoint historicalData) months 0.

(** [None] stands for the exception that [forecastData] would throw. *)
Definition generateMockData
  : Rand (option (list MonthData * list ForecastPoint)) :=
  h <- historicalData ;;
  ret (match forecastData h with
       | Some f => Some (h, f)
       | None => None
       end).

(** ** KPIs *)

(** [array[i]] for an integer [i]: [undefined] ([None]) out of range,
    a negative index included. *)
Definition array_get {A} (l : list A) (i : Z) : option A :=
  if (i <? 0)%Z then None else nth_error l (Z.to_nat i).

Definition array_length {A} (l : list A) : Z := Z.of_nat (List.length l).

Definition currentMonthData (historicalData : list MonthData) :=
  array_get historicalData (array_length historicalData - 1)%Z.

Definition previousMonthData (historicalData : list MonthData) :=
  array_get historicalData (array_length historicalData - 2)%Z.

(** [array.reduce((s, m) => s + f m, 0)]. *)
Definition reduce_sum (f : MonthData -> number) (l : list MonthData) : number :=
  fold_left (fun s m => s + f m) l 0.

(** How [monthlyGrowth] is evaluated: either the conditional takes its
    else-branch, or the division is carried out on a dividend and a
    divisor. *)
Inductive GrowthEval :=
| GuardedZero
| Divided (dividend divisor : number).

Definition growth_value (g : GrowthEval) : number :=
  match g with
  | GuardedZero => 0
  | Divided a b => (a / b) * 100
  end.

(** [previousMonthData ? (current.revenue - previous.revenue) /
    previous.revenue ... : 0]: an object is truthy, [undefined] is falsy;
    reading [.revenue] of an undefined [currentMonthData] would throw. *)
Definition monthlyGrowth_eval (historicalData : list MonthData)
  : option GrowthEval :=
  match previousMonthData historicalData with
  | Some previous =>
      match currentMonthData historicalData with
      | Some current =>
          Some (Divided (revenue current - revenue previous) (revenue previous))
      | None => None
      end
  | None => Some GuardedZero
  end.

Definition kpis (historicalData : list MonthData) : option KPIs :=
  let length := of_nat (List.length historicalData) in
  let totalRevenue := reduce_sum revenue historicalData in
  let avgGrossMargin := reduce_sum grossMargin historicalData / length in
  let avgConversionRate := reduce_sum conversionRate historicalData / length in
  let avgOrderValue := reduce_sum avgOrderValue historicalData / length in
  match monthlyGrowth_eval historicalData with
  | None => None
  | Some g =>
      Some {|
        totalRevenue := totalRevenue;
        avgGrossMargin := avgGrossMargin;
        avgConversionRate := avgConversionRate;
        kpi_avgOrderValue := avgOrderValue;
        monthlyGrowth := growth_value g
      |}
  end.

(** ** Scenario planning

    The three amounts [renderForecast] derives from [kpis.totalRevenue]
    (it then prints each one in millions with one decimal). *)

Definition bearCase (totalRevenue : number) : number := totalRevenue * 0.85.
Definition baseCase (totalRevenue : number) : number := totalRevenue * 1.08.
Definition bullCase (totalRevenue : number) : number := totalRevenue * 1.25.

Definition in_millions (amount : number) : number := amount / 1000000.

(** ** The chart series

    [combinedData] puts the historical records and the forecast points, up
    to the selected horizon, into one series. *)

(** [CombinedPoint]: a tagged union, the tag being the [type] field. *)
Inductive CombinedPoint :=
| Historical (d : MonthData)
| Forecast (d : ForecastPoint).

(** The abstract operation ToIntegerOrInfinity of the language
    specification: NaN and the zeros give 0, the infinities themselves,
    every other number is truncated towards zero. *)
Inductive IntegerOrInfinity :=
| MinusInfinity
| Integer (z : Z)
| PlusInfinity.

Definition ToIntegerOrInfinity (x : number) : IntegerOrInfinity :=
  match Prim2SF x with
  | S754_nan | S754_zero _ => Integer 0
  | S754_infinity s => if s then MinusInfinity else PlusInfinity
  | S754_finite s m e =>
      let magnitude :=
        (if 0 <=? e then Z.pos m * 2 ^ e else Z.pos m / 2 ^ (- e))%Z in
      Integer (if s then - magnitude else magnitude)%Z
  end.

(** [array.slice(0, end)]: a negative [end] counts from the end of the
    array, and the result is cut at the length of the array. *)
Definition slice_from_start {A} (l : list A) (end_ : number) : list A :=
  let len := Z.of_nat (List.length l) in
  let final :=
    match ToIntegerOrInfinity end_ with
    | MinusInfinity => 0%Z
    | Integer relativeEnd =>
        if (relativeEnd <? 0)%Z then Z.max (len + relativeEnd) 0
        else Z.min relativeEnd len
    | PlusInfinity => len
    end in
  firstn (Z.to_nat final) l.

(** [combinedData]: the historical records, then the forecast points up to
    the horizon. *)
Definition combinedData (historicalData : list MonthData)
  (forecastData : list ForecastPoint) (forecastHorizon : number)
  : list CombinedPoint :=
  map Historical historicalData
  ++ map Forecast (slice_from_start forecastData forecastHorizon).

(** ** Customer segments *)

(** [(s.revenue / Math.max(s.count, 1e-6)) * 1000] in [render5Ps]. *)
Definition revenuePerCustomer (revenue count : number) : number :=
  revenue / Math_max count 1e-6 * 1000.

(** ** The specification's wording

    Definitions that follow the text of the specification, to compare the
    code with. *)

Module Spec.

(** Forecast Projector, period [i]: base = revenue x 1.08, the point is
    round(base), round(base x 1.10), round(base x 0.90) and
    max(0, 0.85 - 0.02 x i), labelled with the month and a forecast tag. *)
Definition project_point (label : string) (revenue : number) (i : nat)
  : ForecastPoint :=
  let base := revenue * 1.08 in
  {| fp_month := (label ++ " (F)")%string;
     fp_revenue := Math_round base;
     forecastHigh := Math_round (base * 1.10);
     forecastLow := Math_round (base * 0.90);
     confidence := Math_max 0 (0.85 - 0.02 * of_nat i) |}.

(** The sum of a series, and its arithmetic mean. *)
Definition sum (xs : list number) : number := fold_left PrimFloat.add xs 0.

Definition mean (xs : list number) : number :=
  sum xs / of_nat (List.length xs).

(** (last - secondToLast) / secondToLast x 100. *)
Definition growthPercent (last secondToLast : number) : number :=
  (last - secondToLast) / secondToLast * 100.

(** Seasonality Model: 0.8 + 0.05 x index in the first half of the year,
    1.2 - 0.03 x (index - 6) in the second. *)
Definition seasonalityFactor (index : nat) : number :=
  if (index <=? 5)%nat then 0.8 + 0.05 * of_nat index
  else 1.2 - 0.03 * (of_nat index - 6).

Definition holidayMultiplier (index : nat) : number :=
  if (index =? 10)%nat || (index =? 11)%nat then 1.4 else 1.

End Spec.

(** A record with a given revenue, the other fields zero. *)
Definition record_with_revenue (r : number) : MonthData :=
  {| month := EmptyString; revenue := r; units := 0; grossMargin := 0;
     conversionRate := 0; avgOrderValue := 0;
     trafficSources := {| organic := 0; paid := 0; social := 0;
                          email := 0; direct := 0 |} |}.

(** Twelve records with the same revenue, one per month. *)
Definition flat_year (r : number) : list MonthData :=
  map (fun _ => record_with_revenue r) months.

(** ** Auxiliary definitions *)

(** The confidence sequence of the twelve periods, checked pair by pair. *)
Definition confidence_table_ok : bool :=
  forallb (fun i =>
    (0 <=? forecastConfidence i) &&
    forallb (fun j =>
      if (i <=? j)%nat then forecastConfidence j <=? forecastConfidence i
      else true) (seq 0 12)) (seq 0 12).

(** The claim that the growth computation never divides by zero: whenever
    the division is evaluated its divisor is not zero. *)
Definition never_divides_by_zero : Prop :=
  forall hist a b,
    monthlyGrowth_eval hist = Some (Divided a b) -> (b =? 0) = false.

(** The claim that revenue, units and order value all carry the seasonal
    multiplier of their period: each is its base-plus-draw amount scaled by
    the seasonality factor and the holiday multiplier, then rounded. *)
Definition common_seasonality_multiplier : Prop :=
  forall (src : RandomSource) (n i : nat) (label : string),
    (i < 12)%nat ->
    let r := fst (historicalRecord label i src n) in
    let s := Spec.seasonalityFactor i in
    let h := Spec.holidayMultiplier i in
    revenue r = Math_round ((850000 + src n * 150000) * s * h) /\
    units r = Math_round ((2800 + src (n + 1)%nat * 500) * s * h) /\
    avgOrderValue r = Math_round ((280 + src (n + 4)%nat * 40) * s * h).

(** The source of draws that always returns the same number. *)
Definition constant_source (r : number) : RandomSource := fun _ => r.

(** Every draw lies in the unit interval [0, 1). *)
Definition unit_draws (src : RandomSource) : Prop :=
  forall k, (0 <=? src k) = true /\ (src k <? 1) = true.

(** The bounds of the generated margins and conversion rates with
    half-open intervals, [0.64, 0.72) and [0.030, 0.038). *)
Definition generator_bounds_half_open : Prop :=
  forall (src : RandomSource) (n : nat), unit_draws src ->
    let h := fst (historicalData src n) in
    List.length h = 12%nat /\
    forall r, In r h ->
      (0.64 <=? grossMargin r) = true /\ (grossMargin r <? 0.72) = true /\
      (0.030 <=? conversionRate r) = true /\ (conversionRate r <? 0.038) = true.

(** The ordering of the scenario amounts for every positive total. *)
Definition scenario_ordering : Prop :=
  forall t : number, (0 <? t) = true ->
    (bearCase t <? baseCase t) = true /\ (baseCase t <? bullCase t) = true.

(** The largest number below 1. *)
Definition below_one : number := 0x1.fffffffffffffp-1.

(** The least and the greatest total for which the three scenario amounts
    are strictly ordered: four times the least positive number, and the
    greatest number whose product with 1.08 is finite. *)
Definition scenario_order_least : number := 0x1p-1072.
Definition scenario_order_greatest : number := 0x1.da12f684bda11p+1023.

(** ** Binary64 arithmetic: what the operations compute

    The primitive operations are specified by the functions of
    [SpecFloat] on [spec_float] ([Prim2SF], [mul_spec], [add_spec], ...).
    To reason about order, every number that is not NaN is given an
    integer value, counted in units of [2^-1074] (the least positive
    binary64 number), and rounding is described on integers. *)

Module B64.

Local Open Scope Z_scope.

(** [X / 2^k] rounded to the nearest integer, ties to the even one. *)
Definition RNE (X k : Z) : Z :=
  let q := X / 2 ^ k in
  match 2 * (X mod 2 ^ k) ?= 2 ^ k with
  | Lt => q
  | Eq => if Z.even q then q else q + 1
  | Gt => q + 1
  end.

(** The number of binary digits of a mantissa. *)
Definition digits (m : positive) : Z := Z.pos (digits2_pos m).

(** The value that stands for infinity: [2^1024], in units of [2^-1074]. *)
Definition huge : Z := 2 ^ 2098.

(** The value of a number in units of [2^-1074] (0 for NaN). *)
Definition F2Z (x : spec_float) : Z :=
  match x with
  | S754_zero _ => 0
  | S754_nan => 0
  | S754_infinity s => if s then - huge else huge
  | S754_finite s m e =>
      if s then - (Z.pos m * 2 ^ (e + 1074)) else Z.pos m * 2 ^ (e + 1074)
  end.

(** The exponent at which [m * 2^e] is rounded. *)
Definition fexp64 (m : positive) (e : Z) : Z :=
  Z.max (digits m + e - 53) (-1074).

(** The value [m * 2^e] rounds to, when [e] is at most its rounding
    exponent. *)
Definition round_val (m : positive) (e : Z) : Z :=
  RNE (Z.pos m) (fexp64 m e - e) * 2 ^ (fexp64 m e + 1074).

Definition signed_like (s : bool) (x : spec_float) : Prop :=
  match x with
  | S754_zero s' | S754_infinity s' | S754_finite s' _ _ => s' = s
  | S754_nan => False
  end.

(** Rounding on a grid: [X > 0] counts units of [2^(-1074-g)], the result
    counts units of [2^-1074]. *)
Definition Rpos (g X : Z) : Z :=
  let k := Z.max (Z.log2 X + 1 - 53) g in
  RNE X k * 2 ^ (k - g).

(** The same for every integer, overflow going to [huge]. *)
Definition R (g X : Z) : Z :=
  if 0 <? X then Z.min (Rpos g X) huge
  else if X <? 0 then - Z.min (Rpos g (- X)) huge
  else 0.

Definition SF_finite (x : spec_float) : bool :=
  match x with
  | S754_zero _ | S754_finite _ _ _ => true
  | _ => false
  end.

Definition SF_nan (x : spec_float) : bool :=
  match x with
  | S754_nan => true
  | _ => false
  end.

Definition signed (s : bool) (v : Z) : Z := if s then - v else v.

(** The same notions on primitive floats. *)
Definition val (x : float) : Z := F2Z (Prim2SF x).
Definition finite (x : float) : bool := SF_finite (Prim2SF x).
Definition is_number (x : float) : bool := negb (SF_nan (Prim2SF x)).

(** [floor (v + 1/2)] on values counted in units of [2^-1074]. *)
Definition roundZ (v : Z) : Z := (2 * v + 2 ^ 1074) / 2 ^ 1075 * 2 ^ 1074.

End B64.

Import B64.

(** ** Auxiliary definitions for the generated data *)

(** The revenue and the units of period [index] for a given draw. *)
Definition revenue_at (r : number) (index : nat) : number :=
  Math_round ((850000 + r * 150000) * seasonality index * holidayBoost index).

Definition units_at (r : number) (index : nat) : number :=
  Math_round ((2800 + r * 500) * seasonality index * holidayBoost index).

(** A finite number with no fractional part. *)
Definition is_integer (x : number) : bool :=
  finite x && (val x mod 2 ^ 1074 =? 0)%Z.

(** Every partial sum of [acc + x1 + x2 + ...] is finite. *)
Fixpoint sums_finite (l : list number) (acc : number) : bool :=
  finite acc &&
  match l with
  | [] => true
  | x :: l' => sums_finite l' (acc + x)
  end.

(** The constants of a draw [base + r * range]: finite, a non-negative
    range, and finite results at both ends of the unit interval. *)
Definition offset_ok (base range : number) : bool :=
  finite base && finite range && (0 <=? range) &&
  finite (0 * range) && finite (below_one * range) &&
  finite (base + 0 * range) && finite (base + below_one * range).

(** The same for [(base + r * range) * s * h]. *)
Definition scaling_ok (base range s h : number) : bool :=
  offset_ok base range && finite s && finite h && (0 <=? s) && (0 <=? h) &&
  finite ((base + 0 * range) * s) && finite ((base + below_one * range) * s).

(** The combined seasonal multiplier of a period and the band it gives to
    an amount drawn between [lo] and [hi]. *)
Definition seasonal_band (lo hi : number) (index : nat) : number * number :=
  (Math_round (lo * seasonality index * holidayBoost index),
   Math_round (hi * seasonality index * holidayBoost index)).

Definition within (x : number) (band : number * number) : bool :=
  (fst band <=? x) && (x <=? snd band).

(** The bands agree with the values at the two extreme draws. *)
Definition bands_table_ok : bool :=
  forallb (fun i =>
    Leibniz.eqb (fst (seasonal_band 850000 1000000 i)) (revenue_at 0 i) &&
    Leibniz.eqb (snd (seasonal_band 850000 1000000 i)) (revenue_at below_one i) &&
    Leibniz.eqb (fst (seasonal_band 2800 3300 i)) (units_at 0 i) &&
    Leibniz.eqb (snd (seasonal_band 2800 3300 i)) (units_at below_one i) &&
    scaling_ok 850000 150000 (seasonality i) (holidayBoost i) &&
    scaling_ok 2800 500 (seasonality i) (holidayBoost i))
  (seq 0 12).

(** The integer a whole number stands for. *)
Definition int_of (x : number) : Z := (val x / 2 ^ 1074)%Z.

(** The same read off the mantissa and the exponent; [None] when the
    number is not a finite whole number. *)
Definition to_int (x : number) : option Z :=
  match Prim2SF x with
  | S754_zero _ => Some 0%Z
  | S754_finite s m e =>
      let n := if s then Z.neg m else Z.pos m in
      if (0 <=? e)%Z then Some (n * 2 ^ e)%Z
      else if (Z.pos m mod 2 ^ (- e) =? 0)%Z then Some (n / 2 ^ (- e))%Z
      else None
  | _ => None
  end.

(** The ends of the revenue band and of the units band of a period. *)
Definition band_ends (index : nat) : list number :=
  [fst (seasonal_band 850000 1000000 index);
   snd (seasonal_band 850000 1000000 index);
   fst (seasonal_band 2800 3300 index);
   snd (seasonal_band 2800 3300 index)].

(** The same as integers, period by period: least and greatest revenue,
    least and greatest units. *)
Definition band_table : list (Z * Z * Z * Z) := Eval vm_compute in
    map (fun i => match map to_int (band_ends i) with
                  | [Some a; Some b; Some c; Some d] => (a, b, c, d)
                  | _ => (0, 0, 0, 0)%Z
                  end) (seq 0 12).

Definition band_entry (q : Z * Z * Z * Z) : list (option Z) :=
  let '(a, b, c, d) := q in [Some a; Some b; Some c; Some d].

(** ** Binary64 arithmetic: quotients

    The value of a quotient is described through the quotient of the two
    values with two more binary places, the last one sticky. *)

Module Quotient.

Local Open Scope Z_scope.

(** The two binary places after the integer part of [r / D]: the second
    one is set when any further place is. *)
Definition place_code (r D : Z) : Z :=
  if r =? 0 then 0
  else match 2 * r ?= D with
       | Lt => 1
       | Eq => 2
       | Gt => 3
       end.

(** [N / D] in quarters, the last place sticky. *)
Definition sticky (N D : Z) : Z := 4 * (N / D) + place_code (N mod D) D.

(** [N / D] rounded to the nearest integer, ties to the even one. *)
Definition RNQ (N D : Z) : Z :=
  let q := N / D in
  match 2 * (N mod D) ?= D with
  | Lt => q
  | Eq => if Z.even q then q else q + 1
  | Gt => q + 1
  end.

Definition loc_code (l : location) : Z :=
  match l with
  | loc_Exact => 0
  | loc_Inexact Lt => 1
  | loc_Inexact Eq => 2
  | loc_Inexact Gt => 3
  end.

(** The quotient of two values, the divisor positive, as a value: the
    sticky quotient at a resolution of [2^-2074] rounded on that grid. *)
Definition Rdiv (A B : Z) : Z :=
  R 1000 (if A <? 0 then - sticky (- A * 2 ^ 2072) B
          else sticky (A * 2 ^ 2072) B).

End Quotient.

Import Quotient.

(** * Binary64 arithmetic: rounding is monotone

    From the definitions of [SpecFloat]: what [binary_round_aux] computes,
    the value of a product, a sum and a difference, and the order of
    numbers as the order of their values. *)

Section Binary64Facts.

Local Open Scope Z_scope.

Lemma pow2_pos (k : Z) : 0 <= k -> 0 < 2 ^ k.
Proof. intros; apply Z.pow_pos_nonneg; lia. Qed.

Lemma RNE_cases (X k : Z) : 0 <= k ->
  let q := X / 2 ^ k in
  (RNE X k = q /\ 2 * (X mod 2 ^ k) <= 2 ^ k) \/
  (RNE X k = q + 1 /\ 2 ^ k <= 2 * (X mod 2 ^ k)).
Proof.
  intros Hk q. unfold RNE. fold q.
  destruct (Z.compare_spec (2 * (X mod 2 ^ k)) (2 ^ k)) as [H|H|H].
  - destruct (Z.even q); [left|right]; lia.
  - left; lia.
  - right; lia.
Qed.

Lemma RNE_mono (X Y k : Z) : 0 <= k -> X <= Y -> RNE X k <= RNE Y k.
Proof.
  intros Hk HXY.
  pose proof (pow2_pos k Hk) as Hp.
  pose proof (Z.div_le_mono X Y (2 ^ k) Hp HXY) as Hq.
  pose proof (Z.div_mod X (2 ^ k) ltac:(lia)) as HX.
  pose proof (Z.div_mod Y (2 ^ k) ltac:(lia)) as HY.
  pose proof (Z.mod_pos_bound X (2 ^ k) Hp) as BX.
  pose proof (Z.mod_pos_bound Y (2 ^ k) Hp) as BY.
  destruct (Z.eq_dec (X / 2 ^ k) (Y / 2 ^ k)) as [E|NE].
  - assert (Hr : X mod 2 ^ k <= Y mod 2 ^ k) by (rewrite E in HX; lia).
    unfold RNE. rewrite E.
    destruct (Z.compare_spec (2 * (X mod 2 ^ k)) (2 ^ k));
      destruct (Z.compare_spec (2 * (Y mod 2 ^ k)) (2 ^ k));
      destruct (Z.even (Y / 2 ^ k)); lia.
  - destruct (RNE_cases X k Hk) as [[-> _]|[-> _]];
      destruct (RNE_cases Y k Hk) as [[-> _]|[-> _]]; lia.
Qed.

Lemma RNE_exact (M k : Z) : 0 <= k -> RNE (M * 2 ^ k) k = M.
Proof.
  intros Hk. pose proof (pow2_pos k Hk) as Hp. unfold RNE.
  rewrite Z.mod_mul, Z.div_mul by lia.
  destruct (Z.compare_spec (2 * 0) (2 ^ k)); lia.
Qed.

Lemma RNE_0 (X : Z) : RNE X 0 = X.
Proof. pose proof (RNE_exact X 0 (Z.le_refl 0)) as H. now rewrite Z.pow_0_r, Z.mul_1_r in H. Qed.

Lemma RNE_error (X k : Z) : 0 <= k ->
  2 * X - 2 ^ k <= 2 * (RNE X k * 2 ^ k) <= 2 * X + 2 ^ k.
Proof.
  intros Hk. pose proof (pow2_pos k Hk) as Hp.
  pose proof (Z.div_mod X (2 ^ k) ltac:(lia)) as HX.
  pose proof (Z.mod_pos_bound X (2 ^ k) Hp) as BX.
  destruct (RNE_cases X k Hk) as [[-> H]|[-> H]]; nia.
Qed.

Lemma RNE_scale (X k j : Z) : 0 <= k -> 0 <= j ->
  RNE (X * 2 ^ j) (k + j) = RNE X k.
Proof.
  intros Hk Hj. pose proof (pow2_pos k Hk) as Hp. pose proof (pow2_pos j Hj) as Hpj.
  unfold RNE. rewrite Z.pow_add_r by lia.
  rewrite Z.div_mul_cancel_r by lia.
  replace (2 ^ k * 2 ^ j) with (2 ^ j * 2 ^ k) by lia.
  rewrite (Z.mul_comm X), Z.mul_mod_distr_l by lia.
  replace (2 * (2 ^ j * (X mod 2 ^ k)) ?= 2 ^ j * 2 ^ k)
    with (2 * (X mod 2 ^ k) ?= 2 ^ k); [reflexivity|].
  destruct (Z.compare_spec (2 * (X mod 2 ^ k)) (2 ^ k));
    destruct (Z.compare_spec (2 * (2 ^ j * (X mod 2 ^ k))) (2 ^ j * 2 ^ k));
    try reflexivity; nia.
Qed.

Lemma RNE_nonneg (X k : Z) : 0 <= k -> 0 <= X -> 0 <= RNE X k.
Proof.
  intros Hk HX. pose proof (pow2_pos k Hk) as Hp.
  pose proof (Z.div_pos X (2 ^ k) HX Hp).
  destruct (RNE_cases X k Hk) as [[-> _]|[-> _]]; lia.
Qed.

(** upper bound by an integer multiple *)
Lemma RNE_le_of_le (X k B : Z) : 0 <= k -> X <= B * 2 ^ k -> RNE X k <= B.
Proof.
  intros Hk H. rewrite <- (RNE_exact B k Hk). now apply RNE_mono.
Qed.

Lemma RNE_ge_of_ge (X k B : Z) : 0 <= k -> B * 2 ^ k <= X -> B <= RNE X k.
Proof.
  intros Hk H. rewrite <- (RNE_exact B k Hk). now apply RNE_mono.
Qed.

Lemma digits_bounds (m : positive) :
  2 ^ (digits m - 1) <= Z.pos m < 2 ^ digits m.
Proof.
  unfold digits. induction m as [m IH|m IH|]; simpl digits2_pos.
  - rewrite Pos2Z.inj_succ.
    replace (Z.succ (Z.pos (digits2_pos m)) - 1) with (Z.succ (Z.pos (digits2_pos m) - 1)) by lia.
    rewrite !Z.pow_succ_r by lia. lia.
  - rewrite Pos2Z.inj_succ.
    replace (Z.succ (Z.pos (digits2_pos m)) - 1) with (Z.succ (Z.pos (digits2_pos m) - 1)) by lia.
    rewrite !Z.pow_succ_r by lia. lia.
  - simpl. lia.
Qed.

Lemma digits_pos (m : positive) : 1 <= digits m.
Proof. unfold digits. lia. Qed.

Lemma digits_unique (m : positive) (a : Z) :
  2 ^ (a - 1) <= Z.pos m < 2 ^ a -> digits m = a.
Proof.
  intros [H1 H2]. pose proof (digits_bounds m) as [B1 B2].
  pose proof (digits_pos m).
  assert (0 < a).
  { destruct (Z.lt_trichotomy a 0) as [Ha|[->|Ha]]; [|simpl in H2; lia|lia].
    rewrite Z.pow_neg_r in H2; lia. }
  destruct (Z.lt_trichotomy (digits m) a) as [L|[E|G]]; [|exact E|].
  - pose proof (Z.pow_le_mono_r 2 (digits m) (a - 1)); lia.
  - pose proof (Z.pow_le_mono_r 2 a (digits m - 1)); lia.
Qed.

Lemma iter_pos_nat {A} (f : A -> A) (p : positive) : forall x,
  iter_pos f p x = Nat.iter (Pos.to_nat p) f x.
Proof.
  induction p as [p IH|p IH|]; intros x; simpl iter_pos.
  - rewrite !IH, Pos2Nat.inj_xI.
    replace (S (2 * Pos.to_nat p)) with (Pos.to_nat p + (Pos.to_nat p + 1))%nat by lia.
    rewrite !Nat.iter_add. reflexivity.
  - rewrite !IH, Pos2Nat.inj_xO.
    replace (2 * Pos.to_nat p)%nat with (Pos.to_nat p + Pos.to_nat p)%nat by lia.
    rewrite Nat.iter_add. reflexivity.
  - reflexivity.
Qed.

Lemma shr_1_nonneg (m : Z) (r s : bool) : 0 <= m ->
  shr_1 (Build_shr_record m r s) = Build_shr_record (m / 2) (Z.odd m) (r || s).
Proof.
  intros Hm. rewrite <- Z.div2_div.
  destruct m as [|[p|p|]|p]; try reflexivity; lia.
Qed.

Lemma shr_iter (m : Z) : 0 <= m -> forall n : nat,
  Nat.iter (S n) shr_1 (Build_shr_record m false false) =
  Build_shr_record (m / 2 ^ (Z.of_nat n + 1))
                   (Z.odd (m / 2 ^ Z.of_nat n))
                   (negb (m mod 2 ^ Z.of_nat n =? 0)).
Proof.
  intros Hm. induction n as [|n IH].
  - change (Nat.iter 1 shr_1 ?x) with (shr_1 x).
    rewrite shr_1_nonneg by assumption.
    change (Z.of_nat 0) with 0. rewrite Z.pow_0_r, Z.div_1_r, Z.mod_1_r.
    reflexivity.
  - change (Nat.iter (S (S n)) shr_1 ?x) with (shr_1 (Nat.iter (S n) shr_1 x)).
    rewrite IH.
    pose proof (pow2_pos (Z.of_nat n) ltac:(lia)) as Hp.
    rewrite shr_1_nonneg by (apply Z.div_pos; [lia|apply pow2_pos; lia]).
    rewrite Nat2Z.inj_succ.
    replace (Z.succ (Z.of_nat n)) with (Z.of_nat n + 1) by lia.
    set (h := 2 ^ Z.of_nat n) in *.
    assert (E2 : 2 ^ (Z.of_nat n + 1) = h * 2)
      by (unfold h; rewrite Z.pow_add_r, Z.pow_1_r; lia).
    assert (E4 : 2 ^ (Z.of_nat n + 1 + 1) = h * 2 * 2)
      by (rewrite Z.pow_add_r, E2, Z.pow_1_r; lia).
    rewrite E4, E2.
    pose proof (Z.mod_pos_bound m h Hp).
    f_equal.
    + rewrite Z.div_div by lia. reflexivity.
    + rewrite Z.rem_mul_r by lia.
      rewrite (Zmod_odd (m / h)).
      destruct (Z.odd (m / h)); simpl.
      * symmetry. apply negb_true_iff, Z.eqb_neq. lia.
      * now rewrite Z.mul_0_r, Z.add_0_r.
Qed.

Lemma shr_rne (m e n : Z) : 0 <= m -> 0 <= n ->
  forall mrs e', shr (Build_shr_record m false false) e n = (mrs, e') ->
  e' = e + n /\ shr_m mrs = m / 2 ^ n /\
  round_nearest_even (shr_m mrs) (loc_of_shr_record mrs) = RNE m n.
Proof.
  intros Hm Hn mrs e' H. unfold shr in H.
  destruct n as [|p|p]; [| |lia].
  - injection H as <- <-. simpl. rewrite Z.div_1_r, RNE_0. lia.
  - injection H as <- <-.
    rewrite iter_pos_nat.
    destruct (Pos2Nat.is_succ p) as [k Hk]. rewrite Hk.
    rewrite shr_iter by assumption.
    assert (Ep : Z.pos p = Z.of_nat k + 1) by lia.
    rewrite Ep. split; [reflexivity|]. split; [reflexivity|].
    simpl shr_m. unfold loc_of_shr_record.
    set (h := 2 ^ Z.of_nat k).
    assert (Hh : 0 < h) by (apply pow2_pos; lia).
    unfold RNE. rewrite Z.pow_add_r, Z.pow_1_r by lia. fold h.
    rewrite Z.rem_mul_r by lia.
    pose proof (Z.mod_pos_bound m h Hh) as Hlow.
    rewrite (Zmod_odd (m / h)).
    destruct (Z.odd (m / h)); destruct (Z.eqb_spec (m mod h) 0) as [E0|N0]; simpl negb; cbv iota.
    + replace (2 * (m mod h + h * 1) ?= h * 2) with Eq; [reflexivity|].
      symmetry. apply Z.compare_eq_iff. lia.
    + replace (2 * (m mod h + h * 1) ?= h * 2) with Gt; [reflexivity|].
      symmetry. apply Z.compare_gt_iff. lia.
    + replace (2 * (m mod h + h * 0) ?= h * 2) with Lt; [reflexivity|].
      symmetry. apply Z.compare_lt_iff. lia.
    + replace (2 * (m mod h + h * 0) ?= h * 2) with Lt; [reflexivity|].
      symmetry. apply Z.compare_lt_iff. lia.
Qed.

Lemma pow2_add (a b : Z) : 0 <= a -> 0 <= b -> 2 ^ (a + b) = 2 ^ a * 2 ^ b.
Proof. intros; apply Z.pow_add_r; assumption. Qed.

Lemma pow2_le (a b : Z) : 0 <= a <= b -> 2 ^ a <= 2 ^ b.
Proof. intros; apply Z.pow_le_mono_r; lia. Qed.

Lemma pow2_lt (a b : Z) : 0 <= a < b -> 2 ^ a < 2 ^ b.
Proof. intros; apply Z.pow_lt_mono_r; lia. Qed.

Lemma huge_pos : 0 < huge.
Proof. apply pow2_pos. lia. Qed.

Lemma fexp64_eq (m : positive) (e : Z) :
  fexp prec emax (Z.pos (digits2_pos m) + e) = fexp64 m e.
Proof. reflexivity. Qed.

Lemma fexp64_ge (m : positive) (e : Z) : -1074 <= fexp64 m e.
Proof. unfold fexp64. lia. Qed.

(** Bounds on the rounded mantissa. *)
Lemma rounded_mantissa_le (m : positive) (e : Z) :
  e <= fexp64 m e -> RNE (Z.pos m) (fexp64 m e - e) <= 2 ^ 53.
Proof.
  intros P. apply RNE_le_of_le; [lia|].
  pose proof (digits_bounds m) as [_ B]. pose proof (digits_pos m).
  rewrite <- pow2_add by lia.
  pose proof (pow2_le (digits m) (53 + (fexp64 m e - e))).
  unfold fexp64 in *. lia.
Qed.

Lemma rounded_mantissa_ge (m : positive) (e : Z) :
  e <= fexp64 m e -> -1074 < fexp64 m e ->
  2 ^ 52 <= RNE (Z.pos m) (fexp64 m e - e).
Proof.
  intros P N. apply RNE_ge_of_ge; [lia|].
  pose proof (digits_bounds m) as [B _]. pose proof (digits_pos m).
  rewrite <- pow2_add by lia.
  replace (52 + (fexp64 m e - e)) with (digits m - 1); [assumption|].
  unfold fexp64 in *. lia.
Qed.

Lemma bounded_intro (m : positive) (e : Z) :
  Z.max (digits m + e - 53) (-1074) = e -> e <= 971 ->
  bounded prec emax m e = true.
Proof.
  intros C B. unfold bounded, canonical_mantissa.
  apply andb_true_iff. split.
  - apply Z.eqb_eq. exact C.
  - apply Z.leb_le. exact B.
Qed.

(** A canonical pair at exponent [e]: below [2^53], and above [2^52] unless
    the exponent is the least one. *)
Lemma canonical_digits (m : positive) (e : Z) :
  -1074 <= e -> Z.pos m < 2 ^ 53 -> (-1074 < e -> 2 ^ 52 <= Z.pos m) ->
  Z.max (digits m + e - 53) (-1074) = e.
Proof.
  intros He Hlt Hge.
  pose proof (digits_bounds m) as [B1 B2]. pose proof (digits_pos m).
  assert (digits m <= 53).
  { destruct (Z_le_gt_dec (digits m) 53); [assumption|].
    pose proof (pow2_le 53 (digits m - 1)). lia. }
  destruct (Z.eq_dec e (-1074)) as [->|Ne]; [lia|].
  assert (digits m = 53).
  { apply digits_unique. split; [apply Hge; lia|assumption]. }
  lia.
Qed.

Lemma finite_vs_huge (m : positive) (e : Z) :
  -1074 <= e -> Z.pos m < 2 ^ 53 -> (-1074 < e -> 2 ^ 52 <= Z.pos m) ->
  (e <= 971 -> Z.pos m * 2 ^ (e + 1074) < huge) /\
  (971 < e -> huge <= Z.pos m * 2 ^ (e + 1074)).
Proof.
  intros He Hlt Hge. unfold huge.
  pose proof (pow2_pos (e + 1074) ltac:(lia)) as Hp.
  split; intros H.
  - pose proof (pow2_le (e + 1074) 2045 ltac:(lia)).
    replace 2098 with (53 + 2045) by lia. rewrite (pow2_add 53 2045) by lia.
    pose proof (pow2_pos 53 ltac:(lia)). pose proof (pow2_pos 2045 ltac:(lia)).
    nia.
  - pose proof (pow2_le 2046 (e + 1074) ltac:(lia)).
    replace 2098 with (52 + 2046) by lia. rewrite (pow2_add 52 2046) by lia.
    pose proof (pow2_pos 52 ltac:(lia)). pose proof (pow2_pos 2046 ltac:(lia)).
    specialize (Hge ltac:(lia)). nia.
Qed.

Lemma binary_round_aux_spec (s : bool) (m : positive) (e : Z) :
  e <= fexp64 m e ->
  let r := binary_round_aux prec emax s (Z.pos m) e loc_Exact in
  valid_binary r = true /\ signed_like s r /\
  F2Z r = if s then - Z.min (round_val m e) huge
          else Z.min (round_val m e) huge.
Proof.
  intros P.
  assert (Hsign : forall v, (if s then - Z.min v huge else Z.min v huge)
                   = if s then - Z.min v huge else Z.min v huge) by reflexivity.
  unfold binary_round_aux, shr_fexp.
  change (Zdigits2 (Z.pos m)) with (Z.pos (digits2_pos m)).
  rewrite fexp64_eq. unfold round_val.
  pose proof (fexp64_ge m e) as Hfe.
  pose proof (rounded_mantissa_le m e P) as Hle.
  pose proof (rounded_mantissa_ge m e P) as Hge.
  pose proof (RNE_nonneg (Z.pos m) (fexp64 m e - e) ltac:(lia) ltac:(lia)) as Hnn.
  set (fe := fexp64 m e) in *.
  simpl shr_record_of_loc.
  destruct (shr {| shr_m := Z.pos m; shr_r := false; shr_s := false |} e (fe - e))
    as [mrs' e'] eqn:Hshr.
  destruct (shr_rne (Z.pos m) e (fe - e) ltac:(lia) ltac:(lia) _ _ Hshr)
    as (He' & _ & Hm').
  rewrite Hm'. replace e' with fe by lia. clear Hshr Hm' He' mrs' e'.
  set (m' := RNE (Z.pos m) (fe - e)) in *.
  pose proof huge_pos as Hhuge.
  destruct m' as [|p'|p'] eqn:Em'; [| |lia].
  - (* the mantissa rounds to zero *)
    simpl Zdigits2.
    assert (Hn : fexp prec emax (0 + fe) - fe <= 0)
      by (unfold fexp, SpecFloat.emin, prec, emax; lia).
    unfold shr. destruct (fexp prec emax (0 + fe) - fe); [| lia |]; simpl;
      (split; [reflexivity|]; split; [reflexivity|]);
      rewrite Z.min_l by lia; destruct s; reflexivity.
  - change (Zdigits2 (Z.pos p')) with (digits p').
    destruct (Z.eq_dec (Z.pos p') (2 ^ 53)) as [Etop|Ntop].
    + (* the mantissa rounds up to 2^53: one more shift *)
      assert (Hd : digits p' = 54).
      { apply digits_unique. rewrite Etop. split; [lia|].
        apply pow2_lt; lia. }
      rewrite Hd.
      replace (fexp prec emax (54 + fe) - fe) with 1
        by (unfold fexp, SpecFloat.emin, prec, emax; lia).
      destruct (shr {| shr_m := Z.pos p'; shr_r := false; shr_s := false |} fe 1)
        as [mrs'' e''] eqn:Hshr.
      destruct (shr_rne (Z.pos p') fe 1 ltac:(lia) ltac:(lia) _ _ Hshr)
        as (He'' & Hm'' & _).
      rewrite Hm'', He''. rewrite Etop.
      replace (2 ^ 53 / 2 ^ 1) with (2 ^ 52) by reflexivity.
      assert (E52 : exists p'', 2 ^ 52 = Z.pos p'') by (now eexists).
      destruct E52 as [p'' E52]. rewrite E52.
      assert (Hcan : Z.max (digits p'' + (fe + 1) - 53) (-1074) = fe + 1).
      { apply canonical_digits; rewrite <- ?E52; first [lia | apply pow2_lt; lia]. }
      destruct (finite_vs_huge p'' (fe + 1)) as [Hfin Hinf];
        rewrite <- ?E52; try first [lia | apply pow2_lt; lia].
      assert (Eval : Z.pos p'' * 2 ^ (fe + 1 + 1074) = 2 ^ 53 * 2 ^ (fe + 1074)).
      { rewrite <- E52. replace (fe + 1 + 1074) with (1 + (fe + 1074)) by lia.
        rewrite pow2_add by lia. change (2 ^ 53) with (2 ^ 52 * 2 ^ 1). lia. }
      rewrite Eval in Hfin, Hinf.
      change (emax - prec) with 971.
      destruct (Z.leb_spec (fe + 1) 971) as [Hb|Hb].
      * split; [now apply bounded_intro|]. split; [reflexivity|].
        unfold F2Z. rewrite Eval. rewrite Z.min_l by lia. reflexivity.
      * split; [reflexivity|]. split; [reflexivity|].
        unfold F2Z. rewrite Z.min_r by lia. reflexivity.
    + (* the rounded mantissa fits *)
      assert (Hlt : Z.pos p' < 2 ^ 53) by lia.
      assert (Hcan : Z.max (digits p' + fe - 53) (-1074) = fe).
      { apply canonical_digits; try lia. }
      replace (fexp prec emax (digits p' + fe) - fe) with 0
        by (unfold fexp, SpecFloat.emin, prec, emax; lia).
      simpl shr. simpl shr_m.
      destruct (finite_vs_huge p' fe) as [Hfin Hinf]; try lia.
      change (emax - prec) with 971.
      destruct (Z.leb_spec fe 971) as [Hb|Hb].
      * split; [now apply bounded_intro|]. split; [reflexivity|].
        unfold F2Z. rewrite Z.min_l by lia. reflexivity.
      * split; [reflexivity|]. split; [reflexivity|].
        unfold F2Z. rewrite Z.min_r by lia. reflexivity.
Qed.

Lemma digits_log2 (m : positive) : digits m = Z.log2 (Z.pos m) + 1.
Proof.
  pose proof (digits_bounds m) as [B1 B2]. pose proof (digits_pos m).
  assert (Z.log2 (Z.pos m) = digits m - 1); [|lia].
  apply Z.log2_unique; [lia|].
  replace (Z.succ (digits m - 1)) with (digits m) by lia. lia.
Qed.

Lemma log2_shift (m : positive) (j : Z) : 0 <= j ->
  Z.log2 (Z.pos m * 2 ^ j) + 1 = digits m + j.
Proof.
  intros Hj. rewrite Z.log2_mul_pow2 by lia. rewrite digits_log2. lia.
Qed.

Lemma round_val_grid (m : positive) (e g j : Z) :
  0 <= g -> 0 <= j -> j - g = e + 1074 -> e <= fexp64 m e ->
  round_val m e = Rpos g (Z.pos m * 2 ^ j).
Proof.
  intros Hg Hj E P. unfold round_val, Rpos.
  rewrite log2_shift by assumption.
  assert (Ek : Z.max (digits m + j - 53) g = (fexp64 m e - e) + j)
    by (unfold fexp64 in *; lia).
  rewrite Ek, RNE_scale by lia.
  f_equal. f_equal. lia.
Qed.

Lemma Rpos_nonneg (g X : Z) : 0 <= g -> 0 < X -> 0 <= Rpos g X.
Proof.
  intros Hg HX. unfold Rpos.
  pose proof (Z.log2_nonneg X).
  set (k := Z.max _ g).
  pose proof (RNE_nonneg X k ltac:(lia) ltac:(lia)).
  pose proof (pow2_pos (k - g) ltac:(lia)). nia.
Qed.

Lemma Rpos_mono (g X Y : Z) : 0 <= g -> 0 < X -> X <= Y ->
  Rpos g X <= Rpos g Y.
Proof.
  intros Hg HX HXY. unfold Rpos.
  pose proof (Z.log2_le_mono X Y HXY) as Hlog.
  pose proof (Z.log2_nonneg X) as HlX.
  pose proof (Z.log2_spec X HX) as [_ BX].
  pose proof (Z.log2_spec Y ltac:(lia)) as [BY _].
  set (kX := Z.max (Z.log2 X + 1 - 53) g).
  set (kY := Z.max (Z.log2 Y + 1 - 53) g).
  destruct (Z.eq_dec kX kY) as [E|NE].
  - rewrite E.
    pose proof (RNE_mono X Y kY ltac:(lia) HXY).
    pose proof (pow2_pos (kY - g) ltac:(lia)). nia.
  - assert (HkY : kY = Z.log2 Y - 52) by lia.
    assert (Hlt : Z.log2 X < Z.log2 Y) by lia.
    set (a := Z.log2 Y) in *.
    assert (H1 : RNE X kX <= 2 ^ (a - kX)).
    { apply RNE_le_of_le; [lia|]. rewrite <- pow2_add by lia.
      replace (a - kX + kX) with a by lia.
      pose proof (pow2_le (Z.succ (Z.log2 X)) a ltac:(lia)). lia. }
    assert (H2 : 2 ^ (a - kY) <= RNE Y kY).
    { apply RNE_ge_of_ge; [lia|]. rewrite <- pow2_add by lia.
      replace (a - kY + kY) with a by lia. assumption. }
    pose proof (pow2_pos (kX - g) ltac:(lia)).
    pose proof (pow2_pos (kY - g) ltac:(lia)).
    apply Z.le_trans with (2 ^ (a - g)).
    + replace (a - g) with ((a - kX) + (kX - g)) by lia.
      rewrite pow2_add by lia. nia.
    + replace (a - g) with ((a - kY) + (kY - g)) by lia.
      rewrite pow2_add by lia. nia.
Qed.

Lemma R_pos (g X : Z) : 0 < X -> R g X = Z.min (Rpos g X) huge.
Proof. intros H. unfold R. destruct (Z.ltb_spec 0 X); [reflexivity|lia]. Qed.

Lemma R_neg (g X : Z) : X < 0 -> R g X = - Z.min (Rpos g (- X)) huge.
Proof.
  intros H. unfold R. destruct (Z.ltb_spec 0 X); [lia|].
  destruct (Z.ltb_spec X 0); [reflexivity|lia].
Qed.

Lemma R_0 (g : Z) : R g 0 = 0.
Proof. reflexivity. Qed.

Lemma R_opp (g X : Z) : R g (- X) = - R g X.
Proof.
  destruct (Z.lt_trichotomy X 0) as [H|[->|H]].
  - rewrite (R_neg g X H), R_pos by lia. lia.
  - reflexivity.
  - rewrite (R_pos g X H), R_neg by lia. now rewrite Z.opp_involutive.
Qed.

Lemma R_mono (g X Y : Z) : 0 <= g -> X <= Y -> R g X <= R g Y.
Proof.
  intros Hg H. pose proof huge_pos.
  destruct (Z.lt_trichotomy X 0) as [HX|[->|HX]];
  destruct (Z.lt_trichotomy Y 0) as [HY|[->|HY]]; try lia;
  rewrite ?R_0, ?(R_neg g X), ?(R_neg g Y), ?(R_pos g X), ?(R_pos g Y) by lia.
  - pose proof (Rpos_mono g (- Y) (- X) Hg ltac:(lia) ltac:(lia)). lia.
  - pose proof (Rpos_nonneg g (- X) Hg ltac:(lia)). lia.
  - pose proof (Rpos_nonneg g (- X) Hg ltac:(lia)).
    pose proof (Rpos_nonneg g Y Hg ltac:(lia)). lia.
  - pose proof (Rpos_nonneg g Y Hg ltac:(lia)). lia.
  - pose proof (Rpos_mono g X Y Hg ltac:(lia) H). lia.
Qed.

Lemma R_bounds (g X : Z) : 0 <= g -> - huge <= R g X <= huge.
Proof.
  intros Hg. pose proof huge_pos.
  destruct (Z.lt_trichotomy X 0) as [HX|[->|HX]];
    rewrite ?R_0, ?(R_neg g X), ?(R_pos g X) by lia; [|lia|].
  - pose proof (Rpos_nonneg g (- X) Hg ltac:(lia)). lia.
  - pose proof (Rpos_nonneg g X Hg ltac:(lia)). lia.
Qed.

Lemma R_nonneg (g X : Z) : 0 <= g -> 0 <= X -> 0 <= R g X.
Proof. intros Hg HX. rewrite <- (R_0 g). now apply R_mono. Qed.

Lemma valid_finite_inv (s : bool) (m : positive) (e : Z) :
  valid_binary (S754_finite s m e) = true ->
  fexp64 m e = e /\ -1074 <= e <= 971 /\ Z.pos m < 2 ^ 53 /\
  (-1074 < e -> 2 ^ 52 <= Z.pos m).
Proof.
  unfold valid_binary, bounded, canonical_mantissa. rewrite fexp64_eq.
  intros H. apply andb_true_iff in H. destruct H as [C B].
  apply Z.eqb_eq in C. apply Z.leb_le in B. change (emax - prec) with 971 in B.
  pose proof (digits_bounds m) as [B1 B2]. pose proof (digits_pos m).
  unfold fexp64 in *.
  repeat split; try lia.
  - pose proof (pow2_le (digits m) 53 ltac:(lia)). lia.
  - intros He. replace 52 with (digits m - 1) by lia. assumption.
Qed.

Lemma signed_like_not_nan (s : bool) (x : spec_float) :
  signed_like s x -> SF_nan x = false.
Proof. destruct x; simpl; tauto. Qed.

Lemma F2Z_finite (s : bool) (m : positive) (e : Z) :
  F2Z (S754_finite s m e) = signed s (Z.pos m * 2 ^ (e + 1074)).
Proof. reflexivity. Qed.

Lemma R_signed (g : Z) (s : bool) (X : Z) : 0 < X ->
  (if s then - Z.min (Rpos g X) huge else Z.min (Rpos g X) huge)
  = R g (signed s X).
Proof.
  intros H. destruct s; simpl.
  - rewrite R_neg by lia. now rewrite Z.opp_involutive.
  - now rewrite R_pos.
Qed.

Lemma shl_align_spec (m : positive) (e e' : Z) :
  let '(m', e'') := shl_align m e e' in
  Z.pos m' * 2 ^ (e'' - Z.min e e') = Z.pos m * 2 ^ (e - Z.min e e') /\
  e'' = Z.min e e'.
Proof.
  unfold shl_align. destruct (e' - e) as [|d|d] eqn:E.
  - split; [reflexivity|lia].
  - split; [reflexivity|lia].
  - change (Pos.iter xO m d) with (shift_pos d m).
    rewrite shift_pos_correct, Z.pow_pos_fold.
    replace (e' - Z.min e e') with 0 by lia.
    replace (e - Z.min e e') with (Z.pos d) by lia.
    rewrite Z.pow_0_r. split; lia.
Qed.

Lemma shl_align_digits (m m' : positive) (d : Z) : 0 <= d ->
  Z.pos m' = Z.pos m * 2 ^ d -> digits m' = digits m + d.
Proof.
  intros Hd E. rewrite (digits_log2 m'), E, log2_shift by assumption. lia.
Qed.

Lemma binary_round_spec (s : bool) (m : positive) (e : Z) :
  -1074 <= e ->
  let r := binary_round prec emax s m e in
  valid_binary r = true /\ signed_like s r /\
  F2Z r = R 0 (signed s (Z.pos m * 2 ^ (e + 1074))).
Proof.
  intros He. unfold binary_round. rewrite fexp64_eq.
  pose proof (shl_align_spec m e (fexp64 m e)) as Hsh.
  destruct (shl_align m e (fexp64 m e)) as [mz ez].
  destruct Hsh as [Hv ->].
  pose proof (fexp64_ge m e) as Hfe.
  set (ez := Z.min e (fexp64 m e)) in *.
  assert (Hd : digits mz = digits m + (e - ez)).
  { apply shl_align_digits; [lia|]. rewrite Z.sub_diag, Z.pow_0_r in Hv. lia. }
  assert (Hfz : fexp64 mz ez = fexp64 m e) by (unfold fexp64; rewrite Hd; f_equal; lia).
  assert (P : ez <= fexp64 mz ez) by lia.
  destruct (binary_round_aux_spec s mz ez P) as (V & Sg & F).
  split; [exact V|]. split; [exact Sg|].
  rewrite F.
  rewrite (round_val_grid mz ez 0 (ez + 1074)) by lia.
  assert (Eq : Z.pos mz * 2 ^ (ez + 1074) = Z.pos m * 2 ^ (e + 1074)).
  { rewrite Z.sub_diag, Z.pow_0_r, Z.mul_1_r in Hv. rewrite Hv.
    replace (e + 1074) with ((e - ez) + (ez + 1074)) by lia.
    rewrite (pow2_add (e - ez) (ez + 1074)) by lia. lia. }
  rewrite Eq. apply R_signed.
  pose proof (pow2_pos (e + 1074) ltac:(lia)). lia.
Qed.

Lemma signed_mul (s : bool) (v w : Z) : signed s v * w = signed s (v * w).
Proof. destruct s; simpl; lia. Qed.

Lemma signed_xorb (s t : bool) (v w : Z) :
  signed s v * signed t w = signed (xorb s t) (v * w).
Proof. destruct s, t; simpl; lia. Qed.

Lemma round_val_canonical (m : positive) (e : Z) :
  fexp64 m e = e -> round_val m e = Z.pos m * 2 ^ (e + 1074).
Proof. intros C. unfold round_val. now rewrite C, Z.sub_diag, RNE_0. Qed.

(** A representable value is rounded to itself, on every grid. *)
Lemma R_exact (x : spec_float) (g : Z) :
  valid_binary x = true -> SF_finite x = true -> 0 <= g ->
  R g (F2Z x * 2 ^ g) = F2Z x.
Proof.
  intros V Fin Hg. destruct x as [s|s| |s m e]; try discriminate.
  - reflexivity.
  - destruct (valid_finite_inv s m e V) as (C & He & Hlt & Hge).
    rewrite F2Z_finite, signed_mul.
    pose proof (pow2_pos (e + 1074) ltac:(lia)) as Hp.
    pose proof (pow2_pos g Hg) as Hpg.
    rewrite <- R_signed by nia.
    rewrite <- Z.mul_assoc, <- pow2_add by lia.
    rewrite <- (round_val_grid m e g (e + 1074 + g)) by lia.
    rewrite (round_val_canonical m e C).
    destruct (finite_vs_huge m e) as [Hfin _]; [lia|lia|exact Hge|].
    rewrite Z.min_l by lia. reflexivity.
Qed.

Lemma R_exact_0 (x : spec_float) :
  valid_binary x = true -> SF_finite x = true -> R 0 (F2Z x) = F2Z x.
Proof.
  intros V Fin. pose proof (R_exact x 0 V Fin (Z.le_refl 0)) as H.
  now rewrite Z.pow_0_r, Z.mul_1_r in H.
Qed.

(** Magnitudes of valid numbers. *)
Lemma F2Z_finite_bounds (s : bool) (m : positive) (e : Z) :
  valid_binary (S754_finite s m e) = true ->
  0 < Z.pos m * 2 ^ (e + 1074) < huge.
Proof.
  intros V. destruct (valid_finite_inv s m e V) as (C & He & Hlt & Hge).
  destruct (finite_vs_huge m e) as [Hfin _]; [lia|lia|exact Hge|].
  pose proof (pow2_pos (e + 1074) ltac:(lia)). split; [nia|lia].
Qed.

Lemma canonical_lt (s1 s2 : bool) (m1 m2 : positive) (e1 e2 : Z) :
  valid_binary (S754_finite s1 m1 e1) = true ->
  valid_binary (S754_finite s2 m2 e2) = true ->
  e1 < e2 -> Z.pos m1 * 2 ^ (e1 + 1074) < Z.pos m2 * 2 ^ (e2 + 1074).
Proof.
  intros V1 V2 H.
  destruct (valid_finite_inv _ _ _ V1) as (_ & He1 & Hlt1 & _).
  destruct (valid_finite_inv _ _ _ V2) as (_ & He2 & _ & Hge2).
  specialize (Hge2 ltac:(lia)).
  pose proof (pow2_pos (e1 + 1074) ltac:(lia)) as Hp1.
  pose proof (pow2_le (e1 + 1074 + 1) (e2 + 1074) ltac:(lia)) as Hle.
  rewrite pow2_add in Hle by lia. change (2 ^ 1) with 2 in Hle.
  change (2 ^ 53) with (2 * 2 ^ 52) in Hlt1.
  pose proof (pow2_pos 52 ltac:(lia)).
  nia.
Qed.

Lemma SFcompare_val (x y : spec_float) :
  valid_binary x = true -> valid_binary y = true ->
  SF_nan x = false -> SF_nan y = false ->
  SFcompare x y = Some (F2Z x ?= F2Z y).
Proof.
  intros Vx Vy Nx Ny. pose proof huge_pos as Hh.
  destruct x as [sx|sx| |sx mx ex]; try discriminate;
  destruct y as [sy|sy| |sy my ey]; try discriminate;
  try pose proof (F2Z_finite_bounds _ _ _ Vx) as Bx;
  try pose proof (F2Z_finite_bounds _ _ _ Vy) as By;
  unfold SFcompare, F2Z.
  all: try (destruct sx; try destruct sy; f_equal; symmetry;
            first [apply Z.compare_eq_iff; lia | apply Z.compare_lt_iff; lia
                  | apply Z.compare_gt_iff; lia]; fail).
  all: try (destruct sy; f_equal; symmetry;
            first [apply Z.compare_eq_iff; lia | apply Z.compare_lt_iff; lia
                  | apply Z.compare_gt_iff; lia]; fail).
  - assert (Hcmp : (Z.pos mx * 2 ^ (ex + 1074) ?= Z.pos my * 2 ^ (ey + 1074))
                   = match ex ?= ey with
                     | Lt => Lt
                     | Gt => Gt
                     | Eq => Pos.compare_cont Eq mx my
                     end).
    { destruct (Z.compare_spec ex ey) as [E|L|G].
      - subst ey. change (Pos.compare_cont Eq mx my) with (Z.pos mx ?= Z.pos my).
        destruct (valid_finite_inv _ _ _ Vx) as (_ & He & _).
        pose proof (pow2_pos (ex + 1074) ltac:(lia)).
        destruct (Z.compare_spec (Z.pos mx) (Z.pos my)) as [E|L|G].
        + rewrite E. apply Z.compare_refl.
        + apply Z.compare_lt_iff. nia.
        + apply Z.compare_gt_iff. nia.
      - apply Z.compare_lt_iff. now apply (canonical_lt sx sy).
      - apply Z.compare_gt_iff. now apply (canonical_lt sy sx). }
    destruct sx, sy; f_equal.
    + rewrite Z.compare_opp.
      rewrite (Z.compare_antisym (Z.pos mx * 2 ^ (ex + 1074))), Hcmp.
      destruct (ex ?= ey); reflexivity.
    + symmetry. apply Z.compare_lt_iff. lia.
    + symmetry. apply Z.compare_gt_iff. lia.
    + symmetry. exact Hcmp.
Qed.

Lemma digits_mul_ge (m1 m2 : positive) :
  digits m1 + digits m2 - 1 <= digits (m1 * m2).
Proof.
  pose proof (digits_bounds m1) as [L1 _].
  pose proof (digits_bounds m2) as [L2 _].
  pose proof (digits_bounds (m1 * m2)) as [_ U].
  pose proof (digits_pos m1). pose proof (digits_pos m2).
  pose proof (digits_pos (m1 * m2)).
  rewrite Pos2Z.inj_mul in U.
  destruct (Z_lt_le_dec (digits (m1 * m2)) (digits m1 + digits m2 - 1)) as [H'|H']; [|lia].
  pose proof (pow2_le (digits (m1 * m2)) ((digits m1 - 1) + (digits m2 - 1)) ltac:(lia)) as Hle.
  rewrite pow2_add in Hle by lia.
  pose proof (pow2_pos (digits m1 - 1) ltac:(lia)).
  pose proof (pow2_pos (digits m2 - 1) ltac:(lia)).
  nia.
Qed.

Lemma SFmul_val (x y : spec_float) :
  valid_binary x = true -> valid_binary y = true ->
  SF_finite x = true -> SF_finite y = true ->
  let r := SFmul prec emax x y in
  valid_binary r = true /\ SF_nan r = false /\
  F2Z r = R 1074 (F2Z x * F2Z y).
Proof.
  intros Vx Vy Fx Fy.
  destruct x as [sx|sx| |sx mx ex]; try discriminate;
  destruct y as [sy|sy| |sy my ey]; try discriminate;
  try (simpl; rewrite ?Z.mul_0_r; repeat split; reflexivity).
  unfold SFmul.
  destruct (valid_finite_inv _ _ _ Vx) as (Cx & Hex & Hltx & Hgex).
  destruct (valid_finite_inv _ _ _ Vy) as (Cy & Hey & Hlty & Hgey).
  assert (P : ex + ey <= fexp64 (mx * my) (ex + ey)).
  { pose proof (digits_mul_ge mx my). pose proof (digits_pos mx).
    pose proof (digits_pos my). unfold fexp64 in *. lia. }
  destruct (binary_round_aux_spec (xorb sx sy) (mx * my) (ex + ey) P) as (V & Sg & F).
  split; [exact V|]. split; [exact (signed_like_not_nan _ _ Sg)|].
  rewrite F.
  rewrite (round_val_grid (mx * my) (ex + ey) 1074 (ex + ey + 2148)) by lia.
  pose proof (pow2_pos (ex + 1074) ltac:(lia)).
  pose proof (pow2_pos (ey + 1074) ltac:(lia)).
  pose proof (pow2_pos (ex + ey + 2148) ltac:(lia)).
  rewrite R_signed by lia.
  f_equal. rewrite !F2Z_finite, signed_xorb. f_equal.
  rewrite Pos2Z.inj_mul.
  replace (ex + ey + 2148) with ((ex + 1074) + (ey + 1074)) by lia.
  rewrite pow2_add by lia. lia.
Qed.

Lemma binary_normalize_val (S e : Z) (sz : bool) :
  -1074 <= e ->
  let r := binary_normalize prec emax S e sz in
  valid_binary r = true /\ SF_nan r = false /\
  F2Z r = R 0 (S * 2 ^ (e + 1074)).
Proof.
  intros He. destruct S as [|p|p]; simpl binary_normalize.
  - repeat split.
  - destruct (binary_round_spec false p e He) as (V & Sg & F).
    split; [exact V|]. split; [exact (signed_like_not_nan _ _ Sg)|exact F].
  - destruct (binary_round_spec true p e He) as (V & Sg & F).
    split; [exact V|]. split; [exact (signed_like_not_nan _ _ Sg)|].
    rewrite F. f_equal. unfold signed. lia.
Qed.

Lemma shl_align_fst (m : positive) (e ez : Z) : ez <= e ->
  Z.pos (fst (shl_align m e ez)) = Z.pos m * 2 ^ (e - ez).
Proof.
  intros H. pose proof (shl_align_spec m e ez) as S.
  destruct (shl_align m e ez) as [m' e']. simpl fst.
  destruct S as [S ->]. rewrite Z.min_r in S by lia.
  rewrite Z.sub_diag, Z.pow_0_r in S. lia.
Qed.

Lemma cond_Zopp_signed (s : bool) (v : Z) : cond_Zopp s v = signed s v.
Proof. reflexivity. Qed.

Lemma aligned_value (s : bool) (m : positive) (e ez : Z) :
  -1074 <= ez <= e ->
  signed s (Z.pos (fst (shl_align m e ez))) * 2 ^ (ez + 1074)
  = F2Z (S754_finite s m e).
Proof.
  intros H. rewrite shl_align_fst by lia. rewrite F2Z_finite, signed_mul.
  f_equal. replace (e + 1074) with ((e - ez) + (ez + 1074)) by lia.
  rewrite (pow2_add (e - ez)) by lia. lia.
Qed.

Lemma SFadd_val (x y : spec_float) :
  valid_binary x = true -> valid_binary y = true ->
  SF_finite x = true -> SF_finite y = true ->
  let r := SFadd prec emax x y in
  valid_binary r = true /\ SF_nan r = false /\
  F2Z r = R 0 (F2Z x + F2Z y).
Proof.
  intros Vx Vy Fx Fy.
  destruct x as [sx|sx| |sx mx ex]; try discriminate;
  destruct y as [sy|sy| |sy my ey]; try discriminate.
  - destruct sx, sy; repeat split.
  - split; [exact Vy|]. split; [reflexivity|].
    simpl SFadd. change (F2Z (S754_zero sx)) with 0. rewrite Z.add_0_l.
    now rewrite R_exact_0.
  - split; [exact Vx|]. split; [reflexivity|].
    simpl SFadd. change (F2Z (S754_zero sy)) with 0. rewrite Z.add_0_r.
    now rewrite R_exact_0.
  - destruct (valid_finite_inv _ _ _ Vx) as (_ & Hex & _).
    destruct (valid_finite_inv _ _ _ Vy) as (_ & Hey & _).
    unfold SFadd.
    set (ez := Z.min ex ey).
    destruct (binary_normalize_val
                (cond_Zopp sx (Z.pos (fst (shl_align mx ex ez)))
                 + cond_Zopp sy (Z.pos (fst (shl_align my ey ez)))) ez false
                ltac:(lia)) as (V & N & F).
    split; [exact V|]. split; [exact N|]. rewrite F. f_equal.
    rewrite !cond_Zopp_signed, Z.mul_add_distr_r.
    rewrite !aligned_value by lia. reflexivity.
Qed.

Lemma SFsub_val (x y : spec_float) :
  valid_binary x = true -> valid_binary y = true ->
  SF_finite x = true -> SF_finite y = true ->
  let r := SFsub prec emax x y in
  valid_binary r = true /\ SF_nan r = false /\
  F2Z r = R 0 (F2Z x - F2Z y).
Proof.
  intros Vx Vy Fx Fy.
  destruct x as [sx|sx| |sx mx ex]; try discriminate;
  destruct y as [sy|sy| |sy my ey]; try discriminate.
  - destruct sx, sy; repeat split.
  - split; [exact Vy|]. split; [reflexivity|].
    simpl SFsub. change (F2Z (S754_zero sx)) with 0. rewrite Z.sub_0_l.
    rewrite R_opp, R_exact_0 by assumption.
    rewrite !F2Z_finite. destruct sy; unfold signed, negb; lia.
  - split; [exact Vx|]. split; [reflexivity|].
    simpl SFsub. change (F2Z (S754_zero sy)) with 0. rewrite Z.sub_0_r.
    now rewrite R_exact_0.
  - destruct (valid_finite_inv _ _ _ Vx) as (_ & Hex & _).
    destruct (valid_finite_inv _ _ _ Vy) as (_ & Hey & _).
    unfold SFsub.
    set (ez := Z.min ex ey).
    destruct (binary_normalize_val
                (cond_Zopp sx (Z.pos (fst (shl_align mx ex ez)))
                 - cond_Zopp sy (Z.pos (fst (shl_align my ey ez)))) ez false
                ltac:(lia)) as (V & N & F).
    split; [exact V|]. split; [exact N|]. rewrite F. f_equal.
    rewrite !cond_Zopp_signed, Z.mul_sub_distr_r.
    rewrite !aligned_value by lia. reflexivity.
Qed.

Lemma finite_is_number (x : float) : finite x = true -> is_number x = true.
Proof. unfold finite, is_number. destruct (Prim2SF x); simpl; congruence. Qed.

Lemma val_bounds (x : float) : - huge <= val x <= huge.
Proof.
  unfold val. pose proof huge_pos. pose proof (Prim2SF_valid x) as V.
  destruct (Prim2SF x) as [s|s| |s m e]; unfold F2Z; try lia.
  - destruct s; lia.
  - pose proof (F2Z_finite_bounds s m e V). destruct s; lia.
Qed.

Lemma finite_val_bounds (x : float) : finite x = true -> - huge < val x < huge.
Proof.
  unfold val, finite. pose proof huge_pos. pose proof (Prim2SF_valid x) as V.
  destruct (Prim2SF x) as [s|s| |s m e]; unfold F2Z; try discriminate; intros _.
  - lia.
  - pose proof (F2Z_finite_bounds s m e V). destruct s; lia.
Qed.

Lemma finite_of_val (x : float) :
  is_number x = true -> - huge < val x < huge -> finite x = true.
Proof.
  unfold val, finite, is_number.
  destruct (Prim2SF x) as [s|s| |s m e]; unfold F2Z; simpl; try congruence.
  destruct s; lia.
Qed.

Lemma leb_val (a b : float) :
  is_number a = true -> is_number b = true ->
  (a <=? b)%float = (val a <=? val b).
Proof.
  unfold is_number, val. intros Na Nb.
  apply negb_true_iff in Na, Nb.
  rewrite leb_spec. unfold SFleb.
  rewrite SFcompare_val by (auto using Prim2SF_valid).
  unfold Z.leb. destruct (_ ?= _); reflexivity.
Qed.

Lemma ltb_val (a b : float) :
  is_number a = true -> is_number b = true ->
  (a <? b)%float = (val a <? val b).
Proof.
  unfold is_number, val. intros Na Nb.
  apply negb_true_iff in Na, Nb.
  rewrite ltb_spec. unfold SFltb.
  rewrite SFcompare_val by (auto using Prim2SF_valid).
  unfold Z.ltb. destruct (_ ?= _); reflexivity.
Qed.

Lemma leb_numbers (a b : float) :
  (a <=? b)%float = true -> is_number a = true /\ is_number b = true.
Proof.
  rewrite leb_spec. unfold SFleb, is_number.
  destruct (Prim2SF a), (Prim2SF b); simpl; try discriminate; auto.
Qed.

Lemma ltb_numbers (a b : float) :
  (a <? b)%float = true -> is_number a = true /\ is_number b = true.
Proof.
  rewrite ltb_spec. unfold SFltb, is_number.
  destruct (Prim2SF a), (Prim2SF b); simpl; try discriminate; auto.
Qed.

Lemma leb_le (a b : float) :
  (a <=? b)%float = true <->
  is_number a = true /\ is_number b = true /\ val a <= val b.
Proof.
  split.
  - intros H. destruct (leb_numbers a b H) as [Na Nb].
    rewrite (leb_val a b Na Nb) in H. apply Z.leb_le in H. auto.
  - intros (Na & Nb & H). rewrite (leb_val a b Na Nb). now apply Z.leb_le.
Qed.

Lemma ltb_lt (a b : float) :
  (a <? b)%float = true <->
  is_number a = true /\ is_number b = true /\ val a < val b.
Proof.
  split.
  - intros H. destruct (ltb_numbers a b H) as [Na Nb].
    rewrite (ltb_val a b Na Nb) in H. apply Z.ltb_lt in H. auto.
  - intros (Na & Nb & H). rewrite (ltb_val a b Na Nb). now apply Z.ltb_lt.
Qed.

Lemma finite_between (lo x hi : float) :
  finite lo = true -> finite hi = true ->
  (lo <=? x)%float = true -> (x <=? hi)%float = true -> finite x = true.
Proof.
  intros Flo Fhi H1 H2.
  apply leb_le in H1, H2. destruct H1 as (_ & Nx & L), H2 as (_ & _ & U).
  pose proof (finite_val_bounds lo Flo). pose proof (finite_val_bounds hi Fhi).
  apply finite_of_val; [assumption|lia].
Qed.

Lemma mul_val (a b : float) : finite a = true -> finite b = true ->
  is_number (a * b) = true /\ val (a * b) = R 1074 (val a * val b).
Proof.
  unfold finite, is_number, val. intros Fa Fb. rewrite mul_spec.
  destruct (SFmul_val (Prim2SF a) (Prim2SF b)) as (V & N & F);
    auto using Prim2SF_valid.
  unfold SF64mul. rewrite N. split; [reflexivity|exact F].
Qed.

Lemma add_val (a b : float) : finite a = true -> finite b = true ->
  is_number (a + b) = true /\ val (a + b) = R 0 (val a + val b).
Proof.
  unfold finite, is_number, val. intros Fa Fb. rewrite add_spec.
  destruct (SFadd_val (Prim2SF a) (Prim2SF b)) as (V & N & F);
    auto using Prim2SF_valid.
  unfold SF64add. rewrite N. split; [reflexivity|exact F].
Qed.

Lemma sub_val (a b : float) : finite a = true -> finite b = true ->
  is_number (a - b) = true /\ val (a - b) = R 0 (val a - val b).
Proof.
  unfold finite, is_number, val. intros Fa Fb. rewrite sub_spec.
  destruct (SFsub_val (Prim2SF a) (Prim2SF b)) as (V & N & F);
    auto using Prim2SF_valid.
  unfold SF64sub. rewrite N. split; [reflexivity|exact F].
Qed.

(** Monotonicity of the three operations, on finite arguments. *)
Lemma mul_mono_l (a b c : float) :
  finite a = true -> finite b = true -> finite c = true ->
  (0 <=? c)%float = true -> (a <=? b)%float = true ->
  (a * c <=? b * c)%float = true.
Proof.
  intros Fa Fb Fc Hc Hab.
  destruct (mul_val a c Fa Fc) as [N1 V1].
  destruct (mul_val b c Fb Fc) as [N2 V2].
  apply leb_le in Hc, Hab. destruct Hc as (_ & _ & Hc), Hab as (_ & _ & Hab).
  change (val 0) with 0 in Hc.
  apply leb_le. repeat split; try assumption.
  rewrite V1, V2. apply R_mono; [lia|nia].
Qed.

Lemma mul_mono_r (a b c : float) :
  finite a = true -> finite b = true -> finite c = true ->
  (0 <=? c)%float = true -> (a <=? b)%float = true ->
  (c * a <=? c * b)%float = true.
Proof.
  intros Fa Fb Fc Hc Hab.
  destruct (mul_val c a Fc Fa) as [N1 V1].
  destruct (mul_val c b Fc Fb) as [N2 V2].
  apply leb_le in Hc, Hab. destruct Hc as (_ & _ & Hc), Hab as (_ & _ & Hab).
  change (val 0) with 0 in Hc.
  apply leb_le. repeat split; try assumption.
  rewrite V1, V2. apply R_mono; [lia|nia].
Qed.

Lemma sub_mono_l (a b c : float) :
  finite a = true -> finite b = true -> finite c = true ->
  (a <=? b)%float = true -> (a - c <=? b - c)%float = true.
Proof.
  intros Fa Fb Fc Hab.
  destruct (sub_val a c Fa Fc) as [N1 V1].
  destruct (sub_val b c Fb Fc) as [N2 V2].
  apply leb_le in Hab. destruct Hab as (_ & _ & Hab).
  apply leb_le. repeat split; try assumption.
  rewrite V1, V2. apply R_mono; lia.
Qed.

Lemma add_mono_r (a b c : float) :
  finite a = true -> finite b = true -> finite c = true ->
  (a <=? b)%float = true -> (c + a <=? c + b)%float = true.
Proof.
  intros Fa Fb Fc Hab.
  destruct (add_val c a Fc Fa) as [N1 V1].
  destruct (add_val c b Fc Fb) as [N2 V2].
  apply leb_le in Hab. destruct Hab as (_ & _ & Hab).
  apply leb_le. repeat split; try assumption.
  rewrite V1, V2. apply R_mono; lia.
Qed.

Lemma add_mono_l (a b c : float) :
  finite a = true -> finite b = true -> finite c = true ->
  (a <=? b)%float = true -> (a + c <=? b + c)%float = true.
Proof.
  intros Fa Fb Fc Hab.
  destruct (add_val a c Fa Fc) as [N1 V1].
  destruct (add_val b c Fb Fc) as [N2 V2].
  apply leb_le in Hab. destruct Hab as (_ & _ & Hab).
  apply leb_le. repeat split; try assumption.
  rewrite V1, V2. apply R_mono; lia.
Qed.

(** Multiplying by one changes nothing. *)
Lemma val_mul_one (a : float) : finite a = true -> val (a * 1) = val a.
Proof.
  intros Fa. destruct (mul_val a 1 Fa eq_refl) as [_ V]. rewrite V.
  change (val 1) with (2 ^ 1074).
  apply R_exact; [apply Prim2SF_valid|exact Fa|lia].
Qed.

Lemma roundZ_mono (v w : Z) : v <= w -> roundZ v <= roundZ w.
Proof.
  intros H. unfold roundZ.
  pose proof (pow2_pos 1074 ltac:(lia)). pose proof (pow2_pos 1075 ltac:(lia)).
  apply Z.mul_le_mono_nonneg_r; [lia|].
  apply Z.div_le_mono; lia.
Qed.

Lemma roundZ_integer (k : Z) : roundZ (k * 2 ^ 1074) = k * 2 ^ 1074.
Proof.
  unfold roundZ. f_equal.
  pose proof (pow2_pos 1074 ltac:(lia)) as Hp.
  replace (2 ^ 1075) with (2 ^ 1074 * 2)
    by (change 1075 with (1074 + 1); rewrite (pow2_add 1074 1) by lia; reflexivity).
  replace (2 * (k * 2 ^ 1074) + 2 ^ 1074) with (2 ^ 1074 * (2 * k + 1)) by lia.
  rewrite Z.div_mul_cancel_l by lia.
  replace (2 * k + 1) with (1 + k * 2) by lia.
  rewrite Z.div_add by lia. reflexivity.
Qed.

Lemma roundZ_scaled (n e : Z) : -1074 <= e < 0 ->
  roundZ (n * 2 ^ (e + 1074)) = (2 * n + 2 ^ (- e)) / 2 ^ (1 - e) * 2 ^ 1074.
Proof.
  intros He. unfold roundZ. f_equal.
  pose proof (pow2_pos (e + 1074) ltac:(lia)) as Hp.
  replace (2 ^ 1074) with (2 ^ (e + 1074) * 2 ^ (- e))
    by (rewrite <- pow2_add by lia; f_equal; lia).
  replace (2 ^ 1075) with (2 ^ (e + 1074) * 2 ^ (1 - e))
    by (rewrite <- pow2_add by lia; f_equal; lia).
  replace (2 * (n * 2 ^ (e + 1074)) + 2 ^ (e + 1074) * 2 ^ (- e))
    with (2 ^ (e + 1074) * (2 * n + 2 ^ (- e))) by lia.
  apply Z.div_mul_cancel_l; [|lia].
  pose proof (pow2_pos (1 - e) ltac:(lia)). lia.
Qed.

(** An integer below [2^53] in magnitude is a number. *)
Lemma Rpos_integer (q : Z) : 0 < q < 2 ^ 53 ->
  Rpos 0 (q * 2 ^ 1074) = q * 2 ^ 1074.
Proof.
  intros Hq. unfold Rpos.
  rewrite Z.log2_mul_pow2 by lia.
  assert (Z.log2 q < 53) by (apply Z.log2_lt_pow2; lia).
  pose proof (Z.log2_nonneg q).
  set (k := Z.max (1074 + Z.log2 q + 1 - 53) 0).
  assert (Hk : 0 <= k <= 1074) by lia.
  replace (q * 2 ^ 1074) with (q * 2 ^ (1074 - k) * 2 ^ k)
    by (rewrite <- Z.mul_assoc, <- pow2_add by lia; do 2 f_equal; lia).
  rewrite RNE_exact by lia. rewrite Z.sub_0_r. reflexivity.
Qed.

Lemma R_integer (q : Z) : - 2 ^ 53 < q < 2 ^ 53 ->
  R 0 (q * 2 ^ 1074) = q * 2 ^ 1074.
Proof.
  intros Hq. pose proof (pow2_pos 1074 ltac:(lia)) as Hp.
  assert (Hh : forall p, 0 < p < 2 ^ 53 -> p * 2 ^ 1074 < huge).
  { intros p Hp'. unfold huge. change 2098 with (1024 + 1074).
    rewrite (pow2_add 1024 1074) by lia.
    pose proof (pow2_lt 53 1024 ltac:(lia)). nia. }
  destruct (Z.lt_trichotomy q 0) as [N|[->|P]].
  - rewrite R_neg by nia.
    replace (- (q * 2 ^ 1074)) with (- q * 2 ^ 1074) by lia.
    rewrite Rpos_integer by lia. specialize (Hh (- q) ltac:(lia)). lia.
  - reflexivity.
  - rewrite R_pos by nia. rewrite Rpos_integer by lia.
    specialize (Hh q ltac:(lia)). lia.
Qed.

Lemma of_Z_val (q : Z) : - 2 ^ 53 < q < 2 ^ 53 ->
  is_number (of_Z q) = true /\ val (of_Z q) = q * 2 ^ 1074.
Proof.
  intros Hq. unfold of_Z, is_number, val.
  destruct (binary_normalize_val q 0 false ltac:(lia)) as (V & N & F).
  rewrite Prim2SF_SF2Prim by exact V.
  rewrite N, F. split; [reflexivity|].
  change (0 + 1074) with 1074. now apply R_integer.
Qed.

Lemma Math_round_val (x : float) : is_number x = true ->
  is_number (Math_round x) = true /\ val (Math_round x) = roundZ (val x).
Proof.
  unfold Math_round. intros N.
  pose proof (Prim2SF_valid x) as V.
  unfold is_number, val in *.
  destruct (Prim2SF x) as [s|s| |s m e] eqn:E; try discriminate.
  - rewrite E. split; [reflexivity|]. symmetry. apply (roundZ_integer 0).
  - rewrite E. split; [reflexivity|]. unfold F2Z, huge.
    change 2098 with (1024 + 1074). rewrite (pow2_add 1024 1074) by lia.
    destruct s.
    + rewrite <- Z.mul_opp_l. symmetry. apply roundZ_integer.
    + symmetry. apply roundZ_integer.
  - destruct (valid_finite_inv s m e V) as (_ & He & Hlt & _).
    destruct (Z.leb_spec 0 e) as [He0|He0].
    + rewrite E. split; [reflexivity|]. rewrite F2Z_finite.
      replace (signed s (Z.pos m * 2 ^ (e + 1074)))
        with (signed s (Z.pos m * 2 ^ e) * 2 ^ 1074).
      * symmetry. apply roundZ_integer.
      * rewrite signed_mul. f_equal. rewrite (pow2_add e 1074) by lia. lia.
    + rewrite F2Z_finite.
      replace (signed s (Z.pos m * 2 ^ (e + 1074)))
        with ((if s then Z.neg m else Z.pos m) * 2 ^ (e + 1074))
        by (destruct s; unfold signed; lia).
      rewrite roundZ_scaled by lia.
      set (n := if s then Z.neg m else Z.pos m).
      set (q := (2 * n + 2 ^ (- e)) / 2 ^ (1 - e)).
      assert (Hq : - 2 ^ 53 < q < 2 ^ 53).
      { assert (Hn : - 2 ^ 53 < n < 2 ^ 53) by (unfold n; destruct s; lia).
        pose proof (pow2_pos (- e) ltac:(lia)) as Hp.
        assert (E2 : 2 ^ (1 - e) = 2 * 2 ^ (- e)).
        { replace (1 - e) with (1 + - e) by lia.
          rewrite (pow2_add 1 (- e)) by lia. reflexivity. }
        assert (H1 : 1 <= 2 ^ (- e) - 1) by
          (pose proof (pow2_le 1 (- e) ltac:(lia)); change (2 ^ 1) with 2 in *; lia).
        unfold q. rewrite E2. split.
        - apply Z.lt_le_trans with (- 2 ^ 53 + 1); [lia|].
          apply Z.div_le_lower_bound; [lia|]. nia.
        - apply Z.div_lt_upper_bound; [lia|]. nia. }
      destruct (Z.eqb_spec q 0) as [Eq0|Nq0].
      * rewrite Eq0. split; [destruct s; reflexivity|].
        destruct s; reflexivity.
      * exact (of_Z_val q Hq).
Qed.

Lemma Math_round_mono (a b : float) :
  (a <=? b)%float = true -> (Math_round a <=? Math_round b)%float = true.
Proof.
  intros H. apply leb_le in H. destruct H as (Na & Nb & H).
  destruct (Math_round_val a Na) as [Na' Va].
  destruct (Math_round_val b Nb) as [Nb' Vb].
  apply leb_le. repeat split; try assumption.
  rewrite Va, Vb. now apply roundZ_mono.
Qed.

(** In the normal range rounding moves a value by at most one part in
    [2^53]. *)
Lemma Rpos_error (g X : Z) : (0 <= g)%Z -> (2 ^ (g + 52) <= X)%Z ->
  (2 ^ 53 * (Rpos g X * 2 ^ g) <= X * (2 ^ 53 + 1))%Z /\
  (X * (2 ^ 53 - 1) <= 2 ^ 53 * (Rpos g X * 2 ^ g))%Z.
Proof.
  intros Hg HX.
  pose proof (pow2_pos (g + 52) ltac:(lia)) as Hp.
  assert (HL : (g + 52 <= Z.log2 X)%Z) by (apply Z.log2_le_pow2; lia).
  pose proof (Z.log2_spec X ltac:(lia)) as [BX _].
  unfold Rpos.
  replace (Z.max (Z.log2 X + 1 - 53) g) with (Z.log2 X - 52)%Z by lia.
  set (k := (Z.log2 X - 52)%Z) in *.
  pose proof (RNE_error X k ltac:(lia)) as [E1 E2].
  assert (Ek : (RNE X k * 2 ^ (k - g) * 2 ^ g = RNE X k * 2 ^ k)%Z).
  { rewrite <- Z.mul_assoc, <- pow2_add by lia. do 2 f_equal. lia. }
  rewrite Ek.
  assert (E52 : (2 ^ 52 * 2 ^ k <= X)%Z).
  { rewrite <- pow2_add by lia. replace (52 + k)%Z with (Z.log2 X) by lia.
    assumption. }
  change (2 ^ 53)%Z with (2 * 2 ^ 52)%Z.
  pose proof (pow2_pos 52 ltac:(lia)). pose proof (pow2_pos k ltac:(lia)).
  split; nia.
Qed.

End Binary64Facts.

(** * Bounds through the operations *)

Lemma ltb_leb (a b : float) : (a <? b) = true -> (a <=? b) = true.
Proof.
  intros H. apply ltb_lt in H. destruct H as (Na & Nb & H).
  apply leb_le. repeat split; try assumption. lia.
Qed.

Lemma leb_trans (a b c : float) :
  (a <=? b) = true -> (b <=? c) = true -> (a <=? c) = true.
Proof.
  intros H1 H2. apply leb_le in H1, H2.
  destruct H1 as (Na & _ & H1), H2 as (_ & Nc & H2).
  apply leb_le. repeat split; try assumption. lia.
Qed.

(** A number that is at least zero is finite or is +infinity. *)
Lemma nonneg_cases (x : float) : (0 <=? x) = true ->
  (finite x = true /\ (0 <= val x)%Z) \/ Prim2SF x = S754_infinity false.
Proof.
  intros H. apply leb_le in H. destruct H as (_ & N & H).
  change (val 0) with 0%Z in H.
  unfold finite, is_number, val in *. pose proof huge_pos.
  destruct (Prim2SF x) as [s|s| |s m e]; unfold F2Z, SF_finite, SF_nan, negb in *;
    try discriminate; auto.
  destruct s; [lia|auto].
Qed.

Lemma positive_finite_cases (c : float) :
  finite c = true -> (0 < val c)%Z ->
  exists m e, Prim2SF c = S754_finite false m e.
Proof.
  unfold finite, val. intros F P.
  destruct (Prim2SF c) as [s|s| |s m e]; unfold F2Z, SF_finite in *;
    try discriminate; try lia.
  destruct s; [|eauto].
  pose proof (Z.pow_nonneg 2 (e + 1074) ltac:(lia)). nia.
Qed.

Lemma mul_infinity (b c : float) :
  Prim2SF b = S754_infinity false -> finite c = true -> (0 < val c)%Z ->
  Prim2SF (b * c) = S754_infinity false.
Proof.
  intros Hb Fc Pc. destruct (positive_finite_cases c Fc Pc) as (m & e & Hc).
  rewrite mul_spec, Hb, Hc. reflexivity.
Qed.

Lemma leb_infinity_refl (a b : float) :
  Prim2SF a = S754_infinity false -> Prim2SF b = S754_infinity false ->
  (a <=? b) = true.
Proof. intros Ha Hb. rewrite leb_spec, Ha, Hb. reflexivity. Qed.

(** Scaling a non-negative number by a factor of at most one does not
    increase it; by a factor of at least one, does not decrease it. *)
Lemma scale_down (b c : float) :
  (0 <=? b) = true -> (0 <? c) = true -> (c <=? 1) = true ->
  (b * c <=? b) = true.
Proof.
  intros Hb Hc0 Hc1.
  apply ltb_lt in Hc0. destruct Hc0 as (_ & _ & Hc0).
  change (val 0) with 0%Z in Hc0.
  assert (Fc : finite c = true).
  { apply (finite_between 0 c 1); try reflexivity; [|assumption].
    apply leb_le. apply leb_le in Hc1. destruct Hc1 as (Nc & _ & _).
    repeat split; try assumption. change (val 0) with 0%Z. lia. }
  apply leb_le in Hc1. destruct Hc1 as (_ & _ & Hc1).
  destruct (nonneg_cases b Hb) as [[Fb Vb]|Ib].
  - destruct (mul_val b c Fb Fc) as [N V].
    apply leb_le. split; [exact N|]. split; [now apply finite_is_number|].
    pose proof (val_mul_one b Fb) as E.
    destruct (mul_val b 1 Fb eq_refl) as [_ V1]. rewrite V1 in E.
    rewrite V, <- E. apply R_mono; [lia|]. nia.
  - apply leb_infinity_refl; [|assumption]. now apply mul_infinity.
Qed.

Lemma scale_up (b c : float) :
  (0 <=? b) = true -> finite c = true -> (1 <=? c) = true ->
  (b <=? b * c) = true.
Proof.
  intros Hb Fc Hc1.
  apply leb_le in Hc1. destruct Hc1 as (_ & _ & Hc1).
  assert (P1 : (0 < val 1)%Z) by reflexivity.
  destruct (nonneg_cases b Hb) as [[Fb Vb]|Ib].
  - destruct (mul_val b c Fb Fc) as [N V].
    apply leb_le. split; [now apply finite_is_number|]. split; [exact N|].
    pose proof (val_mul_one b Fb) as E.
    destruct (mul_val b 1 Fb eq_refl) as [_ V1]. rewrite V1 in E.
    rewrite V, <- E. apply R_mono; [lia|]. nia.
  - apply leb_infinity_refl; [assumption|]. apply mul_infinity; auto. lia.
Qed.

Lemma mul_nonneg (b c : float) :
  (0 <=? b) = true -> finite c = true -> (0 < val c)%Z ->
  (0 <=? b * c) = true.
Proof.
  intros Hb Fc Pc.
  destruct (nonneg_cases b Hb) as [[Fb Vb]|Ib].
  - destruct (mul_val b c Fb Fc) as [N V].
    apply leb_le. split; [reflexivity|]. split; [exact N|].
    rewrite V. change (val 0) with 0%Z. apply R_nonneg; [lia|nia].
  - rewrite leb_spec, (mul_infinity b c Ib Fc Pc). reflexivity.
Qed.

(** The band of one forecast point. *)
Lemma forecast_band (r : float) : (0 <=? r) = true ->
  let baseRevenue := r * growthTrend in
  (Math_round (baseRevenue * (1 - uncertainty)) <=? Math_round baseRevenue) = true /\
  (Math_round baseRevenue <=? Math_round (baseRevenue * (1 + uncertainty))) = true.
Proof.
  intros Hr b.
  assert (Hb : (0 <=? b) = true).
  { apply mul_nonneg; [assumption|reflexivity|reflexivity]. }
  split; apply Math_round_mono.
  - apply scale_down; [assumption|reflexivity|reflexivity].
  - apply scale_up; [assumption|reflexivity|reflexivity].
Qed.

(** A number below 1 is at most [1 - 2^-53]. *)
Lemma ltb_one_leb (r : float) : (r <? 1) = true -> (r <=? below_one) = true.
Proof.
  intros H. apply ltb_lt in H. destruct H as (N & _ & H).
  apply leb_le. split; [exact N|]. split; [reflexivity|].
  change (val 1) with (2 ^ 1074)%Z in H.
  change (val below_one) with ((2 ^ 53 - 1) * 2 ^ 1021)%Z.
  unfold val in *. pose proof (Prim2SF_valid r) as V.
  pose proof (pow2_pos 1021 ltac:(lia)) as P1021.
  assert (E1074 : (2 ^ 1074 = 2 ^ 53 * 2 ^ 1021)%Z)
    by (rewrite <- pow2_add by lia; reflexivity).
  pose proof huge_pos.
  destruct (Prim2SF r) as [s|s| |s m e]; unfold F2Z in *; try nia.
  - destruct s; [nia|].
    exfalso. unfold huge in *.
    pose proof (pow2_lt 1074 2098 ltac:(lia)). lia.
  - pose proof (F2Z_finite_bounds s m e V) as B.
    destruct s; [nia|].
    destruct (valid_finite_inv false m e V) as (_ & He & Hlt & Hge).
    destruct (Z_le_gt_dec e (-53)) as [Hlo|Hhi].
    + pose proof (pow2_le (e + 1074) 1021 ltac:(lia)).
      pose proof (pow2_pos (e + 1074) ltac:(lia)). nia.
    + exfalso. specialize (Hge ltac:(lia)).
      pose proof (pow2_le 1022 (e + 1074) ltac:(lia)).
      assert (E : (2 ^ 1074 = 2 ^ 52 * 2 ^ 1022)%Z)
        by (rewrite <- pow2_add by lia; reflexivity).
      pose proof (pow2_pos 52 ltac:(lia)). nia.
Qed.

(** [base + (r * scale - offset)] for a draw [r] between [lo] and [hi]. *)
Lemma affine_draw_bounds (base scale offset lo hi r : float) :
  finite base = true -> finite scale = true -> finite offset = true ->
  finite lo = true -> finite hi = true ->
  (0 <=? scale) = true ->
  finite (lo * scale) = true -> finite (hi * scale) = true ->
  finite (lo * scale - offset) = true -> finite (hi * scale - offset) = true ->
  (lo <=? r) = true -> (r <=? hi) = true ->
  (base + (lo * scale - offset) <=? base + (r * scale - offset)) = true /\
  (base + (r * scale - offset) <=? base + (hi * scale - offset)) = true.
Proof.
  intros Fb Fs Fo Flo Fhi Hs F0s F1s F0 F1 Hr0 Hr1.
  assert (Fr : finite r = true)
    by (apply (finite_between lo r hi); auto).
  pose proof (mul_mono_l lo r scale Flo Fr Fs Hs Hr0) as Lo1.
  pose proof (mul_mono_l r hi scale Fr Fhi Fs Hs Hr1) as Hi1.
  assert (FA : finite (r * scale) = true)
    by (apply (finite_between (lo * scale) _ (hi * scale)); assumption).
  pose proof (sub_mono_l _ _ offset F0s FA Fo Lo1) as Lo2.
  pose proof (sub_mono_l _ _ offset FA F1s Fo Hi1) as Hi2.
  assert (FB : finite (r * scale - offset) = true)
    by (apply (finite_between (lo * scale - offset) _ (hi * scale - offset)); assumption).
  split.
  - apply add_mono_r; assumption.
  - apply add_mono_r; assumption.
Qed.

Lemma ltb_leb_trans (a b c : float) :
  (a <? b) = true -> (b <=? c) = true -> (a <? c) = true.
Proof.
  intros H1 H2. apply ltb_lt in H1. apply leb_le in H2.
  destruct H1 as (Na & _ & H1), H2 as (_ & Nc & H2).
  apply ltb_lt. repeat split; try assumption. lia.
Qed.

(** [round ((base + r * range) * s * h)] is least for the draw 0. *)
Lemma scaled_draw_lower (base range s h r : float) :
  finite base = true -> finite range = true ->
  finite s = true -> finite h = true ->
  (0 <=? range) = true -> (0 <=? s) = true -> (0 <=? h) = true ->
  finite (0 * range) = true -> finite (below_one * range) = true ->
  finite (base + 0 * range) = true ->
  finite (base + below_one * range) = true ->
  finite ((base + 0 * range) * s) = true ->
  finite ((base + below_one * range) * s) = true ->
  (0 <=? r) = true -> (r <? 1) = true ->
  (Math_round ((base + 0 * range) * s * h)
     <=? Math_round ((base + r * range) * s * h)) = true.
Proof.
  intros Fb Fr Fs Fh Hr Hs Hh F0r F1r F0b F1b F0s F1s R0 R1.
  apply ltb_one_leb in R1.
  assert (Fd : finite r = true)
    by (apply (finite_between 0 r below_one); auto).
  pose proof (mul_mono_l 0 r range eq_refl Fd Fr Hr R0) as Lo1.
  pose proof (mul_mono_l r below_one range Fd eq_refl Fr Hr R1) as Hi1.
  assert (FA : finite (r * range) = true)
    by (apply (finite_between (0 * range) _ (below_one * range)); assumption).
  pose proof (add_mono_r _ _ base F0r FA Fb Lo1) as Lo2.
  pose proof (add_mono_r _ _ base FA F1r Fb Hi1) as Hi2.
  assert (FB : finite (base + r * range) = true)
    by (apply (finite_between (base + 0 * range) _ (base + below_one * range));
        assumption).
  pose proof (mul_mono_l _ _ s F0b FB Fs Hs Lo2) as Lo3.
  pose proof (mul_mono_l _ _ s FB F1b Fs Hs Hi2) as Hi3.
  assert (FC : finite ((base + r * range) * s) = true)
    by (apply (finite_between ((base + 0 * range) * s) _
                 ((base + below_one * range) * s)); assumption).
  apply Math_round_mono. apply mul_mono_l; assumption.
Qed.

(** Two factors that are more than two parts in [2^53] apart give
    different products, in the normal range and short of overflow. *)
Lemma mul_strict (t c1 c2 : float) :
  finite t = true -> finite c1 = true -> finite c2 = true ->
  (1 <=? t) = true -> (0x1p-1 <=? c1) = true ->
  (val c1 * (2 ^ 53 + 1) < val c2 * (2 ^ 53 - 1))%Z ->
  finite (t * c2) = true ->
  (t * c1 <? t * c2) = true.
Proof.
  intros Ft F1 F2 Ht Hc1 Hgap Ffin.
  destruct (mul_val t c1 Ft F1) as [N1 V1].
  destruct (mul_val t c2 Ft F2) as [N2 V2].
  apply ltb_lt. split; [exact N1|]. split; [exact N2|].
  apply leb_le in Ht, Hc1.
  destruct Ht as (_ & _ & Ht), Hc1 as (_ & _ & Hc1).
  change (val 1) with (2 ^ 1074)%Z in Ht.
  change (val 0x1p-1) with (2 ^ 1073)%Z in Hc1.
  pose proof (finite_val_bounds _ Ffin) as Bfin.
  pose proof (pow2_pos 1073 ltac:(lia)) as P1073.
  pose proof (pow2_pos 1074 ltac:(lia)) as P1074.
  pose proof (pow2_pos 53 ltac:(lia)) as P53.
  assert (E : (2 ^ (1074 + 52) <= 2 ^ 1074 * 2 ^ 1073)%Z).
  { rewrite <- pow2_add by lia. apply pow2_le. lia. }
  assert (X1 : (2 ^ (1074 + 52) <= val t * val c1)%Z) by nia.
  assert (Hc2 : (val c1 < val c2)%Z) by nia.
  assert (X2 : (2 ^ (1074 + 52) <= val t * val c2)%Z) by nia.
  destruct (Rpos_error 1074 _ ltac:(lia) X1) as [U1 _].
  destruct (Rpos_error 1074 _ ltac:(lia) X2) as [_ L2].
  rewrite V2 in Bfin. rewrite V1, V2.
  rewrite (R_pos 1074 (val t * val c2)) in Bfin by nia.
  rewrite (R_pos 1074 (val t * val c1)), (R_pos 1074 (val t * val c2)) by nia.
  assert (Hlt : (Rpos 1074 (val t * val c1) < Rpos 1074 (val t * val c2))%Z).
  { assert (G : (val t * val c1 * (2 ^ 53 + 1) < val t * val c2 * (2 ^ 53 - 1))%Z).
    { rewrite <- !Z.mul_assoc. apply Z.mul_lt_mono_pos_l; lia. }
    nia. }
  lia.
Qed.

Section StrictRounding.

Local Open Scope Z_scope.

(** Values more than one grid step apart round to different grid points. *)
Lemma RNE_gap (X Y k : Z) : 0 <= k -> X + 2 ^ k < Y -> RNE X k < RNE Y k.
Proof.
  intros Hk H. pose proof (pow2_pos k Hk) as Hp.
  pose proof (RNE_error X k Hk) as [_ U].
  pose proof (RNE_error Y k Hk) as [L _].
  set (u := 2 ^ k) in *. clearbody u.
  apply (Z.mul_lt_mono_pos_r u); lia.
Qed.

(** Below [2^53] units the grid is the unit grid. *)
Lemma Rpos_low (X : Z) : 0 < X -> X < 2 ^ 1127 -> Rpos 1074 X = RNE X 1074.
Proof.
  intros H0 H. unfold Rpos.
  assert (L : Z.log2 X < 1127) by (apply Z.log2_lt_pow2; lia).
  replace (Z.max (Z.log2 X + 1 - 53) 1074) with 1074 by lia.
  rewrite Z.sub_diag. change (2 ^ 0) with 1. lia.
Qed.

(** Two products that are more than one unit and more than two parts in
    [2^53] apart round to different numbers. *)
Lemma Rpos_strict (X1 X2 : Z) :
  0 < X1 -> X1 + 2 ^ 1074 < X2 ->
  X1 * (2 ^ 53 + 1) < X2 * (2 ^ 53 - 1) ->
  Rpos 1074 X1 < Rpos 1074 X2.
Proof.
  intros H0 Hgap Hrel.
  destruct (Z_lt_le_dec X1 (2 ^ 1126)) as [Lo|Hi].
  - assert (E : 2 ^ 1127 = 2 * 2 ^ 1126)
      by (change 1127 with (1 + 1126); rewrite pow2_add by lia; reflexivity).
    pose proof (pow2_lt 1074 1126 ltac:(lia)) as P.
    pose proof (pow2_pos 1074 ltac:(lia)) as P0.
    set (u := 2 ^ 1074) in *. set (w := 2 ^ 1126) in *.
    set (w' := 2 ^ 1127) in *.
    apply Z.lt_le_trans with (Rpos 1074 (X1 + u + 1)).
    + rewrite !Rpos_low by (fold w'; lia). apply RNE_gap; fold u; lia.
    + apply Rpos_mono; lia.
  - change 1126 with (1074 + 52) in Hi.
    assert (Hi2 : 2 ^ (1074 + 52) <= X2).
    { pose proof (pow2_pos 1074 ltac:(lia)). lia. }
    destruct (Rpos_error 1074 X1 ltac:(lia) Hi) as [U1 _].
    destruct (Rpos_error 1074 X2 ltac:(lia) Hi2) as [_ L2].
    pose proof (pow2_pos 1074 ltac:(lia)) as Pu.
    pose proof (pow2_pos 53 ltac:(lia)) as Pp.
    set (u := 2 ^ 1074) in *. set (p := 2 ^ 53) in *.
    clearbody u p. clear Hi Hi2 Hgap.
    apply (Z.mul_lt_mono_pos_r u); [lia|].
    apply (Z.mul_lt_mono_pos_l p); lia.
Qed.

End StrictRounding.

(** Two factors give different products of a total [t] of at least [k]
    units, when [k] times their difference is more than one unit, they are
    more than two parts in [2^53] apart and the smaller product is
    finite. *)
Lemma mul_strict_wide (t c1 c2 : float) (k : Z) :
  finite t = true -> finite c1 = true -> finite c2 = true ->
  (0 < k)%Z -> (k <= val t)%Z -> (0 < val c1)%Z ->
  (2 ^ 1074 < k * (val c2 - val c1))%Z ->
  (val c1 * (2 ^ 53 + 1) < val c2 * (2 ^ 53 - 1))%Z ->
  finite (t * c1) = true ->
  (t * c1 <? t * c2) = true.
Proof.
  intros Ft F1 F2 Hk Ht Hc1 Hgap Hrel Ffin.
  destruct (mul_val t c1 Ft F1) as [N1 V1].
  destruct (mul_val t c2 Ft F2) as [N2 V2].
  apply ltb_lt. split; [exact N1|]. split; [exact N2|].
  pose proof (finite_val_bounds _ Ffin) as Bfin.
  rewrite V1 in Bfin. rewrite V1, V2.
  pose proof (pow2_pos 1074 ltac:(lia)) as Pu.
  set (T := val t) in *. set (C1 := val c1) in *. set (C2 := val c2) in *.
  set (u := (2 ^ 1074)%Z) in *.
  assert (HC : (0 < C2 - C1)%Z) by (clearbody u; nia).
  assert (X1 : (0 < T * C1)%Z) by (apply Z.mul_pos_pos; lia).
  assert (X12 : (T * C1 + u < T * C2)%Z).
  { assert ((k * (C2 - C1) <= T * (C2 - C1))%Z)
      by (apply Z.mul_le_mono_nonneg_r; lia).
    clearbody u. lia. }
  assert (Xrel : (T * C1 * (2 ^ 53 + 1) < T * C2 * (2 ^ 53 - 1))%Z).
  { rewrite <- !Z.mul_assoc. apply Z.mul_lt_mono_pos_l; lia. }
  pose proof (Rpos_strict _ _ X1 X12 Xrel) as S.
  rewrite (R_pos 1074 (T * C1)) in * by lia.
  rewrite (R_pos 1074 (T * C2)) by lia.
  lia.
Qed.

(** A positive number below [2^52] units is the subnormal number with that
    many units. *)
Lemma subnormal_of_val (t : float) :
  finite t = true -> (0 < val t < 2 ^ 52)%Z ->
  t = SF2Prim (S754_finite false (Z.to_pos (val t)) (-1074)).
Proof.
  unfold finite, val. intros F B.
  rewrite <- (SF2Prim_Prim2SF t) at 1.
  pose proof (Prim2SF_valid t) as V.
  destruct (Prim2SF t) as [s|s| |s m e]; unfold F2Z, SF_finite in *;
    try discriminate; try lia.
  destruct (valid_finite_inv s m e V) as (_ & He & Hlt & Hge).
  pose proof (pow2_pos (e + 1074) ltac:(lia)) as Pe.
  destruct s; [nia|].
  destruct (Z.eq_dec e (-1074)) as [->|Ne].
  - change (-1074 + 1074)%Z with 0%Z. rewrite Z.pow_0_r, Z.mul_1_r.
    reflexivity.
  - exfalso. specialize (Hge ltac:(lia)).
    pose proof (pow2_pos 52 ltac:(lia)).
    set (p := (2 ^ 52)%Z) in *. set (q := (2 ^ (e + 1074))%Z) in *.
    clearbody p q. nia.
Qed.

(** A finite number above [M * 2^971], with [M] a full mantissa, is at
    least [(M + 1) * 2^971]. *)
Lemma above_top_binade (t : float) (M : Z) :
  finite t = true -> (2 ^ 52 <= M)%Z ->
  (M * 2 ^ 2045 < val t)%Z -> ((M + 1) * 2 ^ 2045 <= val t)%Z.
Proof.
  unfold finite, val. intros F HM B.
  pose proof (Prim2SF_valid t) as V.
  pose proof (pow2_pos 2045 ltac:(lia)) as P2045.
  pose proof (pow2_pos 52 ltac:(lia)) as P52.
  destruct (Prim2SF t) as [s|s| |s m e]; unfold F2Z, SF_finite in *;
    try discriminate; try nia.
  destruct (valid_finite_inv s m e V) as (_ & He & Hlt & Hge).
  pose proof (pow2_pos (e + 1074) ltac:(lia)) as Pe.
  destruct s; [nia|].
  destruct (Z.eq_dec e 971) as [->|Ne].
  - change (971 + 1074)%Z with 2045%Z in *.
    set (w := (2 ^ 2045)%Z) in *. clearbody w.
    assert (M < Z.pos m)%Z by nia.
    apply Z.mul_le_mono_nonneg_r; lia.
  - exfalso.
    pose proof (pow2_le (e + 1074) 2044 ltac:(lia)) as L.
    assert (E : (2 ^ 2045 = 2 * 2 ^ 2044)%Z)
      by (change 2045%Z with (1 + 2044)%Z; rewrite pow2_add by lia;
          reflexivity).
    assert (E53 : (2 ^ 53 = 2 * 2 ^ 52)%Z) by reflexivity.
    pose proof (pow2_pos 2044 ltac:(lia)) as P2044.
    set (w := (2 ^ 2044)%Z) in *. set (p := (2 ^ 52)%Z) in *.
    set (q := (2 ^ (e + 1074))%Z) in *. set (w2 := (2 ^ 2045)%Z) in *.
    set (p2 := (2 ^ 53)%Z) in *.
    clearbody w p q w2 p2.
    assert (Z.pos m * q <= Z.pos m * w)%Z by (apply Z.mul_le_mono_nonneg_l; lia).
    assert (Z.pos m * w <= 2 * p * w)%Z by (apply Z.mul_le_mono_nonneg_r; lia).
    assert (2 * p * w <= M * w2)%Z by nia.
    lia.
Qed.

(** A total whose bear amount is below its base amount is a positive
    finite number. *)
Lemma scenario_order_positive (t : number) :
  (bearCase t <? baseCase t) = true -> finite t = true /\ (0 < val t)%Z.
Proof.
  unfold bearCase, baseCase. intros H.
  destruct (Prim2SF t) as [s|s| |s m e] eqn:E.
  - exfalso. rewrite ltb_spec, !mul_spec, E in H.
    vm_compute in H. discriminate.
  - exfalso. rewrite ltb_spec, !mul_spec, E in H.
    destruct s; vm_compute in H; discriminate.
  - exfalso. rewrite ltb_spec, !mul_spec, E in H.
    vm_compute in H. discriminate.
  - assert (Ft : finite t = true) by (unfold finite; rewrite E; reflexivity).
    split; [exact Ft|].
    destruct s.
    + exfalso. apply ltb_lt in H. destruct H as (_ & _ & H).
      destruct (mul_val t 0.85 Ft eq_refl) as [_ V1].
      destruct (mul_val t 1.08 Ft eq_refl) as [_ V2].
      rewrite V1, V2 in H.
      assert (Hneg : (val t < 0)%Z).
      { unfold val. rewrite E. unfold F2Z.
        pose proof (F2Z_finite_bounds true m e) as B.
        pose proof (Prim2SF_valid t) as V. rewrite E in V.
        specialize (B V). lia. }
      assert (C : (val 0.85 <= val 1.08)%Z) by (vm_compute; discriminate).
      pose proof (R_mono 1074 (val t * val 1.08) (val t * val 0.85)
                    ltac:(lia)) as Mo.
      assert ((val t * val 1.08 <= val t * val 0.85)%Z)
        by (apply Z.mul_le_mono_nonpos_l; lia).
      lia.
    + unfold val. rewrite E. unfold F2Z.
      pose proof (Prim2SF_valid t) as V. rewrite E in V.
      pose proof (F2Z_finite_bounds false m e V). lia.
Qed.

(** The ordering at the totals of 1 to 5 units. *)
Lemma scenario_order_small (t : number) :
  finite t = true -> (0 < val t < 6)%Z ->
  ((4 <= val t)%Z ->
   (bearCase t <? baseCase t) = true /\ (baseCase t <? bullCase t) = true) /\
  ((val t < 4)%Z -> (bearCase t <? baseCase t) = false).
Proof.
  intros Ft B.
  assert (B52 : (0 < val t < 2 ^ 52)%Z).
  { split; [lia|]. apply Z.lt_trans with 6%Z; [lia|reflexivity]. }
  pose proof (subnormal_of_val t Ft B52) as Et.
  assert (C : (val t = 1 \/ val t = 2 \/ val t = 3 \/ val t = 4 \/ val t = 5)%Z)
    by lia.
  destruct C as [C|[C|[C|[C|C]]]]; rewrite C in Et;
    (split; intros H4; [try lia|try lia]); rewrite Et;
    first [split; vm_compute; reflexivity | vm_compute; reflexivity].
Qed.

(** Above [scenario_order_greatest] the base amount is infinite. *)
Lemma scenario_base_overflow (t : number) :
  finite t = true -> (val scenario_order_greatest < val t)%Z ->
  val (baseCase t) = huge.
Proof.
  intros Ft H. unfold baseCase.
  set (next := 0x1.da12f684bda12p+1023).
  assert (Hn : (val next <= val t)%Z).
  { change (val next) with ((8339999309945361 + 1) * 2 ^ 2045)%Z.
    apply above_top_binade; [exact Ft|vm_compute; discriminate|exact H]. }
  assert (Mo : (next * 1.08 <=? t * 1.08) = true).
  { apply mul_mono_l; try reflexivity; try assumption.
    apply leb_le. split; [reflexivity|].
    split; [now apply finite_is_number|exact Hn]. }
  apply leb_le in Mo. destruct Mo as (_ & _ & Mo).
  change (val (next * 1.08)) with huge in Mo.
  pose proof (val_bounds (t * 1.08)). lia.
Qed.

(** * Properties of the array helpers *)

Section MapIndexedExn.
Context {A B : Type} (f : A -> nat -> option B).

Lemma map_indexed_exn_nth (l : list A) : forall start ys,
  map_indexed_exn f l start = Some ys ->
  List.length ys = List.length l /\
  forall i x, nth_error l i = Some x ->
    exists y, f x (start + i)%nat = Some y /\ nth_error ys i = Some y.
Proof.
  induction l as [|a l IH]; simpl; intros start ys H.
  - injection H as <-. split; [reflexivity|].
    intros [|i] x Hx; discriminate.
  - destruct (f a start) as [y|] eqn:Hy; [|discriminate].
    destruct (map_indexed_exn f l (S start)) as [ys'|] eqn:Hys; [|discriminate].
    injection H as <-.
    destruct (IH _ _ Hys) as [Hlen Hnth].
    split; [simpl; now rewrite Hlen|].
    intros [|i] x Hx; simpl in *.
    + injection Hx as <-. exists y. now rewrite Nat.add_0_r.
    + destruct (Hnth i x Hx) as (y' & Hf & Hn).
      exists y'. split; [|assumption].
      now rewrite <- plus_n_Sm.
Qed.

Lemma map_indexed_exn_nth_inv (l : list A) : forall start ys i y,
  map_indexed_exn f l start = Some ys ->
  nth_error ys i = Some y ->
  exists x, nth_error l i = Some x /\ f x (start + i)%nat = Some y.
Proof.
  induction l as [|a l IH]; simpl; intros start ys i y H Hy.
  - injection H as <-. destruct i; discriminate.
  - destruct (f a start) as [y0|] eqn:Hy0; [|discriminate].
    destruct (map_indexed_exn f l (S start)) as [ys'|] eqn:Hys; [|discriminate].
    injection H as <-.
    destruct i as [|i]; simpl in *.
    + injection Hy as <-. exists a. now rewrite Nat.add_0_r.
    + destruct (IH _ _ _ _ Hys Hy) as (x & Hx & Hf).
      exists x. split; [assumption|]. now rewrite <- plus_n_Sm.
Qed.

Lemma map_indexed_exn_total (l : list A) : forall start,
  (forall i x, nth_error l i = Some x -> f x (start + i)%nat <> None) ->
  exists ys, map_indexed_exn f l start = Some ys.
Proof.
  induction l as [|a l IH]; simpl; intros start H.
  - now exists [].
  - destruct (f a start) as [y|] eqn:Hy.
    + destruct (IH (S start)) as [ys Hys].
      * intros i x Hx. rewrite plus_Sn_m, plus_n_Sm. now apply (H (S i)).
      * rewrite Hys. now eexists.
    + exfalso. apply (H 0%nat a); [reflexivity|]. now rewrite Nat.add_0_r.
Qed.
End MapIndexedExn.

Lemma array_get_last {A} (l : list A) (k : Z) :
  (0 < k <= array_length l)%Z ->
  array_get l (array_length l - k)%Z = nth_error l (List.length l - Z.to_nat k).
Proof.
  intros Hk. unfold array_get, array_length in *.
  destruct (Z.ltb_spec (Z.of_nat (List.length l) - k) 0); [lia|].
  f_equal. lia.
Qed.

Lemma array_get_before_start {A} (l : list A) (k : Z) :
  (array_length l < k)%Z ->
  array_get l (array_length l - k)%Z = None.
Proof.
  intros Hk. unfold array_get, array_length in *.
  destruct (Z.ltb_spec (Z.of_nat (List.length l) - k) 0); [reflexivity|lia].
Qed.

Lemma reduce_sum_map (f : MonthData -> number) (l : list MonthData) :
  reduce_sum f l = Spec.sum (map f l).
Proof.
  unfold reduce_sum, Spec.sum. generalize 0.
  induction l as [|m l IH]; simpl; intros acc; [reflexivity|apply IH].
Qed.

Lemma months_length : List.length months = 12%nat.
Proof. reflexivity. Qed.

(** The index of a month, case by case. *)
Lemma lt_12_cases (i : nat) : (i < 12)%nat ->
  In i [0; 1; 2; 3; 4; 5; 6; 7; 8; 9; 10; 11]%nat.
Proof.
  intros H. do 12 (destruct i as [|i]; [simpl; tauto|]). lia.
Qed.

Lemma confidence_commutes (i : nat) : (i < 12)%nat ->
  forecastConfidence i = Math_max 0 (0.85 - 0.02 * of_nat i).
Proof.
  intros H. apply lt_12_cases in H. simpl in H.
  repeat (destruct H as [<-|H]; [vm_compute; reflexivity|]). contradiction.
Qed.

Lemma forecastPoint_spec (hist : list MonthData) (label : string) (i : nat) h :
  (i < 12)%nat -> nth_error hist i = Some h ->
  forecastPoint hist label i = Some (Spec.project_point label (revenue h) i).
Proof.
  intros Hi Hh. unfold forecastPoint, Spec.project_point. rewrite Hh.
  rewrite (confidence_commutes i Hi). reflexivity.
Qed.

Section MapIndexed.
Context {A B : Type} (f : A -> nat -> Rand B) (src : RandomSource).

Lemma map_indexed_length (l : list A) : forall index n,
  List.length (fst (map_indexed f l index src n)) = List.length l.
Proof.
  induction l as [|x l IH]; intros index n; simpl; [reflexivity|].
  unfold bind, ret. destruct (f x index src n) as [y n1].
  specialize (IH (S index) n1).
  destruct (map_indexed f l (S index) src n1) as [ys n2]. simpl in *.
  now rewrite IH.
Qed.

Lemma map_indexed_In (l : list A) : forall index n y,
  In y (fst (map_indexed f l index src n)) ->
  exists x i n', In x l /\ (index <= i < index + List.length l)%nat /\
    y = fst (f x i src n').
Proof.
  induction l as [|x l IH]; intros index n y; simpl; [tauto|].
  unfold bind, ret. destruct (f x index src n) as [y0 n1] eqn:E0.
  specialize (IH (S index) n1 y).
  destruct (map_indexed f l (S index) src n1) as [ys n2]. simpl in *.
  intros [<-|Hin].
  - exists x, index, n. split; [now left|]. split; [lia|]. now rewrite E0.
  - destruct (IH Hin) as (x' & i & n' & Hx & Hi & Hy).
    exists x', i, n'. split; [now right|]. split; [lia|assumption].
Qed.

End MapIndexed.

Lemma historicalRecord_margins (label : string) (i : nat)
  (src : RandomSource) (n : nat) :
  let r := fst (historicalRecord label i src n) in
  grossMargin r = 0.68 + (src (S (S n)) * 0.08 - 0.04) /\
  conversionRate r = 0.034 + (src (S (S (S n))) * 0.008 - 0.004).
Proof. split; reflexivity. Qed.

(** Every forecast point carries the confidence of its index, and there
    are twelve indices. *)
(** Every generated revenue is positive. *)
Lemma generated_revenue_positive (label : string) (i : nat)
  (src : RandomSource) (n : nat) :
  (i < 12)%nat -> unit_draws src ->
  (0 <? revenue (fst (historicalRecord label i src n))) = true.
Proof.
  intros Hi Hsrc. destruct (Hsrc n) as [R0 R1].
  change (revenue (fst (historicalRecord label i src n)))
    with (Math_round ((850000 + src n * 150000) * seasonality i * holidayBoost i)).
  apply lt_12_cases in Hi. simpl in Hi.
  repeat (destruct Hi as [<-|Hi];
    [match goal with
     | |- (0 <? Math_round ((_ + _ * _) * ?s * ?h)) = true =>
         apply (ltb_leb_trans _ (Math_round ((850000 + 0 * 150000) * s * h)));
         [reflexivity|apply scaled_draw_lower; first [assumption|reflexivity]]
     end|]).
  contradiction.
Qed.

Lemma forecast_confidence_at (hist : list MonthData) fs i p :
  forecastData hist = Some fs -> nth_error fs i = Some p ->
  (i < 12)%nat /\ confidence p = forecastConfidence i.
Proof.
  intros Hfs Hp.
  destruct (map_indexed_exn_nth_inv _ _ _ _ _ _ Hfs Hp) as (label & Hl & Hf).
  split.
  - rewrite <- months_length. apply nth_error_Some. congruence.
  - simpl in Hf. unfold forecastPoint in Hf.
    destruct (nth_error hist i); [|discriminate]. now injection Hf as <-.
Qed.

Lemma confidence_table : confidence_table_ok = true.
Proof. vm_compute. reflexivity. Qed.

Lemma confidence_pairwise (i j : nat) :
  (i <= j)%nat -> (j < 12)%nat ->
  (forecastConfidence j <=? forecastConfidence i) = true /\
  (0 <=? forecastConfidence i) = true.
Proof.
  intros Hij Hj.
  pose proof confidence_table as T. unfold confidence_table_ok in T.
  rewrite forallb_forall in T.
  specialize (T i ltac:(apply in_seq; lia)).
  apply andb_true_iff in T. destruct T as [T0 T].
  rewrite forallb_forall in T.
  specialize (T j ltac:(apply in_seq; lia)).
  destruct (Nat.leb_spec i j); [|lia].
  split; assumption.
Qed.

(** * The claims *)

(** C1. On a historical sequence that covers the twelve periods, the
    Forecast Projector returns twelve points, the point of period [i] being
    the one the specification describes: base = revenue x 1.08,
    round(base), round(base x 1.10), round(base x 0.90),
    max(0, 0.85 - 0.02 x i) and the month's label with the forecast tag;
    a revenue of 1,000,000 at index 11 gives 1,080,000, 1,188,000, 972,000
    and 0.63. *)
Theorem forecast_projector_points (hist : list MonthData) :
  (12 <= List.length hist)%nat ->
  exists fs,
    forecastData hist = Some fs /\ List.length fs = 12%nat /\
    (forall i h, (i < 12)%nat -> nth_error hist i = Some h ->
       exists label, nth_error months i = Some label /\
         nth_error fs i = Some (Spec.project_point label (revenue h) i)) /\
    (forall h, nth_error hist 11 = Some h -> revenue h = 1000000 ->
       exists p, nth_error fs 11 = Some p /\
         fp_month p = "Dec (F)"%string /\
         fp_revenue p = 1080000 /\ forecastHigh p = 1188000 /\
         forecastLow p = 972000 /\ confidence p = 0.63).
Proof.
  intros Hlen.
  destruct (map_indexed_exn_total (forecastPoint hist) months 0) as [fs Hfs].
  { intros i x Hx. simpl.
    assert (Hi : (i < 12)%nat).
    { rewrite <- months_length. apply nth_error_Some. congruence. }
    destruct (nth_error hist i) as [h|] eqn:Hh.
    - rewrite (forecastPoint_spec hist x i h Hi Hh). discriminate.
    - apply nth_error_None in Hh. lia. }
  exists fs. split; [exact Hfs|].
  destruct (map_indexed_exn_nth _ _ _ _ Hfs) as [Hl Hnth].
  split; [now rewrite Hl|].
  assert (Hpoint : forall i h, (i < 12)%nat -> nth_error hist i = Some h ->
     exists label, nth_error months i = Some label /\
       nth_error fs i = Some (Spec.project_point label (revenue h) i)).
  { intros i h Hi Hh.
    destruct (nth_error months i) as [label|] eqn:Hm.
    - exists label. split; [reflexivity|].
      destruct (Hnth i label Hm) as (y & Hy & Hn). simpl in Hy.
      rewrite (forecastPoint_spec hist label i h Hi Hh) in Hy.
      now injection Hy as <-.
    - apply nth_error_None in Hm. rewrite months_length in Hm. lia. }
  split; [exact Hpoint|].
  intros h Hh Hrev.
  destruct (Hpoint 11%nat h ltac:(lia) Hh) as (label & Hlabel & Hp).
  injection Hlabel as <-.
  eexists. split; [exact Hp|].
  unfold Spec.project_point. rewrite Hrev. simpl.
  repeat split; vm_compute; reflexivity.
Qed.

Lemma forecast_projector_points_witness :
  exists fs,
    forecastData (flat_year 1000000) = Some fs /\ List.length fs = 12%nat /\
    (forall i h, (i < 12)%nat -> nth_error (flat_year 1000000) i = Some h ->
       exists label, nth_error months i = Some label /\
         nth_error fs i = Some (Spec.project_point label (revenue h) i)) /\
    (forall h, nth_error (flat_year 1000000) 11 = Some h -> revenue h = 1000000 ->
       exists p, nth_error fs 11 = Some p /\
         fp_month p = "Dec (F)"%string /\
         fp_revenue p = 1080000 /\ forecastHigh p = 1188000 /\
         forecastLow p = 972000 /\ confidence p = 0.63).
Proof.
  apply (forecast_projector_points (flat_year 1000000)). simpl. lia.
Defined.

(** C2. On a historical sequence of at least two records the KPI
    Aggregator returns the sum of the revenues, the arithmetic means of
    the gross margins, conversion rates and order values, and the growth
    (last - secondToLast) / secondToLast x 100; revenues 100 then 110 give
    a growth of 10. *)
Theorem kpi_aggregator_formula (hist : list MonthData) :
  (2 <= List.length hist)%nat ->
  exists k last secondToLast,
    kpis hist = Some k /\
    nth_error hist (List.length hist - 1) = Some last /\
    nth_error hist (List.length hist - 2) = Some secondToLast /\
    totalRevenue k = Spec.sum (map revenue hist) /\
    avgGrossMargin k = Spec.mean (map grossMargin hist) /\
    avgConversionRate k = Spec.mean (map conversionRate hist) /\
    kpi_avgOrderValue k = Spec.mean (map avgOrderValue hist) /\
    monthlyGrowth k = Spec.growthPercent (revenue last) (revenue secondToLast) /\
    (List.length hist = 2%nat -> revenue secondToLast = 100 ->
     revenue last = 110 -> monthlyGrowth k = 10).
Proof.
  intros Hlen.
  destruct (nth_error hist (List.length hist - 1)) as [last|] eqn:Hlast;
    [|apply nth_error_None in Hlast; lia].
  destruct (nth_error hist (List.length hist - 2)) as [prev|] eqn:Hprev;
    [|apply nth_error_None in Hprev; lia].
  unfold kpis, monthlyGrowth_eval, previousMonthData, currentMonthData.
  rewrite (array_get_last hist 2), (array_get_last hist 1)
    by (unfold array_length; lia).
  change (Z.to_nat 2) with 2%nat; change (Z.to_nat 1) with 1%nat.
  rewrite Hlast, Hprev.
  eexists; exists last, prev. split; [reflexivity|]. simpl.
  unfold Spec.mean. rewrite !length_map, <- !reduce_sum_map.
  repeat split; try reflexivity.
  intros _ -> ->. vm_compute. reflexivity.
Qed.

Lemma kpi_aggregator_formula_witness :
  exists k last secondToLast,
    let hist := [record_with_revenue 100; record_with_revenue 110] in
    kpis hist = Some k /\
    nth_error hist (List.length hist - 1) = Some last /\
    nth_error hist (List.length hist - 2) = Some secondToLast /\
    totalRevenue k = Spec.sum (map revenue hist) /\
    avgGrossMargin k = Spec.mean (map grossMargin hist) /\
    avgConversionRate k = Spec.mean (map conversionRate hist) /\
    kpi_avgOrderValue k = Spec.mean (map avgOrderValue hist) /\
    monthlyGrowth k = Spec.growthPercent (revenue last) (revenue secondToLast) /\
    (List.length hist = 2%nat -> revenue secondToLast = 100 ->
     revenue last = 110 -> monthlyGrowth k = 10).
Proof.
  apply (kpi_aggregator_formula [record_with_revenue 100; record_with_revenue 110]).
  simpl. lia.
Defined.

(** C3. When no historical revenue is negative, every forecast point has
    lowerBound <= projectedRevenue <= upperBound. *)
Theorem forecast_bounds_ordered (hist : list MonthData) (fs : list ForecastPoint) :
  (forall h, In h hist -> (0 <=? revenue h) = true) ->
  forecastData hist = Some fs ->
  forall p, In p fs ->
    (forecastLow p <=? fp_revenue p) = true /\
    (fp_revenue p <=? forecastHigh p) = true.
Proof.
  intros Hnonneg Hfs p Hp.
  destruct (In_nth_error fs p Hp) as [i Hi].
  destruct (map_indexed_exn_nth_inv _ _ _ _ _ _ Hfs Hi) as (label & _ & Hf).
  simpl in Hf. unfold forecastPoint in Hf.
  destruct (nth_error hist i) as [h|] eqn:Hh; [|discriminate].
  injection Hf as <-. simpl.
  apply forecast_band, Hnonneg. exact (nth_error_In hist i Hh).
Qed.

Lemma forecast_bounds_ordered_witness :
  let p := Spec.project_point "Dec" 1000000 11 in
  (forecastLow p <=? fp_revenue p) = true /\
  (fp_revenue p <=? forecastHigh p) = true.
Proof.
  apply (forecast_bounds_ordered (flat_year 1000000)
           (map (fun '(label, i) => Spec.project_point label 1000000 i)
                (combine months (seq 0 12)))).
  - intros h Hh. simpl in Hh.
    repeat (destruct Hh as [<-|Hh]; [reflexivity|]). contradiction.
  - vm_compute. reflexivity.
  - simpl. do 11 right. left. reflexivity.
Defined.

(** C4. Along the forecast the confidence never increases with the period
    index, and it is never negative. *)
Theorem confidence_non_increasing (hist : list MonthData) fs i j p_i p_j :
  forecastData hist = Some fs ->
  nth_error fs i = Some p_i -> nth_error fs j = Some p_j ->
  (i <= j)%nat ->
  (confidence p_j <=? confidence p_i) = true /\
  (0 <=? confidence p_i) = true /\ (0 <=? confidence p_j) = true.
Proof.
  intros Hfs Hi Hj Hij.
  destruct (forecast_confidence_at _ _ _ _ Hfs Hi) as [Hi12 ->].
  destruct (forecast_confidence_at _ _ _ _ Hfs Hj) as [Hj12 ->].
  destruct (confidence_pairwise i j Hij Hj12) as [H1 H2].
  destruct (confidence_pairwise j j (le_n j) Hj12) as [_ H3].
  auto.
Qed.

Lemma confidence_non_increasing_witness :
  (confidence (Spec.project_point "Dec" 1000000 11)
     <=? confidence (Spec.project_point "Mar" 1000000 2)) = true /\
  (0 <=? confidence (Spec.project_point "Mar" 1000000 2)) = true /\
  (0 <=? confidence (Spec.project_point "Dec" 1000000 11)) = true.
Proof.
  apply (confidence_non_increasing (flat_year 1000000)
           (map (fun '(label, i) => Spec.project_point label 1000000 i)
                (combine months (seq 0 12))) 2 11).
  - vm_compute. reflexivity.
  - reflexivity.
  - reflexivity.
  - lia.
Defined.

(** C5, as stated: bear < base < bull for every positive total. For the
    least positive number, 5e-324, the three products are equal. *)
Lemma scenario_ordering_fails : ~ scenario_ordering.
Proof.
  intros H. destruct (H 0x1p-1074 eq_refl) as [H1 _].
  vm_compute in H1. discriminate.
Qed.

(** C5, amended. The three scenario amounts are totalRevenue x 0.85,
    x 1.08 and x 1.25, and bear < base < bull exactly for the totals from
    2e-323 (four times the least positive number) to
    1.6645306804280699e308 (the greatest total whose product with 1.08 is
    finite); a total of 10,000,000 gives 8,500,000, 10,800,000 and
    12,500,000. *)
Theorem scenario_engine (t : number) :
  (bearCase t = t * 0.85 /\ baseCase t = t * 1.08 /\ bullCase t = t * 1.25) /\
  (((bearCase t <? baseCase t) = true /\ (baseCase t <? bullCase t) = true) <->
   ((scenario_order_least <=? t) = true /\
    (t <=? scenario_order_greatest) = true)) /\
  (t = 10000000 ->
   bearCase t = 8500000 /\ baseCase t = 10800000 /\ bullCase t = 12500000).
Proof.
  split; [repeat split|]. split.
  - split.
    + intros [H1 H2].
      destruct (scenario_order_positive t H1) as [Ft Pt].
      pose proof (finite_is_number t Ft) as Nt.
      split; apply leb_le.
      * split; [reflexivity|]. split; [exact Nt|].
        change (val scenario_order_least) with 4%Z.
        destruct (Z_lt_le_dec (val t) 4) as [Lt|Ge]; [exfalso|exact Ge].
        destruct (scenario_order_small t Ft ltac:(lia)) as [_ S].
        rewrite (S Lt) in H1. discriminate.
      * split; [exact Nt|]. split; [reflexivity|].
        destruct (Z_lt_le_dec (val scenario_order_greatest) (val t))
          as [Gt|Le]; [exfalso|exact Le].
        apply ltb_lt in H2. destruct H2 as (_ & _ & H2).
        rewrite (scenario_base_overflow t Ft Gt) in H2.
        pose proof (val_bounds (bullCase t)). lia.
    + intros [H1 H2].
      assert (Ft : finite t = true)
        by (apply (finite_between scenario_order_least t
                     scenario_order_greatest); auto).
      assert (Fin : forall c, finite c = true -> (0 <=? c) = true ->
                finite (scenario_order_least * c) = true ->
                finite (scenario_order_greatest * c) = true ->
                finite (t * c) = true).
      { intros c Fc Hc Flo Fhi.
        apply (finite_between (scenario_order_least * c) _
                 (scenario_order_greatest * c)); try assumption.
        - apply mul_mono_l; auto.
        - apply mul_mono_l; auto. }
      apply leb_le in H1. destruct H1 as (_ & _ & H1).
      change (val scenario_order_least) with 4%Z in H1.
      destruct (Z_lt_le_dec (val t) 6) as [Small|Large].
      * destruct (scenario_order_small t Ft ltac:(lia)) as [S _].
        exact (S H1).
      * unfold bearCase, baseCase, bullCase.
        split; apply (mul_strict_wide t _ _ 6);
          try reflexivity; try assumption; apply Fin; reflexivity.
  - intros ->. repeat split.
Qed.

Lemma scenario_engine_witness :
  ((bearCase 10000000 <? baseCase 10000000) = true /\
   (baseCase 10000000 <? bullCase 10000000) = true) /\
  bearCase 10000000 = 8500000 /\ baseCase 10000000 = 10800000 /\
  bullCase 10000000 = 12500000.
Proof.
  destruct (scenario_engine 10000000) as (_ & H & C).
  split; [apply H; split; reflexivity|apply C; reflexivity].
Defined.

(** C6, as stated: on the empty sequence every KPI is zero. The three
    averages are 0/0, which is NaN. *)
Lemma kpi_empty_all_zero_fails :
  ~ (exists k, kpis [] = Some k /\ totalRevenue k = 0 /\
       avgGrossMargin k = 0 /\ avgConversionRate k = 0 /\
       kpi_avgOrderValue k = 0 /\ monthlyGrowth k = 0).
Proof.
  intros (k & Hk & _ & Hm & _).
  vm_compute in Hk. injection Hk as <-. simpl in Hm.
  apply (f_equal is_nan) in Hm. vm_compute in Hm. discriminate.
Qed.

(** C6, amended. On the empty sequence the KPI Aggregator raises no error
    and returns a total revenue of 0 and a monthly growth of 0; the three
    averages are NaN. *)
Theorem kpi_empty :
  kpis [] = Some {| totalRevenue := 0;
                    avgGrossMargin := nan;
                    avgConversionRate := nan;
                    kpi_avgOrderValue := nan;
                    monthlyGrowth := 0 |}.
Proof. vm_compute. reflexivity. Qed.

(** C7, as stated: the divisor of an evaluated division is never zero.
    With revenues 0 then 5 the division 5 / 0 is evaluated. *)
Lemma growth_divides_by_zero : ~ never_divides_by_zero.
Proof.
  intros H.
  specialize (H [record_with_revenue 0; record_with_revenue 5] 5 0
                (eq_refl _)).
  vm_compute in H. discriminate.
Qed.

(** C7, amended. The growth computation never raises an error: with fewer
    than two records the guard returns 0 and no division is evaluated;
    with two records or more the division is evaluated, its divisor being
    the revenue of the second-to-last record, whatever its value. On every
    series the generator produces the division is evaluated and its
    divisor is positive. *)
Theorem growth_guard (hist : list MonthData) :
  (exists k, kpis hist = Some k) /\
  ((List.length hist < 2)%nat ->
     monthlyGrowth_eval hist = Some GuardedZero /\
     forall k, kpis hist = Some k -> monthlyGrowth k = 0) /\
  ((2 <= List.length hist)%nat ->
     exists last secondToLast,
       nth_error hist (List.length hist - 1) = Some last /\
       nth_error hist (List.length hist - 2) = Some secondToLast /\
       monthlyGrowth_eval hist =
         Some (Divided (revenue last - revenue secondToLast)
                       (revenue secondToLast))) /\
  (forall src n, unit_draws src -> hist = fst (historicalData src n) ->
     exists a b, monthlyGrowth_eval hist = Some (Divided a b) /\
                 (0 <? b) = true).
Proof.
  assert (Hshort : (List.length hist < 2)%nat ->
                   monthlyGrowth_eval hist = Some GuardedZero).
  { intros H. unfold monthlyGrowth_eval, previousMonthData.
    rewrite array_get_before_start by (unfold array_length; lia).
    reflexivity. }
  assert (Hlong : (2 <= List.length hist)%nat ->
     exists last secondToLast,
       nth_error hist (List.length hist - 1) = Some last /\
       nth_error hist (List.length hist - 2) = Some secondToLast /\
       monthlyGrowth_eval hist =
         Some (Divided (revenue last - revenue secondToLast)
                       (revenue secondToLast))).
  { intros H.
    destruct (nth_error hist (List.length hist - 1)) as [last|] eqn:Hlast;
      [|apply nth_error_None in Hlast; lia].
    destruct (nth_error hist (List.length hist - 2)) as [prev|] eqn:Hprev;
      [|apply nth_error_None in Hprev; lia].
    exists last, prev. repeat split.
    unfold monthlyGrowth_eval, previousMonthData, currentMonthData.
    rewrite (array_get_last hist 2), (array_get_last hist 1)
      by (unfold array_length; lia).
    change (Z.to_nat 2) with 2%nat; change (Z.to_nat 1) with 1%nat.
    now rewrite Hlast, Hprev. }
  split; [|split; [|split]].
  - unfold kpis.
    destruct (Nat.lt_ge_cases (List.length hist) 2) as [H|H].
    + rewrite (Hshort H). now eexists.
    + destruct (Hlong H) as (l & p & _ & _ & ->). now eexists.
  - intros H. split; [exact (Hshort H)|].
    intros k. unfold kpis. rewrite (Hshort H). now intros [= <-].
  - exact Hlong.
  - intros src n Hsrc Hgen.
    assert (Hlen : List.length hist = 12%nat)
      by (rewrite Hgen; unfold historicalData; now rewrite map_indexed_length).
    destruct (Hlong ltac:(lia)) as (last & prev & _ & Hprev & ->).
    do 2 eexists. split; [reflexivity|].
    apply nth_error_In in Hprev. rewrite Hgen in Hprev.
    unfold historicalData in Hprev. apply map_indexed_In in Hprev.
    destruct Hprev as (label & i & n' & _ & Hi & ->).
    apply generated_revenue_positive; [|assumption].
    rewrite months_length in Hi. lia.
Qed.

(** C8. In the first half of the year the seasonality factor is
    0.8 + 0.05 x index, in the second half 1.2 - 0.03 x (index - 6); the
    holiday multiplier is 1.4 at indices 10 and 11 and 1 at every other
    index, and the revenue and the units are scaled by the product of the
    two. *)
Theorem seasonality_model (index : nat) :
  (index <= 11)%nat ->
  ((index <= 5)%nat -> seasonality index = 0.8 + 0.05 * of_nat index) /\
  ((6 <= index)%nat -> seasonality index = 1.2 - 0.03 * (of_nat index - 6)) /\
  (index = 10%nat \/ index = 11%nat -> holidayBoost index = 1.4) /\
  (index <> 10%nat -> index <> 11%nat -> holidayBoost index = 1) /\
  (forall src n label,
     let r := fst (historicalRecord label index src n) in
     revenue r = Math_round ((850000 + src n * 150000)
                             * seasonality index * holidayBoost index) /\
     units r = Math_round ((2800 + src (S n) * 500)
                           * seasonality index * holidayBoost index)).
Proof.
  intros H.
  assert (Hc : In index [0; 1; 2; 3; 4; 5; 6; 7; 8; 9; 10; 11]%nat)
    by (apply lt_12_cases; lia).
  simpl in Hc.
  repeat split.
  - intros H5.
    repeat (destruct Hc as [<-|Hc]; [first [lia | vm_compute; reflexivity]|]).
    contradiction.
  - intros H6.
    repeat (destruct Hc as [<-|Hc]; [first [lia | vm_compute; reflexivity]|]).
    contradiction.
  - intros [->| ->]; reflexivity.
  - intros H10 H11. unfold holidayBoost. simpl.
    destruct (Nat.eqb_spec index 10); [contradiction|].
    destruct (Nat.eqb_spec index 11); [contradiction|]. reflexivity.
Qed.

Lemma seasonality_model_witness :
  ((10 <= 5)%nat -> seasonality 10 = 0.8 + 0.05 * of_nat 10) /\
  ((6 <= 10)%nat -> seasonality 10 = 1.2 - 0.03 * (of_nat 10 - 6)) /\
  (10%nat = 10%nat \/ 10%nat = 11%nat -> holidayBoost 10 = 1.4) /\
  (10%nat <> 10%nat -> 10%nat <> 11%nat -> holidayBoost 10 = 1) /\
  (forall src n label,
     let r := fst (historicalRecord label 10 src n) in
     revenue r = Math_round ((850000 + src n * 150000)
                             * seasonality 10 * holidayBoost 10) /\
     units r = Math_round ((2800 + src (S n) * 500)
                           * seasonality 10 * holidayBoost 10)).
Proof.
  apply (seasonality_model 10%nat). lia.
Defined.

(** C9, as stated: the order value is scaled by the seasonal multiplier
    like the revenue and the units. In January, with every draw 0, the
    order value is 280, not 224 = round(280 x 0.8). *)
Lemma avgOrderValue_not_seasonal : ~ common_seasonality_multiplier.
Proof.
  intros H.
  destruct (H (constant_source 0) 0%nat 0%nat "Jan"%string ltac:(lia))
    as (_ & _ & Haov).
  vm_compute in Haov.
  apply (f_equal (fun x => x =? 280)) in Haov.
  vm_compute in Haov. discriminate.
Qed.

(** C9, amended. Within one generation run the revenue and the units of
    the record of period [i] are scaled by seasonalityFactor(i) and the
    holiday multiplier; the order value is round(280 + draw x 40), the same
    in every period. *)
Theorem revenue_units_share_seasonality
  (src : RandomSource) (n i : nat) (label : string) :
  (i < 12)%nat ->
  let r := fst (historicalRecord label i src n) in
  revenue r = Math_round ((850000 + src n * 150000)
                * Spec.seasonalityFactor i * Spec.holidayMultiplier i) /\
  units r = Math_round ((2800 + src (n + 1)%nat * 500)
                * Spec.seasonalityFactor i * Spec.holidayMultiplier i) /\
  avgOrderValue r = Math_round (280 + src (n + 4)%nat * 40) /\
  (forall j label', avgOrderValue (fst (historicalRecord label' j src n))
     = avgOrderValue r).
Proof.
  intros Hi r.
  assert (Hs : seasonality i = Spec.seasonalityFactor i).
  { apply lt_12_cases in Hi. simpl in Hi.
    repeat (destruct Hi as [<-|Hi]; [vm_compute; reflexivity|]).
    contradiction. }
  assert (Hh : holidayBoost i = Spec.holidayMultiplier i).
  { unfold holidayBoost, Spec.holidayMultiplier. simpl.
    now rewrite orb_false_r. }
  subst r. unfold historicalRecord, bind, Math_random, ret. simpl.
  rewrite Hs, Hh.
  replace (n + 1)%nat with (S n) by lia.
  replace (n + 4)%nat with (S (S (S (S n)))) by lia.
  repeat split.
Qed.

Lemma revenue_units_share_seasonality_witness :
  let r := fst (historicalRecord "Nov" 10 (constant_source 0.5) 0%nat) in
  revenue r = Math_round ((850000 + constant_source 0.5 0%nat * 150000)
                * Spec.seasonalityFactor 10 * Spec.holidayMultiplier 10) /\
  units r = Math_round ((2800 + constant_source 0.5 (0 + 1)%nat * 500)
                * Spec.seasonalityFactor 10 * Spec.holidayMultiplier 10) /\
  avgOrderValue r = Math_round (280 + constant_source 0.5 (0 + 4)%nat * 40) /\
  (forall j label', avgOrderValue (fst (historicalRecord label' j (constant_source 0.5) 0%nat))
     = avgOrderValue r).
Proof.
  apply (revenue_units_share_seasonality (constant_source 0.5) 0%nat 10%nat "Nov").
  lia.
Defined.

(** C10, as stated: the margins stay below 0.72 and the conversion rates
    below 0.038. With every draw 0.9999999999999998 the margin is
    0.7200000000000001 and the conversion rate is 0.038. *)
Lemma generator_bounds_not_half_open : ~ generator_bounds_half_open.
Proof.
  intros H.
  destruct (H (constant_source 0x1.ffffffffffffep-1) 0%nat) as [_ Hr].
  { intros k. split; reflexivity. }
  specialize (Hr (fst (historicalRecord "Jan" 0%nat
                        (constant_source 0x1.ffffffffffffep-1) 0%nat))).
  destruct Hr as (_ & Hgm & _).
  { left. reflexivity. }
  vm_compute in Hgm. discriminate.
Qed.

(** C10, amended. Whatever the draws of the unit interval, the generator
    returns twelve records; every gross margin lies in
    [0.64, 0.7200000000000001] and every conversion rate in [0.030, 0.038],
    both ends included, hence both lie in [0, 1]. *)
Theorem generator_bounds (src : RandomSource) (n : nat) :
  unit_draws src ->
  let h := fst (historicalData src n) in
  List.length h = 12%nat /\
  forall r, In r h ->
    ((0.64 <=? grossMargin r) = true /\
     (grossMargin r <=? 0.7200000000000001) = true) /\
    ((0.030 <=? conversionRate r) = true /\
     (conversionRate r <=? 0.038) = true) /\
    ((0 <=? grossMargin r) = true /\ (grossMargin r <=? 1) = true) /\
    ((0 <=? conversionRate r) = true /\ (conversionRate r <=? 1) = true).
Proof.
  intros Hsrc h. split.
  - unfold h, historicalData. now rewrite map_indexed_length.
  - intros r Hr. unfold h, historicalData in Hr.
    apply map_indexed_In in Hr. destruct Hr as (label & i & n' & _ & _ & ->).
    destruct (historicalRecord_margins label i src n') as [-> ->].
    destruct (Hsrc (S (S n'))) as [G0 G1].
    destruct (Hsrc (S (S (S n')))) as [C0 C1].
    apply ltb_one_leb in G1, C1.
    destruct (affine_draw_bounds 0.68 0.08 0.04 0 below_one _
                eq_refl eq_refl eq_refl eq_refl eq_refl eq_refl
                eq_refl eq_refl eq_refl eq_refl G0 G1) as [Glo Ghi].
    destruct (affine_draw_bounds 0.034 0.008 0.004 0 below_one _
                eq_refl eq_refl eq_refl eq_refl eq_refl eq_refl
                eq_refl eq_refl eq_refl eq_refl C0 C1) as [Clo Chi].
    assert (G64 : (0.64 <=? 0.68 + (src (S (S n')) * 0.08 - 0.04)) = true)
      by exact Glo.
    assert (G72 : (0.68 + (src (S (S n')) * 0.08 - 0.04) <=? 0.7200000000000001) = true)
      by exact Ghi.
    assert (C30 : (0.030 <=? 0.034 + (src (S (S (S n'))) * 0.008 - 0.004)) = true)
      by (apply (leb_trans _ (0.034 + (0 * 0.008 - 0.004))); [reflexivity|exact Clo]).
    assert (C38 : (0.034 + (src (S (S (S n'))) * 0.008 - 0.004) <=? 0.038) = true)
      by exact Chi.
    repeat split; try assumption.
    + apply (leb_trans _ 0.64); [reflexivity|assumption].
    + apply (leb_trans _ 0.7200000000000001); [assumption|reflexivity].
    + apply (leb_trans _ 0.030); [reflexivity|assumption].
    + apply (leb_trans _ 0.038); [assumption|reflexivity].
Qed.

Lemma generator_bounds_witness :
  let h := fst (historicalData (constant_source 0.5) 0%nat) in
  List.length h = 12%nat /\
  forall r, In r h ->
    ((0.64 <=? grossMargin r) = true /\
     (grossMargin r <=? 0.7200000000000001) = true) /\
    ((0.030 <=? conversionRate r) = true /\
     (conversionRate r <=? 0.038) = true) /\
    ((0 <=? grossMargin r) = true /\ (grossMargin r <=? 1) = true) /\
    ((0 <=? conversionRate r) = true /\ (conversionRate r <=? 1) = true).
Proof.
  apply (generator_bounds (constant_source 0.5) 0%nat).
  intros k. split; reflexivity.
Defined.

(** * The generator, run by run *)

Section MapIndexedRun.
Context {A B : Type} (f : A -> nat -> Rand B) (src : RandomSource) (c : nat).
Hypothesis f_draws : forall x i n, snd (f x i src n) = (n + c)%nat.

Lemma map_indexed_run (l : list A) : forall index n,
  snd (map_indexed f l index src n) = (n + c * List.length l)%nat /\
  forall k x, nth_error l k = Some x ->
    nth_error (fst (map_indexed f l index src n)) k
    = Some (fst (f x (index + k)%nat src (n + c * k)%nat)).
Proof.
  induction l as [|a l IH]; intros index n; simpl.
  - split; [lia|]. intros [|k] x; discriminate.
  - unfold bind, ret. pose proof (f_draws a index n) as Hd.
    destruct (f a index src n) as [y n1] eqn:E. simpl in Hd. subst n1.
    destruct (IH (S index) (n + c)%nat) as [Hs Hn].
    destruct (map_indexed f l (S index) src (n + c)%nat) as [ys n2].
    simpl in *. split; [lia|].
    intros [|k] x Hx; simpl in *.
    + injection Hx as <-. rewrite Nat.add_0_r, Nat.mul_0_r, Nat.add_0_r.
      now rewrite E.
    + rewrite (Hn k x Hx). do 3 f_equal; lia.
Qed.
End MapIndexedRun.

Lemma map_indexed_labels {A B : Type} (f : A -> nat -> Rand B) (g : B -> A)
  (src : RandomSource) (l : list A) :
  (forall x i n, g (fst (f x i src n)) = x) ->
  forall index n, map g (fst (map_indexed f l index src n)) = l.
Proof.
  intros Hg. induction l as [|a l IH]; intros index n; simpl; [reflexivity|].
  unfold bind, ret. pose proof (Hg a index n) as Ha.
  destruct (f a index src n) as [y n1]. simpl in Ha.
  specialize (IH (S index) n1).
  destruct (map_indexed f l (S index) src n1) as [ys n2]. simpl in *.
  now rewrite Ha, IH.
Qed.

Lemma historicalRecord_draws (label : string) (i : nat) (src : RandomSource)
  (n : nat) : snd (historicalRecord label i src n) = (n + 10)%nat.
Proof. unfold historicalRecord, bind, Math_random, ret. simpl. lia. Qed.

Lemma generateMockData_spec (src : RandomSource) (n : nat) :
  exists h f,
    generateMockData src n = (Some (h, f), (n + 120)%nat) /\
    List.length h = 12%nat /\ List.length f = 12%nat /\
    map month h = months /\
    forall i label, nth_error months i = Some label ->
      nth_error h i
      = Some (fst (historicalRecord label i src (n + 10 * i)%nat)) /\
      nth_error f i = forecastPoint h label i /\
      nth_error f i
      = Some (Spec.project_point label
                (revenue (fst (historicalRecord label i src (n + 10 * i)%nat))) i).
Proof.
  destruct (map_indexed_run historicalRecord src 10
              (fun x i m => historicalRecord_draws x i src m) months 0%nat n)
    as [Hs Hn].
  pose proof (map_indexed_length historicalRecord src months 0%nat n) as Hl.
  pose proof (map_indexed_labels historicalRecord month src months
                (fun _ _ _ => eq_refl) 0%nat n) as Hm.
  unfold generateMockData, bind, ret, historicalData.
  destruct (map_indexed historicalRecord months 0 src n) as [h n'].
  cbn [fst snd] in *. subst n'.
  destruct (map_indexed_exn_total (forecastPoint h) months 0) as [f Hf].
  { intros i x Hx. simpl.
    destruct (nth_error h i) as [r|] eqn:Hr.
    - unfold forecastPoint. rewrite Hr. discriminate.
    - apply nth_error_None in Hr.
      assert (i < 12)%nat
        by (rewrite <- months_length; apply nth_error_Some; congruence).
      rewrite ?months_length in Hl. lia. }
  fold (forecastData h) in Hf.
  exists h, f. rewrite Hf.
  destruct (map_indexed_exn_nth _ _ _ _ Hf) as [Hlf Hnf].
  rewrite ?months_length in *.
  split; [f_equal; lia|]. split; [assumption|]. split; [assumption|].
  split; [assumption|].
  intros i label Hlabel.
  split; [exact (Hn i label Hlabel)|].
  destruct (Hnf i label Hlabel) as (p & Hp & ->). simpl in Hp.
  split; [now rewrite Hp|].
  rewrite <- Hp. apply forecastPoint_spec.
  - rewrite <- months_length. apply nth_error_Some. congruence.
  - exact (Hn i label Hlabel).
Qed.

(** X1. One run of the generator: it never throws, takes exactly 120 draws,
    ten for each record in the order of the months, and returns twelve
    records labelled with the months in order and twelve forecast points,
    the forecast point of an index being the one computed from the
    historical series at that index. *)
Theorem generateMockData_run (src : RandomSource) (n : nat) :
  exists h f,
    generateMockData src n = (Some (h, f), (n + 120)%nat) /\
    List.length h = 12%nat /\ List.length f = 12%nat /\
    map month h = months /\
    forall i label, nth_error months i = Some label ->
      nth_error h i
      = Some (fst (historicalRecord label i src (n + 10 * i)%nat)) /\
      nth_error f i = forecastPoint h label i.
Proof.
  destruct (generateMockData_spec src n) as (h & f & G & Lh & Lf & M & Hn).
  exists h, f. repeat (split; [assumption|]).
  intros i label Hl. destruct (Hn i label Hl) as (H1 & H2 & _). now split.
Qed.

(** * The amounts grow with the draws *)

Lemma offset_draw_mono (base range r1 r2 : float) :
  offset_ok base range = true ->
  (0 <=? r1) = true -> (r1 <=? r2) = true -> (r2 <=? below_one) = true ->
  (base + r1 * range <=? base + r2 * range) = true /\
  finite (base + r1 * range) = true /\ finite (base + r2 * range) = true.
Proof.
  unfold offset_ok. intros Hok D0 D12 D1.
  repeat (apply andb_true_iff in Hok; destruct Hok as [Hok ?]).
  assert (D02 : (0 <=? r2) = true) by (apply (leb_trans _ r1); assumption).
  assert (D11 : (r1 <=? below_one) = true) by (apply (leb_trans _ r2); assumption).
  assert (F1 : finite r1 = true) by (apply (finite_between 0 r1 below_one); auto).
  assert (F2 : finite r2 = true) by (apply (finite_between 0 r2 below_one); auto).
  assert (Stage : forall r, finite r = true -> (0 <=? r) = true ->
            (r <=? below_one) = true ->
            finite (r * range) = true /\ finite (base + r * range) = true).
  { intros r Fr L U.
    pose proof (mul_mono_l 0 r range eq_refl Fr ltac:(assumption) ltac:(assumption) L) as L1.
    pose proof (mul_mono_l r below_one range Fr eq_refl ltac:(assumption) ltac:(assumption) U) as U1.
    assert (FA : finite (r * range) = true)
      by (apply (finite_between (0 * range) _ (below_one * range)); assumption).
    split; [exact FA|].
    apply (finite_between (base + 0 * range) _ (base + below_one * range));
      try assumption; apply add_mono_r; assumption. }
  destruct (Stage r1 F1 D0 D11) as [FA1 FB1].
  destruct (Stage r2 F2 D02 D1) as [FA2 FB2].
  split; [|split; assumption].
  apply add_mono_r; try assumption.
  apply mul_mono_l; assumption.
Qed.

Lemma scaled_draw_mono (base range s h r1 r2 : float) :
  scaling_ok base range s h = true ->
  (0 <=? r1) = true -> (r1 <=? r2) = true -> (r2 <=? below_one) = true ->
  (Math_round ((base + r1 * range) * s * h)
     <=? Math_round ((base + r2 * range) * s * h)) = true.
Proof.
  unfold scaling_ok. intros Hok D0 D12 D1.
  do 6 (apply andb_true_iff in Hok; destruct Hok as [Hok ?]).
  assert (D02 : (0 <=? r2) = true) by (apply (leb_trans _ r1); assumption).
  assert (D11 : (r1 <=? below_one) = true) by (apply (leb_trans _ r2); assumption).
  assert (Hz : (0 <=? 0) = true) by reflexivity.
  assert (Hb : (0 <=? below_one) = true) by reflexivity.
  assert (Hbb : (below_one <=? below_one) = true) by reflexivity.
  destruct (offset_draw_mono base range r1 r2 Hok D0 D12 D1) as (M12 & FB1 & FB2).
  destruct (offset_draw_mono base range 0 r1 Hok Hz D0 D11) as (M01 & F0 & _).
  destruct (offset_draw_mono base range 0 r2 Hok Hz D02 D1) as (M02 & _ & _).
  destruct (offset_draw_mono base range r1 below_one Hok D0 D11 Hbb) as (M1b & _ & Fb).
  destruct (offset_draw_mono base range r2 below_one Hok D02 D1 Hbb) as (M2b & _ & _).
  assert (Stage : forall r, finite (base + r * range) = true ->
            (base + 0 * range <=? base + r * range) = true ->
            (base + r * range <=? base + below_one * range) = true ->
            finite ((base + r * range) * s) = true).
  { intros r Fr L U.
    apply (finite_between ((base + 0 * range) * s) _ ((base + below_one * range) * s));
      try assumption; apply mul_mono_l; assumption. }
  apply Math_round_mono. apply mul_mono_l; try assumption.
  - apply Stage; assumption.
  - apply Stage; assumption.
  - apply mul_mono_l; assumption.
Qed.

Lemma rounded_draw_mono (base range r1 r2 : float) :
  offset_ok base range = true ->
  (0 <=? r1) = true -> (r1 <=? r2) = true -> (r2 <=? below_one) = true ->
  (Math_round (base + r1 * range) <=? Math_round (base + r2 * range)) = true.
Proof.
  intros Hok H0 H12 H1. apply Math_round_mono.
  now destruct (offset_draw_mono base range r1 r2 Hok H0 H12 H1).
Qed.

Lemma scaling_ok_months (base range : number) (i : nat) :
  forallb (fun i => scaling_ok base range (seasonality i) (holidayBoost i))
          (seq 0 12) = true ->
  (i < 12)%nat ->
  scaling_ok base range (seasonality i) (holidayBoost i) = true.
Proof.
  intros H Hi. rewrite forallb_forall in H. apply H. apply in_seq. lia.
Qed.

Lemma draw_monotone (i : nat) (r1 r2 : number) :
  (i < 12)%nat ->
  (0 <=? r1) = true -> (r1 <=? r2) = true -> (r2 <? 1) = true ->
  (revenue_at r1 i <=? revenue_at r2 i) = true /\
  (units_at r1 i <=? units_at r2 i) = true.
Proof.
  intros Hi H0 H12 H1. apply ltb_one_leb in H1. unfold revenue_at, units_at.
  split; apply scaled_draw_mono; try assumption;
    apply scaling_ok_months; try assumption; vm_compute; reflexivity.
Qed.

(** X2. Revenue and units each grow with their own draw. Of two runs of the
    same period, the one whose revenue draw (the first of the record) is at
    least that of the other has at least its revenue, whatever the other
    draws are; and, separately, the one whose units draw (the second) is at
    least that of the other has at least its units. *)
Theorem revenue_units_monotone (label : string) (i : nat)
  (src1 src2 : RandomSource) (n1 n2 : nat) :
  (i < 12)%nat -> unit_draws src1 -> unit_draws src2 ->
  let r1 := fst (historicalRecord label i src1 n1) in
  let r2 := fst (historicalRecord label i src2 n2) in
  ((src1 n1 <=? src2 n2) = true -> (revenue r1 <=? revenue r2) = true) /\
  ((src1 (S n1) <=? src2 (S n2)) = true -> (units r1 <=? units r2) = true).
Proof.
  intros Hi U1 U2 r1 r2. split.
  - intros Hr. destruct (U1 n1) as [A0 _], (U2 n2) as [_ A1].
    exact (proj1 (draw_monotone i (src1 n1) (src2 n2) Hi A0 Hr A1)).
  - intros Hu. destruct (U1 (S n1)) as [B0 _], (U2 (S n2)) as [_ B1].
    exact (proj2 (draw_monotone i (src1 (S n1)) (src2 (S n2)) Hi B0 Hu B1)).
Qed.

Lemma revenue_units_monotone_witness :
  let src1 : RandomSource := fun k => if Nat.even k then 0.25 else 0.5 in
  let src2 : RandomSource := fun k => if Nat.even k then 0.75 else 0.6 in
  let r1 := fst (historicalRecord "Mar" 2%nat src1 0%nat) in
  let r2 := fst (historicalRecord "Mar" 2%nat src2 10%nat) in
  (revenue r1 <=? revenue r2) = true /\ (units r1 <=? units r2) = true.
Proof.
  intros src1 src2 r1 r2.
  assert (U1 : unit_draws src1)
    by (intros k; unfold src1; destruct (Nat.even k); split; reflexivity).
  assert (U2 : unit_draws src2)
    by (intros k; unfold src2; destruct (Nat.even k); split; reflexivity).
  destruct (revenue_units_monotone "Mar" 2 src1 src2 0 10 ltac:(lia) U1 U2)
    as [Hr Hu].
  split; [apply Hr|apply Hu]; reflexivity.
Defined.

(** * Ranges of the generated fields *)

Lemma bands_table : bands_table_ok = true.
Proof. vm_compute. reflexivity. Qed.

Lemma bands_table_at (i : nat) : (i < 12)%nat ->
  fst (seasonal_band 850000 1000000 i) = revenue_at 0 i /\
  snd (seasonal_band 850000 1000000 i) = revenue_at below_one i /\
  fst (seasonal_band 2800 3300 i) = units_at 0 i /\
  snd (seasonal_band 2800 3300 i) = units_at below_one i /\
  scaling_ok 850000 150000 (seasonality i) (holidayBoost i) = true /\
  scaling_ok 2800 500 (seasonality i) (holidayBoost i) = true.
Proof.
  intros Hi. pose proof bands_table as T. unfold bands_table_ok in T.
  rewrite forallb_forall in T. specialize (T i ltac:(apply in_seq; lia)).
  repeat (apply andb_true_iff in T; destruct T as [T ?]).
  repeat split; try assumption; now apply Leibniz.eqb_spec.
Qed.

Lemma unit_draw_bounds (src : RandomSource) (k : nat) : unit_draws src ->
  (0 <=? src k) = true /\ (src k <=? below_one) = true /\
  (0 <=? 0) = true /\ (below_one <=? below_one) = true.
Proof.
  intros H. destruct (H k) as [H0 H1]. apply ltb_one_leb in H1.
  repeat split; assumption.
Qed.

(** The record of period [i] in a run that starts at draw [n]. *)
Lemma historicalData_nth (src : RandomSource) (n i : nat) (r : MonthData) :
  nth_error (fst (historicalData src n)) i = Some r ->
  (i < 12)%nat /\
  exists label, nth_error months i = Some label /\
    r = fst (historicalRecord label i src (n + 10 * i)%nat).
Proof.
  intros Hr.
  destruct (map_indexed_run historicalRecord src 10
              (fun x i m => historicalRecord_draws x i src m) months 0%nat n)
    as [_ Hn].
  pose proof (map_indexed_length historicalRecord src months 0%nat n) as Hl.
  fold historicalData in Hn, Hl. rewrite months_length in Hl.
  assert (Hi : (i < 12)%nat) by (rewrite <- Hl; apply nth_error_Some; congruence).
  split; [exact Hi|].
  destruct (nth_error months i) as [label|] eqn:Hlab;
    [|apply nth_error_None in Hlab; rewrite months_length in Hlab; lia].
  exists label. split; [reflexivity|].
  rewrite (Hn i label Hlab) in Hr. now injection Hr as <-.
Qed.

Lemma record_bands (label : string) (i : nat) (src : RandomSource) (m : nat) :
  (i < 12)%nat -> unit_draws src ->
  let r := fst (historicalRecord label i src m) in
  within (revenue r) (seasonal_band 850000 1000000 i) = true /\
  within (units r) (seasonal_band 2800 3300 i) = true.
Proof.
  intros Hi Hsrc r.
  destruct (bands_table_at i Hi) as (E1 & E2 & E3 & E4 & Ok1 & Ok2).
  destruct (unit_draw_bounds src m Hsrc) as (A0 & A1 & Z0 & B1).
  destruct (unit_draw_bounds src (S m) Hsrc) as (U0 & U1 & _ & _).
  unfold within. rewrite E1, E2, E3, E4.
  change (revenue r) with (revenue_at (src m) i).
  change (units r) with (units_at (src (S m)) i).
  unfold revenue_at, units_at.
  split; apply andb_true_iff; split; apply scaled_draw_mono; assumption.
Qed.

Lemma record_ranges (label : string) (i : nat) (src : RandomSource) (m : nat) :
  unit_draws src ->
  let r := fst (historicalRecord label i src m) in
  within (avgOrderValue r) (280, 320) = true /\
  within (organic (trafficSources r)) (15000, 18000) = true /\
  within (paid (trafficSources r)) (8000, 10000) = true /\
  within (social (trafficSources r)) (5000, 6500) = true /\
  within (email (trafficSources r)) (4000, 5000) = true /\
  within (direct (trafficSources r)) (12000, 14500) = true.
Proof.
  intros Hsrc r.
  assert (B : forall base range k, offset_ok base range = true ->
            within (Math_round (base + src k * range))
                   (Math_round (base + 0 * range),
                    Math_round (base + below_one * range)) = true).
  { intros base range k Hok.
    destruct (unit_draw_bounds src k Hsrc) as (A0 & A1 & Z0 & B1).
    unfold within. apply andb_true_iff.
    split; apply rounded_draw_mono; assumption. }
  repeat split.
  - exact (B 280 40 _ eq_refl).
  - exact (B 15000 3000 _ eq_refl).
  - exact (B 8000 2000 _ eq_refl).
  - exact (B 5000 1500 _ eq_refl).
  - exact (B 4000 1000 _ eq_refl).
  - exact (B 12000 2500 _ eq_refl).
Qed.

(** X3. The fields that are not scaled: in every run the order value lies in
    [280, 320] and the five traffic counts in [15000, 18000],
    [8000, 10000], [5000, 6500], [4000, 5000] and [12000, 14500]. *)
Theorem generated_unscaled_ranges (src : RandomSource) (n : nat) (r : MonthData) :
  unit_draws src ->
  In r (fst (historicalData src n)) ->
  within (avgOrderValue r) (280, 320) = true /\
  within (organic (trafficSources r)) (15000, 18000) = true /\
  within (paid (trafficSources r)) (8000, 10000) = true /\
  within (social (trafficSources r)) (5000, 6500) = true /\
  within (email (trafficSources r)) (4000, 5000) = true /\
  within (direct (trafficSources r)) (12000, 14500) = true.
Proof.
  intros Hsrc Hr. unfold historicalData in Hr.
  apply map_indexed_In in Hr. destruct Hr as (label & i & m & _ & _ & ->).
  now apply record_ranges.
Qed.

Lemma generated_unscaled_ranges_witness :
  let r := fst (historicalRecord "Jan" 0%nat (constant_source 0.5) 0%nat) in
  within (avgOrderValue r) (280, 320) = true /\
  within (organic (trafficSources r)) (15000, 18000) = true /\
  within (paid (trafficSources r)) (8000, 10000) = true /\
  within (social (trafficSources r)) (5000, 6500) = true /\
  within (email (trafficSources r)) (4000, 5000) = true /\
  within (direct (trafficSources r)) (12000, 14500) = true.
Proof.
  apply (generated_unscaled_ranges (constant_source 0.5) 0%nat).
  - intros k. split; reflexivity.
  - left. reflexivity.
Defined.

(** A rounded number between two finite numbers is an integer. *)
Lemma Math_round_integer (x : float) (band : number * number) :
  finite (fst band) = true -> finite (snd band) = true ->
  within (Math_round x) band = true -> is_integer (Math_round x) = true.
Proof.
  intros Flo Fhi W. unfold within in W. apply andb_true_iff in W.
  destruct W as [L U].
  assert (F : finite (Math_round x) = true)
    by (apply (finite_between (fst band) _ (snd band)); assumption).
  unfold is_integer. rewrite F. simpl.
  assert (N : is_number x = true).
  { destruct (is_number x) eqn:E; [reflexivity|exfalso].
    unfold is_number in E. apply negb_false_iff in E.
    apply finite_is_number in F. unfold is_number, Math_round in F.
    destruct (Prim2SF x) eqn:P; try discriminate.
    rewrite P in F. discriminate. }
  destruct (Math_round_val x N) as [_ V]. rewrite V. unfold roundZ.
  apply Z.eqb_eq. apply Z.mod_mul.
  pose proof (pow2_pos 1074 ltac:(lia)). lia.
Qed.

(** X4. Every amount the generator rounds is a whole number. *)
Theorem generated_amounts_are_integers (src : RandomSource) (n : nat) (r : MonthData) :
  unit_draws src ->
  In r (fst (historicalData src n)) ->
  is_integer (revenue r) = true /\ is_integer (units r) = true /\
  is_integer (avgOrderValue r) = true /\
  is_integer (organic (trafficSources r)) = true /\
  is_integer (paid (trafficSources r)) = true /\
  is_integer (social (trafficSources r)) = true /\
  is_integer (email (trafficSources r)) = true /\
  is_integer (direct (trafficSources r)) = true.
Proof.
  intros Hsrc Hr.
  destruct (In_nth_error _ _ Hr) as [i Hi].
  destruct (historicalData_nth src n i r Hi) as (Hi12 & label & _ & ->).
  destruct (record_bands label i src (n + 10 * i)%nat Hi12 Hsrc) as [B1 B2].
  destruct (record_ranges label i src (n + 10 * i)%nat Hsrc)
    as (R1 & R2 & R3 & R4 & R5 & R6).
  assert (F1 : finite (fst (seasonal_band 850000 1000000 i)) = true /\
               finite (snd (seasonal_band 850000 1000000 i)) = true /\
               finite (fst (seasonal_band 2800 3300 i)) = true /\
               finite (snd (seasonal_band 2800 3300 i)) = true).
  { apply lt_12_cases in Hi12. simpl in Hi12.
    repeat (destruct Hi12 as [<-|Hi12]; [repeat split; reflexivity|]).
    contradiction. }
  destruct F1 as (F1 & F2 & F3 & F4).
  split; [exact (Math_round_integer _ _ F1 F2 B1)|].
  split; [exact (Math_round_integer _ _ F3 F4 B2)|].
  split; [exact (Math_round_integer _ (280, 320) eq_refl eq_refl R1)|].
  split; [exact (Math_round_integer _ (15000, 18000) eq_refl eq_refl R2)|].
  split; [exact (Math_round_integer _ (8000, 10000) eq_refl eq_refl R3)|].
  split; [exact (Math_round_integer _ (5000, 6500) eq_refl eq_refl R4)|].
  split; [exact (Math_round_integer _ (4000, 5000) eq_refl eq_refl R5)|].
  exact (Math_round_integer _ (12000, 14500) eq_refl eq_refl R6).
Qed.

Lemma generated_amounts_are_integers_witness :
  let r := fst (historicalRecord "Jan" 0%nat (constant_source 0.5) 0%nat) in
  is_integer (revenue r) = true /\ is_integer (units r) = true /\
  is_integer (avgOrderValue r) = true /\
  is_integer (organic (trafficSources r)) = true /\
  is_integer (paid (trafficSources r)) = true /\
  is_integer (social (trafficSources r)) = true /\
  is_integer (email (trafficSources r)) = true /\
  is_integer (direct (trafficSources r)) = true.
Proof.
  apply (generated_amounts_are_integers (constant_source 0.5) 0%nat).
  - intros k. split; reflexivity.
  - left. reflexivity.
Defined.

(** * Whole numbers *)

Lemma to_int_spec (x : number) (z : Z) : to_int x = Some z ->
  is_integer x = true /\ int_of x = z.
Proof.
  unfold to_int, is_integer, int_of, finite, val.
  pose proof (Prim2SF_valid x) as V.
  pose proof (pow2_pos 1074 ltac:(lia)) as Hp.
  destruct (Prim2SF x) as [s|s| |s m e]; try discriminate.
  - intros [= <-]. split; reflexivity.
  - destruct (valid_finite_inv s m e V) as (_ & He & _).
    rewrite F2Z_finite.
    assert (Es : forall k, signed s (Z.pos m * k)
                           = ((if s then Z.neg m else Z.pos m) * k)%Z)
      by (intros k; destruct s; unfold signed; lia).
    rewrite Es. set (n := if s then Z.neg m else Z.pos m).
    destruct (Z.leb_spec 0 e) as [P|N].
    + intros [= <-]. rewrite (pow2_add e 1074), Z.mul_assoc by lia.
      rewrite Z.mod_mul, Z.div_mul by lia. split; reflexivity.
    + destruct (Z.eqb_spec (Z.pos m mod 2 ^ (- e)) 0) as [M|M]; [|discriminate].
      intros [= <-].
      pose proof (pow2_pos (- e) ltac:(lia)) as Pe.
      assert (En : (n = n / 2 ^ (- e) * 2 ^ (- e))%Z).
      { assert (Hm : (n mod 2 ^ (- e) = 0)%Z).
        { unfold n. destruct s; [|exact M].
          change (Z.neg m) with (- Z.pos m)%Z.
          apply Z.mod_divide; [lia|]. apply Z.divide_opp_r.
          apply Z.mod_divide; [lia|exact M]. }
        pose proof (Z.div_mod n (2 ^ (- e)) ltac:(lia)). lia. }
      assert (E : (n * 2 ^ (e + 1074) = n / 2 ^ (- e) * 2 ^ 1074)%Z).
      { rewrite En at 1. rewrite <- Z.mul_assoc, <- pow2_add by lia.
        do 2 f_equal. lia. }
      rewrite E, Z.mod_mul, Z.div_mul by lia. split; reflexivity.
Qed.

Lemma is_integer_val (x : number) : is_integer x = true ->
  finite x = true /\ val x = (int_of x * 2 ^ 1074)%Z.
Proof.
  unfold is_integer, int_of. intros H. apply andb_true_iff in H.
  destruct H as [F M]. split; [exact F|]. apply Z.eqb_eq in M.
  pose proof (pow2_pos 1074 ltac:(lia)) as Hp.
  pose proof (Z.div_mod (val x) (2 ^ 1074) ltac:(lia)). lia.
Qed.

Lemma integer_value_bounds (q : Z) : (- 2 ^ 53 < q < 2 ^ 53)%Z ->
  (- huge < q * 2 ^ 1074 < huge)%Z.
Proof.
  intros Hq. unfold huge. change 2098%Z with (1024 + 1074)%Z.
  rewrite (pow2_add 1024 1074) by lia.
  pose proof (pow2_pos 1074 ltac:(lia)) as Hp.
  pose proof (pow2_lt 53 1024 ltac:(lia)) as Hb.
  set (u := (2 ^ 1074)%Z) in *. set (b := (2 ^ 1024)%Z) in *.
  clearbody u b.
  split.
  - rewrite <- Z.mul_opp_l. apply Z.mul_lt_mono_pos_r; lia.
  - apply Z.mul_lt_mono_pos_r; lia.
Qed.

Lemma is_integer_of_val (x : number) (q : Z) :
  is_number x = true -> val x = (q * 2 ^ 1074)%Z ->
  (- 2 ^ 53 < q < 2 ^ 53)%Z ->
  is_integer x = true /\ int_of x = q.
Proof.
  intros N V Hq. pose proof (pow2_pos 1074 ltac:(lia)) as Hp.
  pose proof (integer_value_bounds q Hq) as Hb.
  unfold is_integer, int_of. rewrite V.
  rewrite Z.mod_mul, Z.div_mul by lia. simpl.
  split; [|reflexivity]. rewrite andb_true_r.
  apply finite_of_val; [exact N|]. now rewrite V.
Qed.

Lemma within_int (x lo hi : number) :
  is_integer lo = true -> is_integer hi = true ->
  within x (lo, hi) = true ->
  (int_of lo <= int_of x <= int_of hi)%Z.
Proof.
  intros Il Ih W. unfold within in W. simpl in W.
  apply andb_true_iff in W. destruct W as [L U].
  apply leb_le in L, U. destruct L as (_ & _ & L), U as (_ & _ & U).
  destruct (is_integer_val lo Il) as [_ Vl].
  destruct (is_integer_val hi Ih) as [_ Vh].
  pose proof (pow2_pos 1074 ltac:(lia)) as Hp.
  unfold int_of at 2 3. split.
  - apply Z.div_le_lower_bound; lia.
  - apply Z.div_le_upper_bound; lia.
Qed.

Lemma int_within (x lo hi : number) :
  is_integer x = true -> is_integer lo = true -> is_integer hi = true ->
  (int_of lo <= int_of x <= int_of hi)%Z ->
  within x (lo, hi) = true.
Proof.
  intros Ix Il Ih H.
  destruct (is_integer_val x Ix) as [Fx Vx].
  destruct (is_integer_val lo Il) as [Fl Vl].
  destruct (is_integer_val hi Ih) as [Fh Vh].
  pose proof (pow2_pos 1074 ltac:(lia)) as Hp.
  unfold within. simpl. apply andb_true_iff.
  split; apply leb_le; (split; [|split]); try (now apply finite_is_number);
    rewrite ?Vx, ?Vl, ?Vh; apply Z.mul_le_mono_nonneg_r; lia.
Qed.

(** Whole numbers add and subtract without rounding while the result
    stays below 2^53 in magnitude. *)
Lemma add_integers (a b : number) :
  is_integer a = true -> is_integer b = true ->
  (- 2 ^ 53 < int_of a + int_of b < 2 ^ 53)%Z ->
  is_integer (a + b) = true /\ int_of (a + b) = (int_of a + int_of b)%Z.
Proof.
  intros Ia Ib H.
  destruct (is_integer_val a Ia) as [Fa Va].
  destruct (is_integer_val b Ib) as [Fb Vb].
  destruct (add_val a b Fa Fb) as [N V].
  apply is_integer_of_val; [exact N| |exact H].
  rewrite V, Va, Vb, <- Z.mul_add_distr_r. now apply R_integer.
Qed.

Lemma sub_integers (a b : number) :
  is_integer a = true -> is_integer b = true ->
  (- 2 ^ 53 < int_of a - int_of b < 2 ^ 53)%Z ->
  is_integer (a - b) = true /\ int_of (a - b) = (int_of a - int_of b)%Z.
Proof.
  intros Ia Ib H.
  destruct (is_integer_val a Ia) as [Fa Va].
  destruct (is_integer_val b Ib) as [Fb Vb].
  destruct (sub_val a b Fa Fb) as [N V].
  apply is_integer_of_val; [exact N| |exact H].
  rewrite V, Va, Vb, <- Z.mul_sub_distr_r. now apply R_integer.
Qed.

(** A left-to-right sum of whole numbers that are at least zero is exact
    while it stays below 2^53. *)
Lemma fold_sum_integers (xs : list number) : forall acc,
  is_integer acc = true -> (0 <= int_of acc)%Z ->
  Forall (fun x => is_integer x = true /\ (0 <= int_of x)%Z) xs ->
  (int_of acc + fold_right Z.add 0%Z (map int_of xs) < 2 ^ 53)%Z ->
  is_integer (fold_left PrimFloat.add xs acc) = true /\
  int_of (fold_left PrimFloat.add xs acc)
  = (int_of acc + fold_right Z.add 0%Z (map int_of xs))%Z.
Proof.
  induction xs as [|x xs IH]; intros acc Ia Pa Hxs Hs; simpl in *.
  - split; [exact Ia|lia].
  - inversion Hxs as [|? ? [Ix Px] Hxs']; subst.
    assert (Pos : (0 <= fold_right Z.add 0 (map int_of xs))%Z).
    { clear -Hxs'. induction Hxs' as [|y ys [_ Py] _ IHy]; simpl; lia. }
    destruct (add_integers acc x Ia Ix ltac:(lia)) as [I E].
    destruct (IH (acc + x) I ltac:(lia) Hxs' ltac:(lia)) as [I' E'].
    split; [exact I'|]. rewrite E', E. lia.
Qed.

(** The series of a run, record by record. *)
Lemma historicalData_series (src : RandomSource) (n : nat) :
  fst (historicalData src n)
  = map (fun i => fst (historicalRecord (nth i months EmptyString) i src
                         (n + 10 * i)%nat))
        (seq 0 12).
Proof.
  apply nth_error_ext. intros i.
  destruct (map_indexed_run historicalRecord src 10
              (fun x i m => historicalRecord_draws x i src m) months 0%nat n)
    as [_ Hn].
  pose proof (map_indexed_length historicalRecord src months 0%nat n) as Hl.
  fold historicalData in Hn, Hl. rewrite months_length in Hl.
  destruct (Nat.lt_ge_cases i 12) as [Hi|Hi].
  - rewrite (Hn i (nth i months EmptyString)).
    + rewrite nth_error_map, nth_error_seq.
      destruct (Nat.ltb_spec i 12) as [_|?]; [|lia]. reflexivity.
    + apply nth_error_nth'. now rewrite months_length.
  - transitivity (@None MonthData).
    + apply nth_error_None. lia.
    + symmetry. apply nth_error_None. rewrite length_map, length_seq. exact Hi.
Qed.

Lemma band_table_eq :
  map (fun i => map to_int (band_ends i)) (seq 0 12) = map band_entry band_table.
Proof. vm_compute. reflexivity. Qed.

Lemma table_lookup {A} (f : nat -> A) (t : list A) (n i : nat) :
  map f (seq 0 n) = t -> (i < n)%nat -> nth_error t i = Some (f i).
Proof.
  intros <- Hi. rewrite nth_error_map, nth_error_seq.
  destruct (Nat.ltb_spec i n); [reflexivity|lia].
Qed.

(** The ends of the bands of a period are the whole numbers of the
    table. *)
Lemma band_ints (i : nat) : (i < 12)%nat ->
  exists a b c d, nth_error band_table i = Some (a, b, c, d) /\
    to_int (fst (seasonal_band 850000 1000000 i)) = Some a /\
    to_int (snd (seasonal_band 850000 1000000 i)) = Some b /\
    to_int (fst (seasonal_band 2800 3300 i)) = Some c /\
    to_int (snd (seasonal_band 2800 3300 i)) = Some d.
Proof.
  intros Hi. pose proof (table_lookup _ _ 12 i band_table_eq Hi) as H.
  rewrite nth_error_map in H.
  destruct (nth_error band_table i) as [[[[a b] c] d]|]; [|discriminate].
  exists a, b, c, d. split; [reflexivity|].
  cbn [option_map band_entry map band_ends] in H.
  injection H as H1 H2 H3 H4. auto.
Qed.

Lemma within_to_int (x lo hi : number) (l h : Z) :
  to_int lo = Some l -> to_int hi = Some h ->
  within x (lo, hi) = true -> (l <= int_of x <= h)%Z.
Proof.
  intros Tl Th W.
  destruct (to_int_spec lo l Tl) as [Il El].
  destruct (to_int_spec hi h Th) as [Ih Eh].
  rewrite <- El, <- Eh. now apply within_int.
Qed.

Lemma to_int_within (x lo hi : number) (l h : Z) :
  is_integer x = true -> to_int lo = Some l -> to_int hi = Some h ->
  (l <= int_of x <= h)%Z -> within x (lo, hi) = true.
Proof.
  intros Ix Tl Th H.
  destruct (to_int_spec lo l Tl) as [Il El].
  destruct (to_int_spec hi h Th) as [Ih Eh].
  apply int_within; try assumption. now rewrite El, Eh.
Qed.

(** The revenue and the units of period [i] as whole numbers within the
    bounds of the table. *)
Lemma record_amounts (label : string) (i : nat) (src : RandomSource)
  (m : nat) :
  (i < 12)%nat -> unit_draws src ->
  let r := fst (historicalRecord label i src m) in
  exists a b c d, nth_error band_table i = Some (a, b, c, d) /\
    is_integer (revenue r) = true /\ (a <= int_of (revenue r) <= b)%Z /\
    is_integer (units r) = true /\ (c <= int_of (units r) <= d)%Z.
Proof.
  intros Hi Hsrc r.
  destruct (band_ints i Hi) as (a & b & c & d & T & Ta & Tb & Tc & Td).
  destruct (record_bands label i src m Hi Hsrc) as [B1 B2].
  fold r in B1, B2.
  exists a, b, c, d. split; [exact T|].
  assert (F : forall x z, to_int x = Some z -> finite x = true).
  { intros x z Hx. destruct (to_int_spec x z Hx) as [I _].
    now destruct (is_integer_val x I). }
  split; [|split; [|split]].
  - exact (Math_round_integer _ _ (F _ _ Ta) (F _ _ Tb) B1).
  - apply (within_to_int _ _ _ _ _ Ta Tb). now destruct (seasonal_band _ _ i).
  - exact (Math_round_integer _ _ (F _ _ Tc) (F _ _ Td) B2).
  - apply (within_to_int _ _ _ _ _ Tc Td). now destruct (seasonal_band _ _ i).
Qed.

(** X5. The seasonal bands: in every run the revenue of period [i] lies between
    round(850,000 x k) and round(1,000,000 x k) and the units between
    round(2,800 x k) and round(3,300 x k), where k is the seasonality
    factor times the holiday multiplier of the period. As whole numbers
    these are the bounds of [band_table]: 680,000 to 800,000 and 2,240 to
    2,640 in January, up to 1,285,200 to 1,512,000 and 4,234 to 4,990 in
    November. *)
Theorem generated_seasonal_bands (src : RandomSource) (n i : nat) (r : MonthData) :
  unit_draws src ->
  nth_error (fst (historicalData src n)) i = Some r ->
  within (revenue r) (seasonal_band 850000 1000000 i) = true /\
  within (units r) (seasonal_band 2800 3300 i) = true /\
  exists a b c d, nth_error band_table i = Some (a, b, c, d) /\
    (a <= int_of (revenue r) <= b)%Z /\ (c <= int_of (units r) <= d)%Z.
Proof.
  intros Hsrc Hr.
  destruct (historicalData_nth src n i r Hr) as (Hi & label & _ & ->).
  destruct (record_bands label i src (n + 10 * i)%nat Hi Hsrc) as [B1 B2].
  destruct (record_amounts label i src (n + 10 * i)%nat Hi Hsrc)
    as (a & b & c & d & T & _ & Ba & _ & Bc).
  split; [exact B1|]. split; [exact B2|].
  exists a, b, c, d. auto.
Qed.

Lemma generated_seasonal_bands_witness :
  let src := constant_source 0.5 in
  let r := fst (historicalRecord "Nov" 10%nat src 100%nat) in
  within (revenue r) (seasonal_band 850000 1000000 10) = true /\
  within (units r) (seasonal_band 2800 3300 10) = true /\
  exists a b c d, nth_error band_table 10 = Some (a, b, c, d) /\
    (a <= int_of (revenue r) <= b)%Z /\ (c <= int_of (units r) <= d)%Z.
Proof.
  apply (generated_seasonal_bands (constant_source 0.5) 0%nat 10).
  - intros k. split; reflexivity.
  - reflexivity.
Defined.

Lemma int_ltb (a b : number) :
  is_integer a = true -> is_integer b = true ->
  (int_of a < int_of b)%Z -> (a <? b) = true.
Proof.
  intros Ia Ib H.
  destruct (is_integer_val a Ia) as [Fa Va].
  destruct (is_integer_val b Ib) as [Fb Vb].
  pose proof (pow2_pos 1074 ltac:(lia)) as Hp.
  apply ltb_lt. split; [now apply finite_is_number|].
  split; [now apply finite_is_number|].
  rewrite Va, Vb. apply Z.mul_lt_mono_pos_r; assumption.
Qed.

(** In the table the peak season lies above every other month, and every
    entry within the overall bounds. *)
Lemma band_table_peak (i j : nat) (a b c d a' b' c' d' : Z) :
  nth_error band_table i = Some (a, b, c, d) ->
  nth_error band_table j = Some (a', b', c', d') ->
  (i < 10)%nat -> (10 <= j)%nat -> (b < a')%Z /\ (d < c')%Z.
Proof.
  intros Hi Hj Li Lj.
  assert (U : (b <= 1200000 /\ d <= 3960)%Z).
  { clear Hj Lj. unfold band_table in Hi.
    do 10 (destruct i as [|i];
           [cbn in Hi; injection Hi as <- <- <- <-; lia|]).
    lia. }
  assert (L : (1249500 <= a' /\ 4116 <= c')%Z).
  { clear Hi Li U. unfold band_table in Hj.
    do 10 (destruct j as [|j]; [lia|]).
    destruct j as [|j]; [cbn in Hj; injection Hj as <- <- <- <-; lia|].
    destruct j as [|j]; [cbn in Hj; injection Hj as <- <- <- <-; lia|].
    cbn in Hj. destruct j; discriminate. }
  lia.
Qed.

Lemma band_table_bounds (i : nat) (a b c d : Z) :
  nth_error band_table i = Some (a, b, c, d) ->
  (680000 <= a /\ b <= 1512000 /\ 2240 <= c /\ d <= 4990)%Z.
Proof.
  intros Hi. apply nth_error_In in Hi. unfold band_table in Hi.
  simpl in Hi.
  repeat (destruct Hi as [Hi|Hi]; [injection Hi as <- <- <- <-; lia|]).
  contradiction.
Qed.

(** X6. Peak season: in every run November and December each bring more
    revenue and more units than any of the months January to October. *)
Theorem holiday_months_dominate (src : RandomSource) (n i j : nat)
  (ri rj : MonthData) :
  unit_draws src ->
  nth_error (fst (historicalData src n)) i = Some ri ->
  nth_error (fst (historicalData src n)) j = Some rj ->
  (i < 10)%nat -> (10 <= j)%nat ->
  (revenue ri <? revenue rj) = true /\ (units ri <? units rj) = true.
Proof.
  intros Hsrc Hri Hrj Hi Hj.
  destruct (historicalData_nth src n i ri Hri) as (Hi12 & li & _ & ->).
  destruct (historicalData_nth src n j rj Hrj) as (Hj12 & lj & _ & ->).
  destruct (record_amounts li i src (n + 10 * i)%nat Hi12 Hsrc)
    as (a & b & c & d & Ti & Ii & Bi & Ki & Vi).
  destruct (record_amounts lj j src (n + 10 * j)%nat Hj12 Hsrc)
    as (a' & b' & c' & d' & Tj & Ij & Bj & Kj & Vj).
  destruct (band_table_peak i j _ _ _ _ _ _ _ _ Ti Tj Hi Hj) as [P1 P2].
  split; apply int_ltb; try assumption; lia.
Qed.

Lemma holiday_months_dominate_witness :
  let src := constant_source 0.5 in
  let ri := fst (historicalRecord "Jul" 6%nat src 60%nat) in
  let rj := fst (historicalRecord "Dec" 11%nat src 110%nat) in
  (revenue ri <? revenue rj) = true /\ (units ri <? units rj) = true.
Proof.
  apply (holiday_months_dominate (constant_source 0.5) 0%nat 6 11).
  - intros k. split; reflexivity.
  - reflexivity.
  - reflexivity.
  - lia.
  - lia.
Defined.

(** * Total revenue and scenarios on generated data *)

Lemma monthlyGrowth_eval_long (hist : list MonthData) :
  (2 <= List.length hist)%nat ->
  exists last secondToLast,
    nth_error hist (List.length hist - 1) = Some last /\
    nth_error hist (List.length hist - 2) = Some secondToLast /\
    monthlyGrowth_eval hist =
      Some (Divided (revenue last - revenue secondToLast)
                    (revenue secondToLast)).
Proof.
  intros H.
  destruct (nth_error hist (List.length hist - 1)) as [last|] eqn:Hlast;
    [|apply nth_error_None in Hlast; lia].
  destruct (nth_error hist (List.length hist - 2)) as [prev|] eqn:Hprev;
    [|apply nth_error_None in Hprev; lia].
  exists last, prev. repeat split.
  unfold monthlyGrowth_eval, previousMonthData, currentMonthData.
  rewrite (array_get_last hist 2), (array_get_last hist 1)
    by (unfold array_length; lia).
  change (Z.to_nat 2) with 2%nat; change (Z.to_nat 1) with 1%nat.
  now rewrite Hlast, Hprev.
Qed.

Lemma historicalData_length (src : RandomSource) (n : nat) :
  List.length (fst (historicalData src n)) = 12%nat.
Proof. unfold historicalData. now rewrite map_indexed_length. Qed.

Ltac amounts_fact Hsrc label src m i :=
  let T := fresh "T" in
  destruct (record_amounts label i src m ltac:(lia) Hsrc)
    as (? & ? & ? & ? & T & ? & ? & ? & ?);
  unfold band_table in T; cbn in T; injection T as <- <- <- <-.

(** The sum of the twelve revenues of a run. *)
Lemma generated_total (src : RandomSource) (n : nat) :
  unit_draws src ->
  let h := fst (historicalData src n) in
  is_integer (reduce_sum revenue h) = true /\
  int_of (reduce_sum revenue h)
  = fold_right Z.add 0%Z (map (fun r => int_of (revenue r)) h) /\
  (11179200 <= int_of (reduce_sum revenue h) <= 13152000)%Z.
Proof.
  intros Hsrc h. subst h.
  rewrite reduce_sum_map, <- (map_map revenue int_of).
  rewrite historicalData_series.
  change (seq 0 12) with [0; 1; 2; 3; 4; 5; 6; 7; 8; 9; 10; 11]%nat.
  cbn [map].
  amounts_fact Hsrc (nth 0 months EmptyString) src (n + 10 * 0)%nat 0%nat.
  amounts_fact Hsrc (nth 1 months EmptyString) src (n + 10 * 1)%nat 1%nat.
  amounts_fact Hsrc (nth 2 months EmptyString) src (n + 10 * 2)%nat 2%nat.
  amounts_fact Hsrc (nth 3 months EmptyString) src (n + 10 * 3)%nat 3%nat.
  amounts_fact Hsrc (nth 4 months EmptyString) src (n + 10 * 4)%nat 4%nat.
  amounts_fact Hsrc (nth 5 months EmptyString) src (n + 10 * 5)%nat 5%nat.
  amounts_fact Hsrc (nth 6 months EmptyString) src (n + 10 * 6)%nat 6%nat.
  amounts_fact Hsrc (nth 7 months EmptyString) src (n + 10 * 7)%nat 7%nat.
  amounts_fact Hsrc (nth 8 months EmptyString) src (n + 10 * 8)%nat 8%nat.
  amounts_fact Hsrc (nth 9 months EmptyString) src (n + 10 * 9)%nat 9%nat.
  amounts_fact Hsrc (nth 10 months EmptyString) src (n + 10 * 10)%nat 10%nat.
  amounts_fact Hsrc (nth 11 months EmptyString) src (n + 10 * 11)%nat 11%nat.
  repeat match goal with
  | H : is_integer (units _) = true |- _ => clear H
  | H : (_ <= int_of (units _) <= _)%Z |- _ => clear H
  end.
  repeat match goal with
  | H : is_integer (revenue ?r) = true |- _ =>
      let x := fresh "x" in
      set (x := revenue r) in *; clearbody x
  end.
  match goal with
  | |- context [Spec.sum ?l] =>
      destruct (fold_sum_integers l 0 eq_refl (Z.le_refl 0)) as [I E]
  end.
  - repeat (apply Forall_cons; [split; [assumption|lia]|]). apply Forall_nil.
  - cbn [map fold_right]. change (int_of 0) with 0%Z. lia.
  - unfold Spec.sum. split; [exact I|]. split; [exact E|].
    rewrite E. cbn [map fold_right]. change (int_of 0) with 0%Z. lia.
Qed.

(** X7. Total revenue: on every generated series the KPI computation returns,
    the total is the exact sum of the twelve revenues (a whole number, no
    rounding in the accumulation), and it lies between 11,179,200 and
    13,152,000. *)
Theorem generated_total_revenue (src : RandomSource) (n : nat) :
  unit_draws src ->
  let h := fst (historicalData src n) in
  exists k, kpis h = Some k /\
    is_integer (totalRevenue k) = true /\
    int_of (totalRevenue k)
    = fold_right Z.add 0%Z (map (fun r => int_of (revenue r)) h) /\
    within (totalRevenue k) (11179200, 13152000) = true.
Proof.
  intros Hsrc h.
  destruct (generated_total src n Hsrc) as (I & E & B). fold h in I, E, B.
  destruct (monthlyGrowth_eval_long h) as (l & p & _ & _ & G).
  { subst h. rewrite historicalData_length. lia. }
  unfold kpis. rewrite G. eexists. split; [reflexivity|].
  cbn [totalRevenue]. split; [exact I|]. split; [exact E|].
  now apply (to_int_within _ 11179200 13152000 _ _ I eq_refl eq_refl).
Qed.

Lemma generated_total_revenue_witness :
  let h := fst (historicalData (constant_source 0.5) 0%nat) in
  exists k, kpis h = Some k /\
    is_integer (totalRevenue k) = true /\
    int_of (totalRevenue k)
    = fold_right Z.add 0%Z (map (fun r => int_of (revenue r)) h) /\
    within (totalRevenue k) (11179200, 13152000) = true.
Proof.
  apply (generated_total_revenue (constant_source 0.5) 0%nat).
  intros k. split; reflexivity.
Defined.

(** X8. Scenario planning on generated data: for the total revenue of every
    generated series the three scenario amounts are finite and strictly
    ordered, bear < base < bull. *)
Theorem generated_scenarios_ordered (src : RandomSource) (n : nat) :
  unit_draws src ->
  let t := reduce_sum revenue (fst (historicalData src n)) in
  finite (bearCase t) = true /\ finite (baseCase t) = true /\
  finite (bullCase t) = true /\
  (bearCase t <? baseCase t) = true /\ (baseCase t <? bullCase t) = true.
Proof.
  intros Hsrc t.
  destruct (generated_total src n Hsrc) as (I & _ & B). fold t in I, B.
  destruct (is_integer_val t I) as [Ft Vt].
  pose proof (to_int_within t 11179200 13152000 _ _ I eq_refl eq_refl B) as W.
  unfold within in W. simpl in W. apply andb_true_iff in W. destruct W as [L U].
  assert (H1 : (1 <=? t) = true) by (apply (leb_trans 1 11179200 t); auto).
  assert (Fin : forall c, finite c = true -> (0 <=? c) = true ->
            finite (11179200 * c) = true -> finite (13152000 * c) = true ->
            finite (t * c) = true).
  { intros c Fc Hc Flo Fhi.
    apply (finite_between (11179200 * c) _ (13152000 * c)); try assumption.
    - apply mul_mono_l; auto.
    - apply mul_mono_l; auto. }
  unfold bearCase, baseCase, bullCase.
  split; [apply Fin; reflexivity|]. split; [apply Fin; reflexivity|].
  split; [apply Fin; reflexivity|].
  split; apply mul_strict; try reflexivity; try assumption;
    apply Fin; reflexivity.
Qed.

Lemma generated_scenarios_ordered_witness :
  let t := reduce_sum revenue (fst (historicalData (constant_source 0.5) 0%nat)) in
  finite (bearCase t) = true /\ finite (baseCase t) = true /\
  finite (bullCase t) = true /\
  (bearCase t <? baseCase t) = true /\ (baseCase t <? bullCase t) = true.
Proof.
  apply (generated_scenarios_ordered (constant_source 0.5) 0%nat).
  intros k. split; reflexivity.
Defined.

(** * Binary64 arithmetic: division is monotone *)

Section QuotientFacts.

Local Open Scope Z_scope.

Lemma place_code_bounds (r D : Z) : 0 <= place_code r D <= 3.
Proof.
  unfold place_code. destruct (r =? 0); [lia|].
  destruct (2 * r ?= D); lia.
Qed.

(** Comparing [q + r / D] with a half-integer [h / 2] is comparing the
    sticky quotient with [2 h]. *)
Lemma sticky_compare (q r D h : Z) : 0 < D -> 0 <= r < D ->
  (2 * (q * D + r) ?= h * D) = (4 * q + place_code r D ?= 2 * h).
Proof.
  intros HD Hr. unfold place_code.
  destruct (Z.eqb_spec r 0) as [->|Nr].
  - destruct (Z.compare_spec (4 * q + 0) (2 * h)) as [E|L|G].
    + apply Z.compare_eq_iff. nia.
    + apply Z.compare_lt_iff. nia.
    + apply Z.compare_gt_iff. nia.
  - destruct (Z.compare_spec (2 * r) D) as [E|L|G].
    + destruct (Z.compare_spec (4 * q + 2) (2 * h)) as [E'|L'|G'].
      * apply Z.compare_eq_iff. nia.
      * apply Z.compare_lt_iff. nia.
      * apply Z.compare_gt_iff. nia.
    + destruct (Z.compare_spec (4 * q + 1) (2 * h)) as [E'|L'|G'].
      * lia.
      * apply Z.compare_lt_iff.
        assert (2 * q + 1 <= h) by lia. nia.
      * apply Z.compare_gt_iff.
        assert (h <= 2 * q) by lia. nia.
    + destruct (Z.compare_spec (4 * q + 3) (2 * h)) as [E'|L'|G'].
      * lia.
      * apply Z.compare_lt_iff.
        assert (2 * q + 2 <= h) by lia. nia.
      * apply Z.compare_gt_iff.
        assert (h <= 2 * q + 1) by lia. nia.
Qed.

Lemma sticky_div_mod (N D : Z) :
  sticky N D / 4 = N / D /\ sticky N D mod 4 = place_code (N mod D) D.
Proof.
  unfold sticky. pose proof (place_code_bounds (N mod D) D) as B.
  set (c := place_code (N mod D) D) in *.
  replace (4 * (N / D) + c) with (c + (N / D) * 4) by lia.
  rewrite Z.div_add, Z.mod_add by lia.
  rewrite Z.div_small, Z.mod_small by lia. split; lia.
Qed.

(** Rounding the sticky quotient two places or more up is rounding the
    quotient itself. *)
Lemma RNE_sticky (N D k : Z) : 0 < D -> 2 <= k ->
  RNE (sticky N D) k = RNQ N (D * 2 ^ (k - 2)).
Proof.
  intros HD Hk.
  pose proof (pow2_pos (k - 2) ltac:(lia)) as HP.
  set (P := 2 ^ (k - 2)) in *.
  assert (E4P : 2 ^ k = 4 * P).
  { unfold P. replace k with (2 + (k - 2)) at 1 by lia.
    rewrite (pow2_add 2 (k - 2)) by lia. reflexivity. }
  destruct (sticky_div_mod N D) as [Sd Sm].
  unfold RNE, RNQ. rewrite E4P.
  assert (Q1 : sticky N D / (4 * P) = N / D / P)
    by (rewrite <- Z.div_div, Sd by lia; reflexivity).
  assert (Q2 : N / (D * P) = N / D / P) by (rewrite Z.div_div by lia; reflexivity).
  rewrite Q1, Q2.
  rewrite (Z.rem_mul_r (sticky N D) 4 P), Sd, Sm by lia.
  rewrite (Z.rem_mul_r N D P) by lia.
  pose proof (Z.mod_pos_bound N D HD) as Br.
  pose proof (sticky_compare ((N / D) mod P) (N mod D) D P HD Br) as C.
  replace (2 * (N mod D + D * ((N / D) mod P)) ?= D * P)
    with (2 * ((N / D) mod P * D + N mod D) ?= P * D)
    by (f_equal; lia).
  rewrite C.
  replace (2 * (place_code (N mod D) D + 4 * ((N / D) mod P)) ?= 4 * P)
    with (4 * ((N / D) mod P) + place_code (N mod D) D ?= 2 * P); [reflexivity|].
  destruct (Z.compare_spec (4 * ((N / D) mod P) + place_code (N mod D) D) (2 * P));
    symmetry; [apply Z.compare_eq_iff|apply Z.compare_lt_iff|apply Z.compare_gt_iff];
    lia.
Qed.

Lemma RNQ_scale (N D c : Z) : 0 < D -> 0 < c ->
  RNQ (N * c) (D * c) = RNQ N D.
Proof.
  intros HD Hc. unfold RNQ.
  rewrite Z.div_mul_cancel_r by lia.
  rewrite Z.mul_mod_distr_r by lia.
  replace (2 * (N mod D * c) ?= D * c) with (2 * (N mod D) ?= D); [reflexivity|].
  destruct (Z.compare_spec (2 * (N mod D)) D);
    symmetry; [apply Z.compare_eq_iff|apply Z.compare_lt_iff|apply Z.compare_gt_iff];
    nia.
Qed.

(** The sticky quotient is monotone for the order of the fractions. *)
Lemma sticky_mono (N1 D1 N2 D2 : Z) : 0 < D1 -> 0 < D2 ->
  N1 * D2 <= N2 * D1 -> sticky N1 D1 <= sticky N2 D2.
Proof.
  intros H1 H2 H.
  pose proof (Z.div_mod N1 D1 ltac:(lia)) as E1.
  pose proof (Z.div_mod N2 D2 ltac:(lia)) as E2.
  pose proof (Z.mod_pos_bound N1 D1 H1) as B1.
  pose proof (Z.mod_pos_bound N2 D2 H2) as B2.
  pose proof (place_code_bounds (N1 mod D1) D1) as C1.
  pose proof (place_code_bounds (N2 mod D2) D2) as C2.
  unfold sticky.
  set (q1 := N1 / D1) in *. set (q2 := N2 / D2) in *.
  set (r1 := N1 mod D1) in *. set (r2 := N2 mod D2) in *.
  assert (Hq : q1 <= q2).
  { destruct (Z_le_gt_dec q1 q2) as [L|G]; [exact L|exfalso].
    assert (q2 + 1 <= q1) by lia.
    assert (N2 * D1 < (q2 + 1) * D2 * D1) by nia.
    assert ((q2 + 1) * D2 * D1 <= q1 * D1 * D2) by nia.
    nia. }
  destruct (Z.eq_dec q1 q2) as [E|NE]; [|lia].
  assert (Hr : r1 * D2 <= r2 * D1) by nia.
  assert (place_code r1 D1 <= place_code r2 D2); [|lia].
  clear -H1 H2 B1 B2 Hr. unfold place_code.
  destruct (Z.eqb_spec r1 0) as [Z1|N1'], (Z.eqb_spec r2 0) as [Z2|N2'].
  - lia.
  - destruct (2 * r2 ?= D2); lia.
  - exfalso. subst r2. nia.
  - destruct (Z.compare_spec (2 * r1) D1), (Z.compare_spec (2 * r2) D2);
      try lia; exfalso; nia.
Qed.

Lemma sticky_ratio (N1 D1 N2 D2 : Z) : 0 < D1 -> 0 < D2 ->
  N1 * D2 = N2 * D1 -> sticky N1 D1 = sticky N2 D2.
Proof.
  intros H1 H2 H. apply Z.le_antisymm; apply sticky_mono; lia.
Qed.

Lemma sticky_0 (D : Z) : 0 < D -> sticky 0 D = 0.
Proof. intros H. unfold sticky. rewrite Z.div_0_l, Z.mod_0_l by lia. reflexivity. Qed.

Lemma sticky_pos (N D : Z) : 0 < D -> 0 < N -> 0 < sticky N D.
Proof.
  intros HD HN. unfold sticky, place_code.
  pose proof (Z.div_mod N D ltac:(lia)) as E.
  pose proof (Z.mod_pos_bound N D HD) as B.
  pose proof (Z.div_pos N D ltac:(lia) HD) as Q.
  destruct (Z.eqb_spec (N mod D) 0) as [Z0|NZ].
  - assert (N / D <> 0) by nia. lia.
  - destruct (2 * (N mod D) ?= D); lia.
Qed.

End QuotientFacts.

Section DivisionFacts.

Local Open Scope Z_scope.

Lemma new_location_code (D r : Z) : 0 < D -> 0 <= r < D ->
  loc_code (new_location D r) = place_code r D.
Proof.
  intros HD Hr. unfold new_location, new_location_even, new_location_odd, place_code.
  destruct (Z.even D) eqn:Ev; destruct (r =? 0); try reflexivity.
  assert (Od : Z.odd D = true) by (rewrite <- Z.negb_even, Ev; reflexivity).
  apply Z.odd_spec in Od. destruct Od as [k Ek].
  destruct (Z.compare_spec (2 * r + 1) D), (Z.compare_spec (2 * r) D);
    try reflexivity; lia.
Qed.

Lemma shr_record_of_loc_sticky (q : Z) (l : location) : 0 <= q ->
  shr_record_of_loc q l
  = shr_1 (shr_1 (Build_shr_record (4 * q + loc_code l) false false)).
Proof.
  intros Hq.
  assert (Hc : 0 <= loc_code l <= 3) by (destruct l as [|[ | | ]]; simpl; lia).
  rewrite shr_1_nonneg by lia.
  rewrite shr_1_nonneg by (apply Z.div_pos; lia).
  rewrite Z.div_div by lia. change (2 * 2) with 4.
  replace (4 * q + loc_code l) with (loc_code l + q * 4) at 1 by lia.
  rewrite Z.div_add by lia.
  replace ((4 * q + loc_code l) / 2) with (loc_code l / 2 + q * 2)
    by (replace (4 * q + loc_code l) with (loc_code l + (q * 2) * 2) by lia;
        rewrite Z.div_add by lia; reflexivity).
  replace (4 * q + loc_code l) with (loc_code l + 2 * (2 * q)) by lia.
  rewrite Z.odd_add_mul_2.
  replace (loc_code l / 2 + q * 2) with (loc_code l / 2 + 2 * q) by lia.
  rewrite Z.odd_add_mul_2.
  destruct l as [|[ | | ]]; simpl; f_equal; lia.
Qed.

Lemma shr_sticky (q e n : Z) (l : location) : 0 <= q -> 0 <= n ->
  shr (shr_record_of_loc q l) e n
  = shr (Build_shr_record (4 * q + loc_code l) false false) (e - 2) (n + 2).
Proof.
  intros Hq Hn. rewrite shr_record_of_loc_sticky by assumption.
  set (r0 := Build_shr_record (4 * q + loc_code l) false false).
  unfold shr. destruct n as [|p|p]; [| |lia].
  - change (0 + 2) with 2. cbv iota.
    replace (e - 2 + 2) with e by lia. reflexivity.
  - change (Z.pos p + 2) with (Z.pos (p + 2)).
    rewrite !iter_pos_nat.
    replace (Pos.to_nat (p + 2)) with (Pos.to_nat p + 2)%nat
      by (rewrite Pos2Nat.inj_add; reflexivity).
    rewrite Nat.iter_add.
    replace (e - 2 + Z.pos (p + 2)) with (e + Z.pos p)
      by (rewrite Pos2Z.inj_add; lia).
    reflexivity.
Qed.

(** Rounding a mantissa with a location is rounding the sticky mantissa,
    which has two more places. *)
Lemma binary_round_aux_sticky (s : bool) (q e : Z) (l : location) :
  0 <= q ->
  fexp prec emax (Zdigits2 q + e)
  = fexp prec emax (Zdigits2 (4 * q + loc_code l) + (e - 2)) ->
  e <= fexp prec emax (Zdigits2 q + e) ->
  binary_round_aux prec emax s q e l
  = binary_round_aux prec emax s (4 * q + loc_code l) (e - 2) loc_Exact.
Proof.
  intros Hq Hfe He. unfold binary_round_aux, shr_fexp. rewrite <- Hfe.
  set (fe := fexp prec emax (Zdigits2 q + e)) in *.
  rewrite (shr_sticky q e (fe - e) l) by lia.
  replace (fe - e + 2) with (fe - (e - 2)) by lia.
  reflexivity.
Qed.

Lemma Zdigits2_log2 (z : Z) : 0 < z -> Zdigits2 z = Z.log2 z + 1.
Proof.
  intros Hz. destruct z as [|p|p]; try lia.
  change (Zdigits2 (Z.pos p)) with (digits p). apply digits_log2.
Qed.

Lemma log2_sticky (q c : Z) : 0 < q -> 0 <= c <= 3 ->
  Z.log2 (4 * q + c) = Z.log2 q + 2.
Proof.
  intros Hq Hc. pose proof (Z.log2_spec q Hq) as [L U].
  pose proof (Z.log2_nonneg q) as Hl.
  apply Z.log2_unique; [lia|].
  replace (Z.succ (Z.log2 q + 2)) with (2 + Z.succ (Z.log2 q)) by lia.
  rewrite (Z.add_comm (Z.log2 q) 2).
  rewrite !pow2_add by lia. change (2 ^ 2) with 4. lia.
Qed.

Lemma log2_scaled_div (N D j : Z) : 0 < D -> 0 <= j -> 0 < N / D ->
  Z.log2 (N * 2 ^ j / D) = Z.log2 (N / D) + j.
Proof.
  intros HD Hj Hq.
  pose proof (Z.log2_spec _ Hq) as [L U].
  pose proof (Z.log2_nonneg (N / D)) as Hl.
  pose proof (pow2_pos j Hj) as Hp.
  pose proof (Z.div_mod N D ltac:(lia)) as E.
  pose proof (Z.mod_pos_bound N D HD) as B.
  set (q := N / D) in *. set (r := N mod D) in *.
  apply Z.log2_unique; [lia|].
  replace (Z.succ (Z.log2 q + j)) with (Z.succ (Z.log2 q) + j) by lia.
  rewrite !pow2_add by lia.
  split.
  - apply Z.div_le_lower_bound; [lia|].
    assert (H1 : D * 2 ^ Z.log2 q <= N) by nia.
    rewrite Z.mul_assoc. apply Z.mul_le_mono_nonneg_r; lia.
  - apply Z.div_lt_upper_bound; [lia|].
    assert (H1 : q + 1 <= 2 ^ Z.succ (Z.log2 q)) by lia.
    assert (H2 : N < D * 2 ^ Z.succ (Z.log2 q)) by nia.
    rewrite Z.mul_assoc. apply Z.mul_lt_mono_pos_r; lia.
Qed.

End DivisionFacts.

Section DivisionValue.

Local Open Scope Z_scope.

Lemma fexp_eq (z : Z) : fexp prec emax z = Z.max (z - 53) (-1074).
Proof. reflexivity. Qed.

Lemma div_eucl_div_mod (a b q r : Z) :
  Z.div_eucl a b = (q, r) -> q = a / b /\ r = a mod b.
Proof. intros E. unfold Z.div, Z.modulo. rewrite E. split; reflexivity. Qed.

(** The quotient mantissa has enough digits. *)
Lemma quotient_lower (mx my : positive) (s : Z) :
  0 <= s -> 0 <= digits mx - 1 + s - digits my ->
  2 ^ (digits mx - 1 + s - digits my) <= Z.pos mx * 2 ^ s / Z.pos my.
Proof.
  intros Hs Ht.
  pose proof (digits_bounds mx) as [Lx _].
  pose proof (digits_bounds my) as [_ Uy].
  pose proof (digits_pos mx). pose proof (digits_pos my).
  set (t := digits mx - 1 + s - digits my) in *.
  pose proof (pow2_pos t Ht) as Pt. pose proof (pow2_pos s Hs) as Ps.
  apply Z.div_le_lower_bound; [lia|].
  assert (E : 2 ^ t * 2 ^ digits my = 2 ^ (digits mx - 1) * 2 ^ s).
  { rewrite <- !pow2_add by lia. f_equal. unfold t. lia. }
  nia.
Qed.

Lemma SFdiv_val (sx sy : bool) (mx my : positive) (ex ey : Z) :
  valid_binary (S754_finite sx mx ex) = true ->
  valid_binary (S754_finite sy my ey) = true ->
  let r := SFdiv prec emax (S754_finite sx mx ex) (S754_finite sy my ey) in
  valid_binary r = true /\ SF_nan r = false /\
  F2Z r = signed (xorb sx sy)
            (Z.min (Rpos 1000 (sticky (Z.pos mx * 2 ^ (ex + 1074) * 2 ^ 2072)
                                       (Z.pos my * 2 ^ (ey + 1074)))) huge).
Proof.
  intros Vx Vy.
  destruct (valid_finite_inv _ _ _ Vx) as (Cx & Hex & Hltx & Hgex).
  destruct (valid_finite_inv _ _ _ Vy) as (Cy & Hey & Hlty & Hgey).
  pose proof (digits_pos mx) as Dx. pose proof (digits_pos my) as Dy.
  assert (Dx53 : digits mx <= 53) by (unfold fexp64 in Cx; lia).
  assert (Dy53 : digits my <= 53) by (unfold fexp64 in Cy; lia).
  unfold SFdiv, SFdiv_core_binary. cbv zeta.
  change (Zdigits2 (Z.pos mx)) with (digits mx).
  change (Zdigits2 (Z.pos my)) with (digits my).
  rewrite fexp_eq.
  set (e' := Z.min (Z.max (digits mx + ex - (digits my + ey) - 53) (-1074)) (ex - ey)).
  set (s := ex - ey - e').
  assert (Hs : 0 <= s) by (unfold s, e'; lia).
  assert (He' : -2045 <= e') by (unfold e'; lia).
  set (m' := match s with Z.pos _ => Z.shiftl (Z.pos mx) s | 0 => Z.pos mx | Z.neg _ => 0 end).
  assert (Em' : m' = Z.pos mx * 2 ^ s).
  { unfold m'. destruct s as [|p|p] eqn:Es; [simpl; lia| |lia].
    now rewrite Z.shiftl_mul_pow2 by lia. }
  clearbody m'. subst m'.
  set (N' := Z.pos mx * 2 ^ s).
  pose proof (pow2_pos s Hs) as Ps.
  assert (HN' : 0 < N') by (unfold N'; nia).
  destruct (Z.div_eucl N' (Z.pos my)) as [q r] eqn:Ediv.
  destruct (div_eucl_div_mod _ _ _ _ Ediv) as [Eq Er]. clear Ediv.
  pose proof (Z.mod_pos_bound N' (Z.pos my) ltac:(lia)) as Br. rewrite <- Er in Br.
  assert (Hq : 0 <= q) by (rewrite Eq; apply Z.div_pos; lia).
  assert (Hql : 0 <= digits mx - 1 + s - digits my ->
                2 ^ (digits mx - 1 + s - digits my) <= q).
  { intros Ht. rewrite Eq. now apply quotient_lower. }
  set (l := new_location (Z.pos my) r).
  assert (Hc : 0 <= loc_code l <= 3) by (destruct l as [|[ | | ]]; simpl; lia).
  assert (ES : 4 * q + loc_code l = sticky N' (Z.pos my)).
  { unfold sticky, l. rewrite new_location_code by lia. now rewrite Eq, Er. }
  pose proof (sticky_pos N' (Z.pos my) ltac:(lia) HN') as HQ.
  rewrite <- ES in HQ.
  (* the two conditions on the exponents *)
  assert (Cond : fexp prec emax (Zdigits2 q + e')
                 = fexp prec emax (Zdigits2 (4 * q + loc_code l) + (e' - 2)) /\
                 e' <= fexp prec emax (Zdigits2 q + e') /\
                 (q = 0 -> e' <= -1074)).
  { rewrite !fexp_eq.
    destruct (Z.eq_dec q 0) as [Z0|NZ].
    - assert (Hn : digits mx - 1 + s - digits my < 0).
      { destruct (Z_lt_le_dec (digits mx - 1 + s - digits my) 0) as [L|G];
          [exact L|].
        pose proof (Hql G). pose proof (pow2_pos _ G). lia. }
      assert (Ee : e' <= -1074) by (unfold s, e' in *; lia).
      rewrite Z0 in HQ |- *. change (Zdigits2 0) with 0.
      rewrite Zdigits2_log2 by lia.
      assert (Z.log2 (4 * 0 + loc_code l) < 2)
        by (apply Z.log2_lt_pow2; [lia|]; change (2 ^ 2) with 4; lia).
      pose proof (Z.log2_nonneg (4 * 0 + loc_code l)). lia.
    - rewrite (Zdigits2_log2 q), (Zdigits2_log2 (4 * q + loc_code l)) by lia.
      rewrite log2_sticky by lia.
      split; [f_equal; lia|]. split; [|lia].
      destruct (Z_lt_le_dec (digits mx - 1 + s - digits my) 0) as [L|G].
      + pose proof (Z.log2_nonneg q). unfold s, e' in *. lia.
      + pose proof (Hql G) as HL.
        assert (digits mx - 1 + s - digits my <= Z.log2 q)
          by (apply Z.log2_le_pow2; lia).
        unfold s, e' in *. lia. }
  destruct Cond as (C1 & C2 & C3).
  rewrite (binary_round_aux_sticky (xorb sx sy) q e' l Hq C1 C2).
  destruct (4 * q + loc_code l) as [|p|p] eqn:EQ; [lia| |lia].
  assert (P : e' - 2 <= fexp64 p (e' - 2)).
  { rewrite <- fexp64_eq. change (Z.pos (digits2_pos p)) with (Zdigits2 (Z.pos p)).
    rewrite <- C1. lia. }
  destruct (binary_round_aux_spec (xorb sx sy) p (e' - 2) P) as (V & Sg & F).
  split; [exact V|]. split; [exact (signed_like_not_nan _ _ Sg)|].
  rewrite F. unfold signed.
  assert (Main : round_val p (e' - 2)
                 = Rpos 1000 (sticky (Z.pos mx * 2 ^ (ex + 1074) * 2 ^ 2072)
                                     (Z.pos my * 2 ^ (ey + 1074))));
    [|rewrite Main; reflexivity].
  set (j := e' + 2072).
  assert (Hj : 0 <= j) by (unfold j; lia).
  pose proof (pow2_pos j Hj) as Pj.
  pose proof (pow2_pos (ey + 1074) ltac:(lia)) as Pey.
  rewrite (sticky_ratio _ _ (N' * 2 ^ j) (Z.pos my)); try lia.
  2:{ unfold N'.
      assert (E1 : 2 ^ (ex + 1074) * 2 ^ 2072 = 2 ^ (ex + 3146))
        by (rewrite <- pow2_add by lia; f_equal; lia).
      assert (E2 : 2 ^ s * 2 ^ j * 2 ^ (ey + 1074) = 2 ^ (ex + 3146))
        by (rewrite <- !pow2_add by (unfold j; lia); f_equal; unfold j, s; lia).
      clear -E1 E2.
      set (a := 2 ^ (ex + 1074)) in *. set (T := 2 ^ 2072) in *.
      set (S := 2 ^ s) in *. set (J := 2 ^ j) in *.
      set (Y := 2 ^ (ey + 1074)) in *. set (P := 2 ^ (ex + 3146)) in *.
      clearbody a T S J Y P.
      transitivity (Z.pos mx * Z.pos my * (a * T)); [ring|].
      rewrite E1, <- E2. ring. }
  set (X2 := sticky (N' * 2 ^ j) (Z.pos my)).
  assert (HX2 : 0 < X2) by (apply sticky_pos; nia).
  unfold round_val, Rpos. fold X2.
  set (fe := fexp64 p (e' - 2)) in *.
  assert (Efe : fexp prec emax (Zdigits2 q + e') = fe).
  { rewrite C1. unfold fe. rewrite <- fexp64_eq. reflexivity. }
  assert (Hfe : e' <= fe) by lia.
  assert (Ek : Z.max (Z.log2 X2 + 1 - 53) 1000 = fe + 2074).
  { unfold fe, fexp64. rewrite digits_log2. rewrite <- EQ.
    destruct (Z.eq_dec q 0) as [Z0|NZ].
    - specialize (C3 Z0).
      assert (Z.log2 (4 * q + loc_code l) < 2)
        by (apply Z.log2_lt_pow2; [lia|]; change (2 ^ 2) with 4; lia).
      pose proof (Z.log2_nonneg (4 * q + loc_code l)).
      assert (X2 < 2 ^ (j + 2)).
      { unfold X2, sticky.
        pose proof (place_code_bounds ((N' * 2 ^ j) mod Z.pos my) (Z.pos my)).
        assert (N' * 2 ^ j / Z.pos my < 2 ^ j).
        { apply Z.div_lt_upper_bound; [lia|].
          assert (N' < Z.pos my).
          { pose proof (Z.div_mod N' (Z.pos my) ltac:(lia)) as E.
            rewrite <- Eq, Z0, <- Er in E. lia. }
          nia. }
        rewrite pow2_add by lia. change (2 ^ 2) with 4. lia. }
      assert (Z.log2 X2 < j + 2) by (apply Z.log2_lt_pow2; lia).
      unfold j in *. lia.
    - rewrite log2_sticky by lia.
      assert (Hq' : 0 < N' / Z.pos my) by lia.
      pose proof (log2_scaled_div N' (Z.pos my) j ltac:(lia) Hj Hq') as LS.
      unfold X2, sticky.
      rewrite log2_sticky; [| |apply place_code_bounds].
      + rewrite LS, <- Eq. unfold j. lia.
      + assert (N' / Z.pos my * 2 ^ j <= N' * 2 ^ j / Z.pos my); [|nia].
        apply Z.div_le_lower_bound; [lia|].
        pose proof (Z.mul_div_le N' (Z.pos my) ltac:(lia)). nia. }
  rewrite Ek. replace (fe + 2074 - 1000) with (fe + 1074) by lia.
  f_equal.
  rewrite ES.
  rewrite (RNE_sticky N' (Z.pos my) (fe - (e' - 2))) by lia.
  unfold X2. rewrite (RNE_sticky (N' * 2 ^ j) (Z.pos my) (fe + 2074)) by lia.
  replace (fe + 2074 - 2) with ((fe - (e' - 2) - 2) + j) by (unfold j; lia).
  rewrite pow2_add by lia. rewrite Z.mul_assoc.
  pose proof (pow2_pos (fe - (e' - 2) - 2) ltac:(lia)).
  apply eq_sym, RNQ_scale; nia.
Qed.

End DivisionValue.

Section DivisionOrder.

Local Open Scope Z_scope.

Lemma sticky_nonneg (N D : Z) : 0 < D -> 0 <= N -> 0 <= sticky N D.
Proof.
  intros HD HN. destruct (Z.eq_dec N 0) as [->|NZ].
  - now rewrite sticky_0.
  - pose proof (sticky_pos N D HD ltac:(lia)). lia.
Qed.

Lemma Rdiv_0 (B : Z) : 0 < B -> Rdiv 0 B = 0.
Proof.
  intros H. unfold Rdiv. change (0 <? 0) with false. cbv iota.
  now rewrite Z.mul_0_l, sticky_0.
Qed.

(** Division is monotone for the order of the exact quotients. *)
Lemma Rdiv_mono (A1 B1 A2 B2 : Z) : 0 < B1 -> 0 < B2 ->
  A1 * B2 <= A2 * B1 -> Rdiv A1 B1 <= Rdiv A2 B2.
Proof.
  intros H1 H2 H. unfold Rdiv. apply R_mono; [lia|].
  pose proof (pow2_pos 2072 ltac:(lia)) as P.
  set (T := 2 ^ 2072) in *. clearbody T.
  destruct (Z.ltb_spec A1 0) as [N1|P1], (Z.ltb_spec A2 0) as [N2|P2].
  - assert (sticky (- A2 * T) B2 <= sticky (- A1 * T) B1); [|lia].
    apply sticky_mono; try assumption.
    assert (- A2 * B1 <= - A1 * B2) by lia.
    replace (- A2 * T * B1) with (- A2 * B1 * T) by ring.
    replace (- A1 * T * B2) with (- A1 * B2 * T) by ring.
    apply Z.mul_le_mono_nonneg_r; lia.
  - pose proof (sticky_nonneg (- A1 * T) B1 H1 ltac:(nia)).
    pose proof (sticky_nonneg (A2 * T) B2 H2 ltac:(nia)). lia.
  - exfalso. nia.
  - apply sticky_mono; try assumption.
    replace (A1 * T * B2) with (A1 * B2 * T) by ring.
    replace (A2 * T * B1) with (A2 * B1 * T) by ring.
    apply Z.mul_le_mono_nonneg_r; lia.
Qed.

Lemma SFdiv_by_positive (x y : spec_float) :
  valid_binary x = true -> valid_binary y = true ->
  SF_finite x = true -> SF_finite y = true -> 0 < F2Z y ->
  let r := SFdiv prec emax x y in
  valid_binary r = true /\ SF_nan r = false /\
  F2Z r = Rdiv (F2Z x) (F2Z y).
Proof.
  intros Vx Vy Fx Fy Py.
  destruct y as [sy|sy| |sy my ey]; try discriminate.
  pose proof (F2Z_finite_bounds _ _ _ Vy) as By.
  rewrite F2Z_finite in Py.
  destruct sy; [unfold signed in Py; lia|]. unfold signed in Py.
  destruct x as [sx|sx| |sx mx ex]; try discriminate.
  - simpl SFdiv. split; [reflexivity|]. split; [reflexivity|].
    change (F2Z (S754_zero (xorb sx false))) with 0.
    change (F2Z (S754_zero sx)) with 0. now rewrite Rdiv_0.
  - destruct (SFdiv_val sx false mx my ex ey Vx Vy) as (V & N & F).
    split; [exact V|]. split; [exact N|]. rewrite F.
    pose proof (F2Z_finite_bounds _ _ _ Vx) as Bx.
    rewrite xorb_false_r, !F2Z_finite. unfold Rdiv, signed.
    pose proof (pow2_pos 2072 ltac:(lia)) as P.
    set (A := Z.pos mx * 2 ^ (ex + 1074)) in *.
    set (B := Z.pos my * 2 ^ (ey + 1074)) in *.
    set (T := 2 ^ 2072) in *. clearbody T.
    assert (PA : 0 < A * T) by (apply Z.mul_pos_pos; lia).
    pose proof (sticky_pos (A * T) B ltac:(lia) PA) as PS.
    destruct sx.
    + destruct (Z.ltb_spec (- A) 0); [|lia].
      rewrite Z.opp_involutive.
      rewrite R_neg by lia. now rewrite Z.opp_involutive.
    + destruct (Z.ltb_spec A 0); [lia|].
      now rewrite R_pos by lia.
Qed.

End DivisionOrder.


(** The value of a quotient, the divisor finite and positive. *)
Lemma div_val (a b : float) : finite a = true -> finite b = true ->
  (0 < val b)%Z ->
  is_number (a / b) = true /\ val (a / b) = Rdiv (val a) (val b).
Proof.
  unfold finite, is_number, val. intros Fa Fb Pb. rewrite div_spec.
  destruct (SFdiv_by_positive (Prim2SF a) (Prim2SF b)) as (V & N & F);
    auto using Prim2SF_valid.
  unfold SF64div. rewrite N. split; [reflexivity|exact F].
Qed.

(** Division is monotone for the order of the exact quotients. *)
Lemma div_mono (a1 b1 a2 b2 : float) :
  finite a1 = true -> finite b1 = true ->
  finite a2 = true -> finite b2 = true ->
  (0 < val b1)%Z -> (0 < val b2)%Z ->
  (val a1 * val b2 <= val a2 * val b1)%Z ->
  (a1 / b1 <=? a2 / b2) = true.
Proof.
  intros Fa1 Fb1 Fa2 Fb2 P1 P2 H.
  destruct (div_val a1 b1 Fa1 Fb1 P1) as [N1 V1].
  destruct (div_val a2 b2 Fa2 Fb2 P2) as [N2 V2].
  apply leb_le. split; [exact N1|]. split; [exact N2|].
  rewrite V1, V2. now apply Rdiv_mono.
Qed.

Lemma div_mono_l (a1 a2 b : float) :
  finite a1 = true -> finite a2 = true -> finite b = true ->
  (0 <? b) = true -> (a1 <=? a2) = true -> (a1 / b <=? a2 / b) = true.
Proof.
  intros F1 F2 Fb Pb H.
  apply ltb_lt in Pb. destruct Pb as (_ & _ & Pb). change (val 0) with 0%Z in Pb.
  apply leb_le in H. destruct H as (_ & _ & H).
  apply div_mono; try assumption. nia.
Qed.

(** * Averages and growth on generated data *)

Lemma within_inv (x lo hi : number) : within x (lo, hi) = true ->
  (lo <=? x) = true /\ (x <=? hi) = true.
Proof. unfold within. simpl. intros H. now apply andb_true_iff in H. Qed.

Lemma within_intro (x lo hi : number) :
  (lo <=? x) = true -> (x <=? hi) = true -> within x (lo, hi) = true.
Proof. unfold within. simpl. intros -> ->. reflexivity. Qed.

Lemma add_mono (a b c d : float) :
  finite a = true -> finite b = true -> finite c = true -> finite d = true ->
  (a <=? b) = true -> (c <=? d) = true -> (a + c <=? b + d) = true.
Proof.
  intros Fa Fb Fc Fd H1 H2.
  apply (leb_trans _ (b + c)).
  - now apply add_mono_l.
  - now apply add_mono_r.
Qed.

(** A left-to-right sum of numbers between [lo] and [hi] lies between the
    sums of as many [lo] and as many [hi], provided these stay finite. *)
Lemma fold_sum_between (lo hi : number) (xs : list number) :
  finite lo = true -> finite hi = true ->
  Forall (fun x => within x (lo, hi) = true) xs ->
  forall alo acc ahi,
    (alo <=? acc) = true -> (acc <=? ahi) = true ->
    sums_finite (repeat lo (List.length xs)) alo = true ->
    sums_finite (repeat hi (List.length xs)) ahi = true ->
    within (fold_left PrimFloat.add xs acc)
           (fold_left PrimFloat.add (repeat lo (List.length xs)) alo,
            fold_left PrimFloat.add (repeat hi (List.length xs)) ahi) = true.
Proof.
  intros Flo Fhi Hxs. induction Hxs as [|x xs Hx Hxs IH];
    intros alo acc ahi L U Sl Sh; simpl in *.
  - now apply within_intro.
  - apply andb_true_iff in Sl, Sh. destruct Sl as [Fal Sl], Sh as [Fah Sh].
    destruct (within_inv _ _ _ Hx) as [Lx Ux].
    assert (Fx : finite x = true) by (apply (finite_between lo x hi); auto).
    assert (Fa : finite acc = true) by (apply (finite_between alo acc ahi); auto).
    apply IH; try assumption; apply add_mono; assumption.
Qed.

(** The margin and the conversion rate of a record, between the values for
    the draws 0 and [below_one]. *)
Lemma record_rates (label : string) (i : nat) (src : RandomSource) (m : nat) :
  unit_draws src ->
  let r := fst (historicalRecord label i src m) in
  within (grossMargin r)
         (0.68 + (0 * 0.08 - 0.04), 0.68 + (below_one * 0.08 - 0.04)) = true /\
  within (conversionRate r)
         (0.034 + (0 * 0.008 - 0.004), 0.034 + (below_one * 0.008 - 0.004)) = true.
Proof.
  intros Hsrc r.
  destruct (unit_draw_bounds src (S (S m)) Hsrc) as (A0 & A1 & _).
  destruct (unit_draw_bounds src (S (S (S m))) Hsrc) as (B0 & B1 & _).
  split; apply within_intro;
    first [ apply (affine_draw_bounds 0.68 0.08 0.04 0 below_one (src (S (S m))));
            first [reflexivity | assumption]
          | apply (affine_draw_bounds 0.034 0.008 0.004 0 below_one
                     (src (S (S (S m))))); first [reflexivity | assumption] ].
Qed.

Lemma generated_In (src : RandomSource) (n : nat) (r : MonthData) :
  In r (fst (historicalData src n)) ->
  exists label i m, (i < 12)%nat /\ r = fst (historicalRecord label i src m).
Proof.
  intros Hr. unfold historicalData in Hr. apply map_indexed_In in Hr.
  destruct Hr as (label & i & m & _ & Hi & ->).
  rewrite months_length in Hi. exists label, i, m. split; [lia|reflexivity].
Qed.

(** The mean of a field whose values lie between [lo] and [hi], over the
    twelve records of a run. *)
Lemma generated_mean (f : MonthData -> number) (lo hi : number)
  (src : RandomSource) (n : nat) :
  finite lo = true -> finite hi = true ->
  sums_finite (repeat lo 12) 0 = true -> sums_finite (repeat hi 12) 0 = true ->
  (forall r, In r (fst (historicalData src n)) -> within (f r) (lo, hi) = true) ->
  let h := fst (historicalData src n) in
  within (reduce_sum f h / of_nat (List.length h))
         (Spec.sum (repeat lo 12) / 12, Spec.sum (repeat hi 12) / 12) = true.
Proof.
  intros Flo Fhi Sl Sh Hf h.
  assert (Hlen : List.length h = 12%nat) by apply historicalData_length.
  rewrite Hlen. change (of_nat 12) with 12.
  rewrite reduce_sum_map.
  assert (Hxs : Forall (fun x => within x (lo, hi) = true) (map f h)).
  { apply Forall_forall. intros x Hx. apply in_map_iff in Hx.
    destruct Hx as (r & <- & Hr). now apply Hf. }
  pose proof (fold_sum_between lo hi (map f h) Flo Fhi Hxs 0 0 0 eq_refl eq_refl)
    as W.
  rewrite length_map, Hlen in W. specialize (W Sl Sh).
  destruct (within_inv _ _ _ W) as [L U].
  assert (F0 : forall l, sums_finite l 0 = true ->
                         finite (fold_left PrimFloat.add l 0) = true).
  { intros l. generalize 0. induction l as [|y l IHl]; intros acc; simpl.
    - now rewrite andb_true_r.
    - intros H. apply andb_true_iff in H. destruct H as [_ H]. now apply IHl. }
  pose proof (F0 _ Sl) as F1. pose proof (F0 _ Sh) as F2.
  assert (Fs : finite (Spec.sum (map f h)) = true)
    by (apply (finite_between _ _ _ F1 F2); assumption).
  apply within_intro; apply div_mono_l; try assumption; reflexivity.
Qed.

(** X9. The averages on generated data: on every generated series the average
    gross margin lies between 0.6399999999999999 and 0.71999999999999986,
    the average conversion rate between 0.030000000000000009 and
    0.037999999999999992, and the average order value between 280 and
    320. *)
Theorem generated_kpi_averages (src : RandomSource) (n : nat) :
  unit_draws src ->
  exists k, kpis (fst (historicalData src n)) = Some k /\
    within (avgGrossMargin k) (0.6399999999999999, 0.71999999999999986) = true /\
    within (avgConversionRate k)
           (0.030000000000000009, 0.037999999999999992) = true /\
    within (kpi_avgOrderValue k) (280, 320) = true.
Proof.
  intros Hsrc. set (h := fst (historicalData src n)).
  destruct (monthlyGrowth_eval_long h) as (l & p & _ & _ & G).
  { unfold h. rewrite historicalData_length. lia. }
  unfold kpis. rewrite G. eexists. split; [reflexivity|].
  cbn [avgGrossMargin avgConversionRate kpi_avgOrderValue].
  split; [|split].
  - pose proof (generated_mean grossMargin
                  (0.68 + (0 * 0.08 - 0.04)) (0.68 + (below_one * 0.08 - 0.04))
                  src n eq_refl eq_refl eq_refl eq_refl) as M.
    apply M.
    intros r Hr. destruct (generated_In src n r Hr) as (label & i & m & _ & ->).
    now apply record_rates.
  - pose proof (generated_mean conversionRate
                  (0.034 + (0 * 0.008 - 0.004))
                  (0.034 + (below_one * 0.008 - 0.004))
                  src n eq_refl eq_refl eq_refl eq_refl) as M.
    apply M.
    intros r Hr. destruct (generated_In src n r Hr) as (label & i & m & _ & ->).
    now apply record_rates.
  - pose proof (generated_mean avgOrderValue 280 320
                  src n eq_refl eq_refl eq_refl eq_refl) as M.
    apply M.
    intros r Hr. destruct (generated_In src n r Hr) as (label & i & m & _ & ->).
    now apply record_ranges.
Qed.

Lemma generated_kpi_averages_witness :
  exists k, kpis (fst (historicalData (constant_source 0.5) 0%nat)) = Some k /\
    within (avgGrossMargin k) (0.6399999999999999, 0.71999999999999986) = true /\
    within (avgConversionRate k)
           (0.030000000000000009, 0.037999999999999992) = true /\
    within (kpi_avgOrderValue k) (280, 320) = true.
Proof.
  apply (generated_kpi_averages (constant_source 0.5) 0%nat).
  intros k. split; reflexivity.
Defined.

(** Quotients of whole numbers are ordered as the exact fractions are. *)
Lemma div_integers_mono (a1 b1 a2 b2 : number) :
  is_integer a1 = true -> is_integer b1 = true ->
  is_integer a2 = true -> is_integer b2 = true ->
  (0 < int_of b1)%Z -> (0 < int_of b2)%Z ->
  (int_of a1 * int_of b2 <= int_of a2 * int_of b1)%Z ->
  (a1 / b1 <=? a2 / b2) = true.
Proof.
  intros Ia1 Ib1 Ia2 Ib2 P1 P2 H.
  destruct (is_integer_val a1 Ia1) as [Fa1 Va1].
  destruct (is_integer_val b1 Ib1) as [Fb1 Vb1].
  destruct (is_integer_val a2 Ia2) as [Fa2 Va2].
  destruct (is_integer_val b2 Ib2) as [Fb2 Vb2].
  pose proof (pow2_pos 1074 ltac:(lia)) as Hp.
  apply div_mono; try assumption; rewrite ?Va1, ?Vb1, ?Va2, ?Vb2.
  - apply Z.mul_pos_pos; assumption.
  - apply Z.mul_pos_pos; assumption.
  - set (u := (2 ^ 1074)%Z) in *. clearbody u.
    replace (int_of a1 * u * (int_of b2 * u))%Z
      with (int_of a1 * int_of b2 * (u * u))%Z by ring.
    replace (int_of a2 * u * (int_of b1 * u))%Z
      with (int_of a2 * int_of b1 * (u * u))%Z by ring.
    apply Z.mul_le_mono_nonneg_r; [|exact H].
    apply Z.lt_le_incl, Z.mul_pos_pos; assumption.
Qed.

(** X10. Month-over-month growth on generated data: the KPI is the December
    revenue against the November revenue, the difference being exact and
    the divisor at least 1,285,200; it lies between the growth from
    1,512,000 to 1,249,500 and the growth from 1,285,200 to 1,470,000,
    that is between -17.37 and 14.38 percent. *)
Theorem generated_monthly_growth (src : RandomSource) (n : nat) :
  unit_draws src ->
  exists k, kpis (fst (historicalData src n)) = Some k /\
    within (monthlyGrowth k)
           (growth_value (Divided (1249500 - 1512000) 1512000),
            growth_value (Divided (1470000 - 1285200) 1285200)) = true /\
    within (monthlyGrowth k) (-17.37, 14.38) = true.
Proof.
  intros Hsrc. set (h := fst (historicalData src n)).
  assert (Hlen : List.length h = 12%nat) by apply historicalData_length.
  destruct (monthlyGrowth_eval_long h) as (l & p & Hl & Hp & G); [lia|].
  rewrite Hlen in Hl, Hp.
  apply historicalData_nth in Hl, Hp.
  destruct Hl as (_ & ll & _ & ->), Hp as (_ & lp & _ & ->).
  unfold kpis. rewrite G. eexists. split; [reflexivity|].
  cbn [monthlyGrowth growth_value].
  amounts_fact Hsrc ll src (n + 10 * (12 - 1))%nat (12 - 1)%nat.
  amounts_fact Hsrc lp src (n + 10 * (12 - 2))%nat (12 - 2)%nat.
  set (dec := revenue (fst (historicalRecord ll (12 - 1)%nat src
                             (n + 10 * (12 - 1))%nat))) in *.
  set (nov := revenue (fst (historicalRecord lp (12 - 2)%nat src
                             (n + 10 * (12 - 2))%nat))) in *.
  match goal with
  | H1 : is_integer dec = true, H2 : (_ <= int_of dec <= _)%Z,
    H3 : is_integer nov = true, H4 : (_ <= int_of nov <= _)%Z |- _ =>
      rename H1 into Id; rename H2 into Bd; rename H3 into In; rename H4 into Bn
  end.
  destruct (sub_integers dec nov Id In ltac:(lia)) as [Ia Ea].
  destruct (to_int_spec 1512000 1512000 eq_refl) as [I1 E1].
  destruct (to_int_spec (1249500 - 1512000) (-262500) eq_refl) as [I2 E2].
  destruct (to_int_spec 1285200 1285200 eq_refl) as [I3 E3].
  destruct (to_int_spec (1470000 - 1285200) 184800 eq_refl) as [I4 E4].
  assert (L : ((1249500 - 1512000) / 1512000 <=? (dec - nov) / nov) = true).
  { apply div_integers_mono;
      [exact I2 | exact I1 | exact Ia | exact In
      | rewrite E1; lia | lia | rewrite Ea, E1, E2; lia]. }
  assert (U : ((dec - nov) / nov <=? (1470000 - 1285200) / 1285200) = true).
  { apply div_integers_mono;
      [exact Ia | exact In | exact I4 | exact I3
      | lia | rewrite E3; lia | rewrite Ea, E3, E4; lia]. }
  assert (Fq : finite ((dec - nov) / nov) = true).
  { apply (finite_between ((1249500 - 1512000) / 1512000) _
             ((1470000 - 1285200) / 1285200));
      first [assumption | vm_compute; reflexivity]. }
  assert (W : within ((dec - nov) / nov * 100)
                (growth_value (Divided (1249500 - 1512000) 1512000),
                 growth_value (Divided (1470000 - 1285200) 1285200)) = true).
  { apply within_intro; unfold growth_value;
      apply mul_mono_l; first [assumption | vm_compute; reflexivity]. }
  split; [exact W|].
  destruct (within_inv _ _ _ W) as [L' U'].
  apply within_intro.
  - apply (leb_trans _ (growth_value (Divided (1249500 - 1512000) 1512000)));
      [vm_compute; reflexivity|exact L'].
  - apply (leb_trans _ (growth_value (Divided (1470000 - 1285200) 1285200)));
      [exact U'|vm_compute; reflexivity].
Qed.

Lemma generated_monthly_growth_witness :
  exists k, kpis (fst (historicalData (constant_source 0.5) 0%nat)) = Some k /\
    within (monthlyGrowth k)
           (growth_value (Divided (1249500 - 1512000) 1512000),
            growth_value (Divided (1470000 - 1285200) 1285200)) = true /\
    within (monthlyGrowth k) (-17.37, 14.38) = true.
Proof.
  apply (generated_monthly_growth (constant_source 0.5) 0%nat).
  intros k. split; reflexivity.
Defined.

(** * Revenue per customer and amounts in millions *)

Lemma is_nan_number (x : float) : is_number x = true -> is_nan x = false.
Proof.
  intros N. unfold is_nan. rewrite eqb_spec. unfold SFeqb.
  unfold is_number in N. apply negb_true_iff in N.
  rewrite SFcompare_val by auto using Prim2SF_valid.
  now rewrite Z.compare_refl.
Qed.

(** [Math.max] of two numbers is one of them and is below neither. *)
Lemma Math_max_cases (a b : float) :
  is_number a = true -> is_number b = true ->
  (Math_max a b = a /\ (b <=? a) = true) \/
  (Math_max a b = b /\ (a <=? b) = true).
Proof.
  intros Na Nb. unfold Math_max.
  rewrite (is_nan_number a Na), (is_nan_number b Nb). simpl.
  rewrite (ltb_val a b Na Nb), (ltb_val b a Nb Na).
  destruct (Z.ltb_spec (val a) (val b)) as [L|G].
  - right. split; [reflexivity|]. apply leb_le. repeat split; auto; lia.
  - destruct (Z.ltb_spec (val b) (val a)) as [L'|G'].
    + left. split; [reflexivity|]. apply leb_le. repeat split; auto; lia.
    + destruct (get_sign a).
      * right. split; [reflexivity|]. apply leb_le. repeat split; auto; lia.
      * left. split; [reflexivity|]. apply leb_le. repeat split; auto; lia.
Qed.

(** A finite number divided by +infinity is zero. *)
Lemma div_infinity (a b : float) :
  finite a = true -> Prim2SF b = S754_infinity false ->
  finite (a / b) = true /\ val (a / b) = 0%Z.
Proof.
  unfold finite, val. intros Fa Eb. rewrite div_spec, Eb.
  destruct (Prim2SF a) as [s|s| |s m e]; try discriminate; split; reflexivity.
Qed.

Lemma div_nonneg (a b : float) :
  finite a = true -> finite b = true -> (0 <=? a) = true -> (0 < val b)%Z ->
  (0 <=? a / b) = true.
Proof.
  intros Fa Fb Ha Pb. apply leb_le in Ha. destruct Ha as (_ & _ & Ha).
  change (val 0) with 0%Z in Ha.
  destruct (div_val a b Fa Fb Pb) as [N V].
  apply leb_le. split; [reflexivity|]. split; [exact N|].
  change (val 0) with 0%Z. rewrite V, <- (Rdiv_0 (val b) Pb).
  apply Rdiv_mono; lia.
Qed.

Lemma Math_max_guard (c : float) : (1e-6 <=? c) = true -> Math_max c 1e-6 = c.
Proof.
  intros H. apply leb_le in H. destruct H as (N1 & Nc & H).
  assert (P : (0 < val 1e-6)%Z) by reflexivity.
  unfold Math_max. rewrite (is_nan_number c Nc), (is_nan_number _ N1). simpl.
  rewrite (ltb_val c 1e-6 Nc N1).
  destruct (Z.ltb_spec (val c) (val 1e-6)) as [L|G]; [lia|].
  destruct (1e-6 <? c); [reflexivity|].
  unfold get_sign, is_zero.
  assert (E : (c =? 0) = false).
  { rewrite eqb_spec. unfold SFeqb.
    unfold is_number in Nc. apply negb_true_iff in Nc.
    rewrite SFcompare_val by auto using Prim2SF_valid.
    fold (val c). change (F2Z (Prim2SF 0)) with 0%Z.
    destruct (Z.compare_spec (val c) 0); try reflexivity. lia. }
  change zero with 0. rewrite E.
  rewrite (ltb_val c 0 Nc eq_refl). change (val 0) with 0%Z.
  destruct (Z.ltb_spec (val c) 0); [lia|reflexivity].
Qed.

(** X11. The guard of the revenue per customer: for a revenue share between 0
    and 1 and every count that is a number (zero, negative and infinite
    counts included), the divisor is at least 1e-6, and the result is
    finite and lies between 0 and 1,000,000,000; a count of at least 1e-6
    is the divisor itself. *)
Theorem revenue_per_customer_guard (r c : number) :
  (0 <=? r) = true -> (r <=? 1) = true -> is_number c = true ->
  (1e-6 <=? Math_max c 1e-6) = true /\
  finite (revenuePerCustomer r c) = true /\
  within (revenuePerCustomer r c) (0, 1000000000) = true /\
  ((1e-6 <=? c) = true -> revenuePerCustomer r c = r / c * 1000).
Proof.
  intros R0 R1 Nc.
  assert (Fr : finite r = true) by (apply (finite_between 0 r 1); auto).
  assert (Hd : (1e-6 <=? Math_max c 1e-6) = true).
  { destruct (Math_max_cases c 1e-6 Nc eq_refl) as [[-> H]|[-> H]];
      [exact H|reflexivity]. }
  split; [exact Hd|].
  assert (B : finite (revenuePerCustomer r c) = true /\
              within (revenuePerCustomer r c) (0, 1000000000) = true).
  { unfold revenuePerCustomer. set (d := Math_max c 1e-6) in *.
    assert (Hd0 : (0 <=? d) = true) by (apply (leb_trans 0 1e-6 d); auto).
    assert (Q : finite (r / d) = true /\ within (r / d) (0, 1000000) = true).
    { destruct (nonneg_cases d Hd0) as [[Fd _]|Id].
      - apply leb_le in Hd. destruct Hd as (_ & _ & Hd).
        assert (P6 : (0 < val 1e-6)%Z) by reflexivity.
        assert (L : (0 <=? r / d) = true) by (apply div_nonneg; auto; lia).
        assert (U1 : (r / d <=? r / 1e-6) = true).
        { apply div_mono; auto; try lia.
          apply leb_le in R0. destruct R0 as (_ & _ & R0).
          change (val 0) with 0%Z in R0. nia. }
        assert (U2 : (r / 1e-6 <=? 1 / 1e-6) = true)
          by (apply div_mono_l; auto).
        assert (U : (r / d <=? 1000000) = true)
          by (apply (leb_trans _ (r / 1e-6)); [exact U1|exact U2]).
        split; [apply (finite_between 0 _ 1000000); auto|].
        now apply within_intro.
      - destruct (div_infinity r d Fr Id) as [F V].
        split; [exact F|].
        pose proof (finite_is_number _ F) as N.
        apply within_intro; apply leb_le.
        + split; [reflexivity|]. split; [exact N|]. rewrite V. reflexivity.
        + split; [exact N|]. split; [reflexivity|]. rewrite V.
          vm_compute. discriminate. }
    destruct Q as [Fq Wq]. destruct (within_inv _ _ _ Wq) as [Lq Uq].
    assert (L : (0 * 1000 <=? r / d * 1000) = true)
      by (apply mul_mono_l; auto).
    assert (U : (r / d * 1000 <=? 1000000 * 1000) = true)
      by (apply mul_mono_l; auto).
    split; [apply (finite_between (0 * 1000) _ (1000000 * 1000)); auto|].
    now apply within_intro. }
  split; [apply B|]. split; [apply B|].
  intros H. unfold revenuePerCustomer. now rewrite Math_max_guard.
Qed.

Lemma revenue_per_customer_guard_witness :
  (1e-6 <=? Math_max 0.05 1e-6) = true /\
  finite (revenuePerCustomer 0.35 0.05) = true /\
  within (revenuePerCustomer 0.35 0.05) (0, 1000000000) = true /\
  ((1e-6 <=? 0.05) = true -> revenuePerCustomer 0.35 0.05 = 0.35 / 0.05 * 1000).
Proof.
  apply (revenue_per_customer_guard 0.35 0.05); reflexivity.
Defined.

(** X12. The amounts of the dashboard and of the scenario cards, in millions:
    on every generated series the total revenue is shown between 11.17 and
    13.16 million, the bear case between 9.5 and 11.18, the base case
    between 12.07 and 14.21 and the bull case between 13.97 and 16.45. *)
Theorem generated_amounts_in_millions (src : RandomSource) (n : nat) :
  unit_draws src ->
  let t := reduce_sum revenue (fst (historicalData src n)) in
  within (in_millions t) (11.17, 13.16) = true /\
  within (in_millions (bearCase t)) (9.5, 11.18) = true /\
  within (in_millions (baseCase t)) (12.07, 14.21) = true /\
  within (in_millions (bullCase t)) (13.97, 16.45) = true.
Proof.
  intros Hsrc t.
  destruct (generated_total src n Hsrc) as (I & _ & B). fold t in I, B.
  destruct (is_integer_val t I) as [Ft _].
  pose proof (to_int_within t 11179200 13152000 _ _ I eq_refl eq_refl B) as W.
  destruct (within_inv _ _ _ W) as [L U].
  assert (M : forall x lo hi, finite lo = true -> finite hi = true ->
            (lo <=? x) = true -> (x <=? hi) = true ->
            forall lo' hi', (lo' <=? in_millions lo) = true ->
                            (in_millions hi <=? hi') = true ->
            within (in_millions x) (lo', hi') = true).
  { intros x lo hi Flo Fhi Lx Ux lo' hi' Hl Hh.
    assert (Fx : finite x = true) by (apply (finite_between lo x hi); auto).
    unfold in_millions in *. apply within_intro.
    - apply (leb_trans _ (lo / 1000000)); [exact Hl|].
      apply div_mono_l; auto.
    - apply (leb_trans _ (hi / 1000000)); [|exact Hh].
      apply div_mono_l; auto. }
  assert (S : forall c, finite c = true -> (0 <=? c) = true ->
            (11179200 * c <=? t * c) = true /\ (t * c <=? 13152000 * c) = true).
  { intros c Fc Hc. split; apply mul_mono_l; auto. }
  split; [apply (M t 11179200 13152000); auto|].
  unfold bearCase, baseCase, bullCase.
  split; [|split].
  - destruct (S 0.85 eq_refl eq_refl) as [A1 A2].
    apply (M _ (11179200 * 0.85) (13152000 * 0.85)); auto.
  - destruct (S 1.08 eq_refl eq_refl) as [A1 A2].
    apply (M _ (11179200 * 1.08) (13152000 * 1.08)); auto.
  - destruct (S 1.25 eq_refl eq_refl) as [A1 A2].
    apply (M _ (11179200 * 1.25) (13152000 * 1.25)); auto.
Qed.

Lemma generated_amounts_in_millions_witness :
  let t := reduce_sum revenue (fst (historicalData (constant_source 0.5) 0%nat)) in
  within (in_millions t) (11.17, 13.16) = true /\
  within (in_millions (bearCase t)) (9.5, 11.18) = true /\
  within (in_millions (baseCase t)) (12.07, 14.21) = true /\
  within (in_millions (bullCase t)) (13.97, 16.45) = true.
Proof.
  apply (generated_amounts_in_millions (constant_source 0.5) 0%nat).
  intros k. split; reflexivity.
Defined.

(** * The chart series *)

(** A number that is at least zero is truncated to the integer part of its
    value. *)
Lemma ToIntegerOrInfinity_nonneg (x : number) :
  finite x = true -> (0 <= val x)%Z ->
  ToIntegerOrInfinity x = Integer (val x / 2 ^ 1074).
Proof.
  unfold finite, val, ToIntegerOrInfinity. intros F P.
  pose proof (Prim2SF_valid x) as V.
  destruct (Prim2SF x) as [s|s| |s m e]; try discriminate.
  - reflexivity.
  - destruct (valid_finite_inv s m e V) as (_ & He & _).
    pose proof (pow2_pos (e + 1074) ltac:(lia)) as Pe.
    rewrite F2Z_finite in *. destruct s; [unfold signed in P; lia|].
    unfold signed. f_equal.
    destruct (Z.leb_spec 0 e) as [Hp|Hn].
    + rewrite pow2_add, Z.mul_assoc, Z.div_mul by lia. reflexivity.
    + replace (2 ^ 1074)%Z with (2 ^ (- e) * 2 ^ (e + 1074))%Z
        by (rewrite <- pow2_add by lia; f_equal; lia).
      rewrite Z.div_mul_cancel_r; lia.
Qed.

Lemma of_nat_val (k : nat) : (Z.of_nat k < 2 ^ 53)%Z ->
  finite (of_nat k) = true /\ val (of_nat k) = (Z.of_nat k * 2 ^ 1074)%Z.
Proof.
  intros Hk. unfold of_nat, finite, val. rewrite of_uint63_spec.
  rewrite Uint63.of_Z_spec.
  rewrite Z.mod_small
    by (split; [lia|]; apply Z.lt_trans with (2 ^ 53)%Z; [lia|reflexivity]).
  destruct (binary_normalize_val (Z.of_nat k) 0 false ltac:(lia)) as (V & N & F).
  change (0 + 1074)%Z with 1074%Z in F.
  rewrite R_integer in F by lia.
  split; [|exact F].
  pose proof (integer_value_bounds (Z.of_nat k) ltac:(lia)) as Hh.
  destruct (binary_normalize prec emax (Z.of_nat k) 0 false) as [s|s| |s m e];
    try reflexivity; try discriminate.
  unfold F2Z in F. destruct s; lia.
Qed.

Lemma slice_from_start_of_nat {A} (l : list A) (k : nat) :
  (Z.of_nat k < 2 ^ 53)%Z ->
  slice_from_start l (of_nat k) = firstn k l.
Proof.
  intros Hk. destruct (of_nat_val k Hk) as [F V].
  unfold slice_from_start.
  rewrite (ToIntegerOrInfinity_nonneg _ F) by (rewrite V; lia).
  rewrite V, Z.div_mul by lia.
  destruct (Z.ltb_spec (Z.of_nat k) 0) as [H|H]; [lia|].
  destruct (Z.min_spec (Z.of_nat k) (Z.of_nat (List.length l))) as [[H1 ->]|[H1 ->]].
  - now rewrite Nat2Z.id.
  - rewrite Nat2Z.id. rewrite firstn_all.
    symmetry. apply firstn_all2. lia.
Qed.

(** X13. The chart series for a whole-number horizon [k]: all the historical
    records in order, then the first [k] forecast points, or all of them
    when there are fewer. *)
Theorem combinedData_horizon (h : list MonthData) (f : list ForecastPoint)
  (k : nat) :
  (Z.of_nat k < 2 ^ 53)%Z ->
  combinedData h f (of_nat k) = map Historical h ++ map Forecast (firstn k f) /\
  List.length (combinedData h f (of_nat k))
  = (List.length h + Nat.min k (List.length f))%nat.
Proof.
  intros Hk. unfold combinedData. rewrite slice_from_start_of_nat by assumption.
  split; [reflexivity|].
  now rewrite length_app, !length_map, length_firstn.
Qed.

Lemma combinedData_horizon_witness :
  let h := flat_year 1000 in
  let f := [Spec.project_point EmptyString 1000 0%nat] in
  combinedData h f (of_nat 6) = map Historical h ++ map Forecast (firstn 6 f) /\
  List.length (combinedData h f (of_nat 6))
  = (List.length h + Nat.min 6 (List.length f))%nat.
Proof.
  apply (combinedData_horizon (flat_year 1000)
           [Spec.project_point EmptyString 1000 0%nat] 6).
  reflexivity.
Defined.

(** X14. The charts on generated data: with the horizon 12 the main chart has
    24 points and with the horizon 6 it has 18; the point [i] is the
    historical record of period [i] and the point [12 + i] is the forecast
    point computed from the historical series at [i]; the forecast chart,
    which takes [forecastData.slice(0, 12)], shows the whole forecast. *)
Theorem generated_chart_series (src : RandomSource) (n : nat) :
  exists h f,
    generateMockData src n = (Some (h, f), (n + 120)%nat) /\
    List.length (combinedData h f 12) = 24%nat /\
    List.length (combinedData h f 6) = 18%nat /\
    slice_from_start f 12 = f /\
    forall i label, nth_error months i = Some label ->
      nth_error (combinedData h f 12) i
      = Some (Historical
                (fst (historicalRecord label i src (n + 10 * i)%nat))) /\
      nth_error (combinedData h f 12) (12 + i)
      = option_map Forecast (forecastPoint h label i).
Proof.
  destruct (generateMockData_spec src n) as (h & f & G & Lh & Lf & _ & Hn).
  exists h, f. split; [exact G|].
  change 12 with (of_nat 12). change 6 with (of_nat 6).
  unfold combinedData.
  rewrite !slice_from_start_of_nat by reflexivity.
  rewrite (firstn_all2 (n := 12) f) by lia.
  split; [now rewrite length_app, !length_map, Lh, Lf|].
  split; [now rewrite length_app, !length_map, length_firstn, Lh, Lf|].
  split; [reflexivity|].
  intros i label Hlabel.
  destruct (Hn i label Hlabel) as (Hh & Hf & _).
  assert (Hi : (i < 12)%nat)
    by (rewrite <- months_length; apply nth_error_Some; congruence).
  split.
  - rewrite nth_error_app1 by (rewrite length_map; lia).
    rewrite nth_error_map, Hh. reflexivity.
  - rewrite nth_error_app2 by (rewrite length_map; lia).
    rewrite length_map, Lh.
    replace (12 + i - 12)%nat with i by lia.
    rewrite nth_error_map, Hf. reflexivity.
Qed.

(** * The forecast band on generated data *)

(** Values one unit apart round to different integers. *)
Lemma roundZ_gap (v w : Z) : (v + 2 ^ 1074 <= w)%Z -> (roundZ v < roundZ w)%Z.
Proof.
  intros H. pose proof (pow2_pos 1074 ltac:(lia)) as Hp.
  apply Z.lt_le_trans with (roundZ (v + 2 ^ 1074)); [|now apply roundZ_mono].
  unfold roundZ.
  replace (2 ^ 1075)%Z with (2 * 2 ^ 1074)%Z
    by (change 1075%Z with (1 + 1074)%Z; rewrite (pow2_add 1 1074) by lia;
        reflexivity).
  replace (2 * (v + 2 ^ 1074) + 2 ^ 1074)%Z
    with (2 * v + 2 ^ 1074 + 1 * (2 * 2 ^ 1074))%Z by lia.
  rewrite Z.div_add by lia. lia.
Qed.

Section GapArithmetic.

Local Open Scope Z_scope.

Variables u T B c C r : Z.
Hypothesis u_pos : 0 < u.
Hypothesis T_pos : 0 < T.
Hypothesis B_large : 100 * u <= B.

(** With [u] the unit, [T = 2^53], [B] the value of the number, [c] the
    value of the factor and [r] the rounded product. *)
Lemma gap_down_arith :
  0 <= c <= C -> T * u <= 100 * (T * u - C * (T + 1)) ->
  T * (r * u) <= B * c * (T + 1) -> r + u <= B.
Proof.
  intros Hc K U.
  assert (PTu : 0 < T * u) by (apply Z.mul_pos_pos; assumption).
  set (W := T * u - C * (T + 1)) in *.
  assert (S1 : B * c * (T + 1) <= B * C * (T + 1)).
  { apply Z.mul_le_mono_nonneg_r; [lia|].
    apply Z.mul_le_mono_nonneg_l; lia. }
  assert (S2 : u * (T * u) <= B * W).
  { apply Z.le_trans with (100 * u * W).
    - replace (100 * u * W) with (u * (100 * W)) by ring.
      apply Z.mul_le_mono_nonneg_l; lia.
    - apply Z.mul_le_mono_nonneg_r; lia. }
  assert (S3 : B * W = B * (T * u) - B * C * (T + 1)) by (unfold W; ring).
  assert (S4 : r * (T * u) <= (B - u) * (T * u)).
  { replace (r * (T * u)) with (T * (r * u)) by ring.
    replace ((B - u) * (T * u)) with (B * (T * u) - u * (T * u)) by ring.
    lia. }
  apply Z.mul_le_mono_pos_r in S4; [lia|exact PTu].
Qed.

Lemma gap_up_arith :
  0 <= C <= c -> T * u <= 100 * (C * (T - 1) - T * u) ->
  B * c * (T - 1) <= T * (r * u) -> B + u <= r.
Proof.
  intros Hc K L.
  assert (PTu : 0 < T * u) by (apply Z.mul_pos_pos; assumption).
  set (W := C * (T - 1) - T * u) in *.
  assert (S1 : B * C * (T - 1) <= B * c * (T - 1)).
  { apply Z.mul_le_mono_nonneg_r; [lia|].
    apply Z.mul_le_mono_nonneg_l; lia. }
  assert (S2 : u * (T * u) <= B * W).
  { apply Z.le_trans with (100 * u * W).
    - replace (100 * u * W) with (u * (100 * W)) by ring.
      apply Z.mul_le_mono_nonneg_l; lia.
    - apply Z.mul_le_mono_nonneg_r; lia. }
  assert (S3 : B * W = B * C * (T - 1) - B * (T * u)) by (unfold W; ring).
  assert (S4 : (B + u) * (T * u) <= r * (T * u)).
  { replace (r * (T * u)) with (T * (r * u)) by ring.
    replace ((B + u) * (T * u)) with (B * (T * u) + u * (T * u)) by ring.
    lia. }
  apply Z.mul_le_mono_pos_r in S4; [lia|exact PTu].
Qed.

End GapArithmetic.

Lemma product_normal (b c : float) (k : Z) :
  (2 ^ 1074 <= val b)%Z -> (2 ^ 52 <= val c)%Z ->
  (2 ^ (1074 + 52) <= val b * val c)%Z.
Proof.
  intros Hb Hc. rewrite (pow2_add 1074 52) by lia.
  pose proof (pow2_pos 1074 ltac:(lia)). pose proof (pow2_pos 52 ltac:(lia)).
  apply Z.mul_le_mono_nonneg; lia.
Qed.

Lemma hundred_units (b : float) : (100 <=? b) = true ->
  (100 * 2 ^ 1074 <= val b)%Z /\ (2 ^ 1074 <= val b)%Z.
Proof.
  intros Hb. apply leb_le in Hb. destruct Hb as (_ & _ & Hb).
  assert (E : val 100 = (100 * 2 ^ 1074)%Z) by (vm_compute; reflexivity).
  rewrite E in Hb. pose proof (pow2_pos 1074 ltac:(lia)) as Hp.
  set (u := (2 ^ 1074)%Z) in *. clearbody u. lia.
Qed.

(** A factor at most 0.95 takes a number of at least 100 down by more than
    one, and a factor of at least 1.05 takes it up by more than one. *)
Lemma mul_gap_down (b c : float) :
  finite b = true -> (100 <=? b) = true ->
  (0x1p-1 <=? c) = true -> (c <=? 0.95) = true ->
  (val (b * c) + 2 ^ 1074 <= val b)%Z.
Proof.
  intros Fb Hb Hc0 Hc1.
  assert (Fc : finite c = true) by (apply (finite_between 0x1p-1 c 0.95); auto).
  destruct (mul_val b c Fb Fc) as [_ V]. rewrite V.
  destruct (hundred_units b Hb) as [Hb100 Hb1].
  apply leb_le in Hc0, Hc1.
  destruct Hc0 as (_ & _ & Hc0), Hc1 as (_ & _ & Hc1).
  pose proof (pow2_pos 1074 ltac:(lia)) as Hp.
  pose proof (pow2_pos 53 ltac:(lia)) as H53.
  assert (Eh : (2 ^ 52 <= val 0x1p-1)%Z) by (vm_compute; discriminate).
  assert (K : (2 ^ 53 * 2 ^ 1074
               <= 100 * (2 ^ 53 * 2 ^ 1074 - val 0.95 * (2 ^ 53 + 1)))%Z)
    by (vm_compute; discriminate).
  assert (P0 : (0 < val 0x1p-1)%Z) by reflexivity.
  pose proof (product_normal b c 0 Hb1 (Z.le_trans _ _ _ Eh Hc0)) as X1.
  destruct (Rpos_error 1074 _ ltac:(lia) X1) as [U _].
  assert (Pbc : (0 < val b * val c)%Z)
    by (apply Z.mul_pos_pos; [|apply Z.lt_le_trans with (val 0x1p-1)]; lia).
  rewrite (R_pos 1074 _ Pbc).
  apply Z.le_trans with (Rpos 1074 (val b * val c) + 2 ^ 1074)%Z;
    [apply Z.add_le_mono_r, Z.le_min_l|].
  apply (gap_down_arith (2 ^ 1074) (2 ^ 53) (val b) (val c) (val 0.95));
    try assumption.
  split; [|exact Hc1]. apply Z.le_trans with (val 0x1p-1); [|exact Hc0].
  now apply Z.lt_le_incl.
Qed.

Lemma mul_gap_up (b c : float) :
  finite b = true -> (100 <=? b) = true ->
  (1.05 <=? c) = true -> (c <=? 2) = true ->
  finite (b * c) = true ->
  (val b + 2 ^ 1074 <= val (b * c))%Z.
Proof.
  intros Fb Hb Hc0 Hc1 Fbc.
  assert (Fc : finite c = true) by (apply (finite_between 1.05 c 2); auto).
  pose proof (finite_val_bounds _ Fbc) as Bfin.
  destruct (mul_val b c Fb Fc) as [_ V]. rewrite V in *.
  destruct (hundred_units b Hb) as [Hb100 Hb1].
  apply leb_le in Hc0, Hc1.
  destruct Hc0 as (_ & _ & Hc0), Hc1 as (_ & _ & Hc1).
  pose proof (pow2_pos 1074 ltac:(lia)) as Hp.
  pose proof (pow2_pos 53 ltac:(lia)) as H53.
  assert (K : (2 ^ 53 * 2 ^ 1074
               <= 100 * (val 1.05 * (2 ^ 53 - 1) - 2 ^ 53 * 2 ^ 1074))%Z)
    by (vm_compute; discriminate).
  assert (K1 : (2 ^ 52 <= val 1.05)%Z) by (vm_compute; discriminate).
  assert (P0 : (0 < val 1.05)%Z) by reflexivity.
  pose proof (product_normal b c 0 Hb1 (Z.le_trans _ _ _ K1 Hc0)) as X1.
  destruct (Rpos_error 1074 _ ltac:(lia) X1) as [_ L].
  assert (Pbc : (0 < val b * val c)%Z)
    by (apply Z.mul_pos_pos; [|apply Z.lt_le_trans with (val 1.05)]; lia).
  rewrite (R_pos 1074 _ Pbc) in *.
  rewrite Z.min_l by lia.
  apply (gap_up_arith (2 ^ 1074) (2 ^ 53) (val b) (val c) (val 1.05));
    try assumption.
  split; [now apply Z.lt_le_incl|exact Hc0].
Qed.

(** The forecast projected from a whole revenue between 680,000 and
    1,512,000. *)
Lemma project_point_band (label : string) (r : number) (i : nat) :
  is_integer r = true -> (680000 <= int_of r <= 1512000)%Z ->
  let p := Spec.project_point label r i in
  (forecastLow p <? fp_revenue p) = true /\
  (fp_revenue p <? forecastHigh p) = true /\
  within (fp_revenue p) (734400, 1632960) = true.
Proof.
  intros I B p.
  pose proof (to_int_within r 680000 1512000 _ _ I eq_refl eq_refl B) as W.
  destruct (within_inv _ _ _ W) as [L U].
  destruct (is_integer_val r I) as [Fr _].
  assert (Lb : (680000 * 1.08 <=? r * 1.08) = true)
    by (apply mul_mono_l; auto).
  assert (Ub : (r * 1.08 <=? 1512000 * 1.08) = true)
    by (apply mul_mono_l; auto).
  set (b := r * 1.08) in *.
  assert (Fb : finite b = true)
    by (apply (finite_between (680000 * 1.08) b (1512000 * 1.08)); auto).
  assert (Nb : is_number b = true) by now apply finite_is_number.
  assert (Hb : (100 <=? b) = true)
    by (apply (leb_trans _ (680000 * 1.08)); [vm_compute; reflexivity|exact Lb]).
  assert (H0 : (0 <=? b) = true)
    by (apply (leb_trans _ 100); [reflexivity|exact Hb]).
  assert (Fh : finite (b * 1.10) = true).
  { apply (finite_between (680000 * 1.08 * 1.10) _ (1512000 * 1.08 * 1.10));
      try (vm_compute; reflexivity); apply mul_mono_l; auto. }
  assert (Fl : finite (b * 0.90) = true).
  { apply (finite_between (680000 * 1.08 * 0.90) _ (1512000 * 1.08 * 0.90));
      try (vm_compute; reflexivity); apply mul_mono_l; auto. }
  destruct (Math_round_val b Nb) as [N1 V1].
  destruct (Math_round_val (b * 1.10) (finite_is_number _ Fh)) as [N2 V2].
  destruct (Math_round_val (b * 0.90) (finite_is_number _ Fl)) as [N3 V3].
  unfold p, Spec.project_point. cbn [forecastLow fp_revenue forecastHigh].
  fold b. split; [|split].
  - apply ltb_lt. split; [exact N3|]. split; [exact N1|].
    rewrite V3, V1. apply roundZ_gap.
    apply mul_gap_down; auto; vm_compute; reflexivity.
  - apply ltb_lt. split; [exact N1|]. split; [exact N2|].
    rewrite V1, V2. apply roundZ_gap.
    apply mul_gap_up; auto; vm_compute; reflexivity.
  - apply within_intro.
    + apply (Math_round_mono (680000 * 1.08) b Lb).
    + apply (Math_round_mono b (1512000 * 1.08) Ub).
Qed.

(** X15. The forecast band on generated data: every forecast point of a run
    has its low estimate strictly below the forecast and its high estimate
    strictly above it, and the forecast lies between 734,400 and
    1,632,960. *)
Theorem generated_forecast_band (src : RandomSource) (n n' : nat)
  (h : list MonthData) (f : list ForecastPoint) (p : ForecastPoint) :
  unit_draws src ->
  generateMockData src n = (Some (h, f), n') ->
  In p f ->
  (forecastLow p <? fp_revenue p) = true /\
  (fp_revenue p <? forecastHigh p) = true /\
  within (fp_revenue p) (734400, 1632960) = true.
Proof.
  intros Hsrc G Hp.
  destruct (generateMockData_spec src n) as (h0 & f0 & G0 & _ & Lf & _ & Hn).
  rewrite G0 in G. injection G as <- <- _.
  destruct (In_nth_error _ _ Hp) as [i Hi].
  assert (Hi12 : (i < 12)%nat)
    by (rewrite <- Lf; apply nth_error_Some; congruence).
  destruct (nth_error months i) as [label|] eqn:Hl;
    [|apply nth_error_None in Hl; rewrite months_length in Hl; lia].
  destruct (Hn i label Hl) as (_ & _ & Hf).
  assert (Ep : p = Spec.project_point label
                  (revenue (fst (historicalRecord label i src (n + 10 * i)%nat))) i)
    by congruence.
  destruct (record_amounts label i src (n + 10 * i)%nat Hi12 Hsrc)
    as (a & b & c & d & T & I & B & _).
  pose proof (band_table_bounds i a b c d T) as G.
  rewrite Ep.
  exact (project_point_band label _ i I ltac:(lia)).
Qed.

Lemma generated_forecast_band_witness :
  let src := constant_source 0.5 in
  let p := Spec.project_point "Jan"
             (revenue (fst (historicalRecord "Jan" 0%nat src 0%nat))) 0%nat in
  (forecastLow p <? fp_revenue p) = true /\
  (fp_revenue p <? forecastHigh p) = true /\
  within (fp_revenue p) (734400, 1632960) = true.
Proof.
  eapply (generated_forecast_band (constant_source 0.5) 0%nat).
  - intros k. split; reflexivity.
  - vm_compute. reflexivity.
  - left. vm_compute. reflexivity.
Defined.
